(** * ai-cz: the encrypted token store and the commit-suggestion pipeline

    A shallow embedding of [src/index.ts] together with the parts of the
    JavaScript runtime it relies on (UTF-16 strings, UTF-8 and hex codecs,
    SHA-256, AES-256-CBC with PKCS#7 padding, [JSON.parse]).

    Layout: Part I holds the definitions (runtime first, then the two classes
    of the program), Part II the lemmas about the runtime, Part III the
    properties of the program. *)

From Stdlib Require Import String Ascii.
From Stdlib Require Import ZArith List Bool Lia.
From Stdlib Require Import Strings.Byte.
From Stdlib Require Import Btauto.
From Stdlib Require Import Permutation.
Import ListNotations.

Local Open Scope Z_scope.

(* ====================================================================== *)
(** * Part I.  Definitions *)
(* ====================================================================== *)

(** ** Bytes

    A byte is the 256-constructor type of the standard library; arithmetic on
    bytes goes through [Z]. *)

Definition b2z (b : byte) : Z := Z.of_N (Byte.to_N b).

Definition z2b (z : Z) : byte :=
  match Byte.of_N (Z.to_N (z mod 256)) with
  | Some b => b
  | None => x00
  end.

Definition bxor (a b : byte) : byte := z2b (Z.lxor (b2z a) (b2z b)).

(** ** JavaScript strings

    A JavaScript string is a finite sequence of 16-bit code units (UTF-16);
    a unit is kept as a [Z] in [0, 65535]. *)

Definition code_unit := Z.
Definition js_string := list code_unit.

Definition is_code_unit (u : Z) : bool := (0 <=? u) && (u <=? 65535).
Definition is_high_surrogate (u : Z) : bool := (55296 <=? u) && (u <=? 56319).
Definition is_low_surrogate (u : Z) : bool := (56320 <=? u) && (u <=? 57343).

(** A string is well formed when every unit is in range and every surrogate
    is half of a pair (high then low): the strings that denote sequences of
    Unicode scalar values. *)
Fixpoint well_formed (s : js_string) : bool :=
  match s with
  | [] => true
  | u :: rest =>
      if is_high_surrogate u then
        match rest with
        | l :: rest' => is_low_surrogate l && well_formed rest'
        | [] => false
        end
      else is_code_unit u && negb (is_low_surrogate u) && well_formed rest
  end.

(** [String.prototype.toWellFormed]: every unpaired surrogate gives way to
    U+FFFD, the rest stays. *)
Fixpoint toWellFormed (s : js_string) : js_string :=
  match s with
  | [] => []
  | u :: rest =>
      if is_high_surrogate u then
        match rest with
        | l :: rest' =>
            if is_low_surrogate l then u :: l :: toWellFormed rest'
            else 65533 :: toWellFormed rest
        | [] => [65533]
        end
      else if is_low_surrogate u then 65533 :: toWellFormed rest
      else u :: toWellFormed rest
  end.

(** [s1 === s2] on strings. *)
Fixpoint str_eqb (s1 s2 : js_string) : bool :=
  match s1, s2 with
  | [], [] => true
  | a :: s1', b :: s2' => (a =? b) && str_eqb s1' s2'
  | _, _ => false
  end.

(** The empty string is the only falsy string. *)
Definition str_truthy (s : js_string) : bool :=
  match s with [] => false | _ => true end.

(** *** UTF-8

    [utf8_encode] is the conversion Node applies to a string argument with
    encoding "utf8" ([Buffer.from(s, "utf8")], [cipher.update(s, "utf8")],
    [hash.update(s)], [writeFileSync(f, s)]): a surrogate pair becomes the
    four-byte form of its code point, an unpaired surrogate becomes
    U+FFFD (EF BF BD). *)

Definition encode_code_point (c : Z) : list byte :=
  if c <? 128 then [z2b c]
  else if c <? 2048 then [z2b (192 + c / 64); z2b (128 + c mod 64)]
  else if c <? 65536 then
    [z2b (224 + c / 4096); z2b (128 + (c / 64) mod 64); z2b (128 + c mod 64)]
  else
    [z2b (240 + c / 262144); z2b (128 + (c / 4096) mod 64);
     z2b (128 + (c / 64) mod 64); z2b (128 + c mod 64)].

Definition replacement_bytes : list byte := [xef; xbf; xbd].

Fixpoint utf8_encode (s : js_string) : list byte :=
  match s with
  | [] => []
  | u :: rest =>
      if is_high_surrogate u then
        match rest with
        | l :: rest' =>
            if is_low_surrogate l
            then encode_code_point (65536 + (u - 55296) * 1024 + (l - 56320))
                   ++ utf8_encode rest'
            else replacement_bytes ++ utf8_encode rest
        | [] => replacement_bytes
        end
      else if is_low_surrogate u then replacement_bytes ++ utf8_encode rest
      else encode_code_point u ++ utf8_encode rest
  end.

(** [utf8_decode] is the decoder of the WHATWG Encoding Standard, which
    Node's [buf.toString("utf8")], [readFileSync(f, "utf8")] and
    [StringDecoder] follow: a state machine over the bytes that emits
    U+FFFD for every ill-formed subsequence and never fails. *)

Record utf8_state := mk_utf8_state {
  u8_code_point : Z;
  u8_needed : nat;            (* continuation bytes still expected *)
  u8_lower : Z;               (* bounds of the next continuation byte *)
  u8_upper : Z
}.

Definition utf8_init : utf8_state := mk_utf8_state 0 0 128 191.

Definition units_of_code_point (c : Z) : js_string :=
  if c <? 65536 then [c]
  else [55296 + (c - 65536) / 1024; 56320 + (c - 65536) mod 1024].

(** A byte met when no sequence is open. *)
Definition utf8_lead (v : Z) : js_string * utf8_state :=
  if v <=? 127 then ([v], utf8_init)
  else if (194 <=? v) && (v <=? 223) then
    ([], mk_utf8_state (v mod 32) 1 128 191)
  else if (224 <=? v) && (v <=? 239) then
    ([], mk_utf8_state (v mod 16) 2
           (if v =? 224 then 160 else 128) (if v =? 237 then 159 else 191))
  else if (240 <=? v) && (v <=? 244) then
    ([], mk_utf8_state (v mod 8) 3
           (if v =? 240 then 144 else 128) (if v =? 244 then 143 else 191))
  else ([65533], utf8_init).

Definition utf8_step (st : utf8_state) (b : byte) : js_string * utf8_state :=
  let v := b2z b in
  match u8_needed st with
  | O => utf8_lead v
  | S n =>
      if (u8_lower st <=? v) && (v <=? u8_upper st) then
        let c := u8_code_point st * 64 + v mod 64 in
        match n with
        | O => (units_of_code_point c, utf8_init)
        | S _ => ([], mk_utf8_state c n 128 191)
        end
      else
        (* the open sequence is ill formed: U+FFFD, and the byte is read
           again as the start of a new sequence *)
        let '(out, st') := utf8_lead v in (65533 :: out, st')
  end.

Fixpoint utf8_decode_from (st : utf8_state) (bs : list byte) : js_string :=
  match bs with
  | [] => match u8_needed st with O => [] | S _ => [65533] end
  | b :: rest =>
      let '(out, st') := utf8_step st b in out ++ utf8_decode_from st' rest
  end.

Definition utf8_decode (bs : list byte) : js_string :=
  utf8_decode_from utf8_init bs.

(** A string literal of the source file: the file is UTF-8 text, the engine
    holds the literal as UTF-16. *)
Definition js (s : string) : js_string := utf8_decode (list_byte_of_string s).

(** *** [String.prototype.split] with a one-unit separator, and [trim] *)

Fixpoint split_on (sep : code_unit) (s : js_string) : list js_string :=
  match s with
  | [] => [[]]
  | c :: rest =>
      if c =? sep then [] :: split_on sep rest
      else match split_on sep rest with
           | p :: ps => (c :: p) :: ps
           | [] => [[c]]
           end
  end.

(** WhiteSpace and LineTerminator of ECMAScript. *)
Definition is_js_space (u : code_unit) : bool :=
  ((9 <=? u) && (u <=? 13)) || (u =? 32) || (u =? 160) || (u =? 5760)
  || ((8192 <=? u) && (u <=? 8202)) || (u =? 8232) || (u =? 8233)
  || (u =? 8239) || (u =? 8287) || (u =? 12288) || (u =? 65279).

Fixpoint trim_start (s : js_string) : js_string :=
  match s with
  | [] => []
  | u :: rest => if is_js_space u then trim_start rest else s
  end.

Definition trim (s : js_string) : js_string :=
  rev (trim_start (rev (trim_start s))).

(** ** Hexadecimal

    [hex_encode] is [buf.toString("hex")] (lower case, two digits a byte).
    [hex_decode] is [Buffer.from(s, "hex")]: digits are read in pairs and
    decoding stops, without an error, at the first pair that is not two
    hexadecimal digits, or when fewer than two units remain.  The decoder
    reads each code unit as one byte, its low byte, so that U+0130 counts
    for the digit 0 (U+0030). *)

Definition hex_digit (n : Z) : code_unit :=
  if n <? 10 then 48 + n else 87 + n.

Definition hex_of_byte (b : byte) : js_string :=
  [hex_digit (b2z b / 16); hex_digit (b2z b mod 16)].

Fixpoint hex_encode (bs : list byte) : js_string :=
  match bs with
  | [] => []
  | b :: rest => hex_of_byte b ++ hex_encode rest
  end.

Definition unhex (u : code_unit) : option Z :=
  if (48 <=? u) && (u <=? 57) then Some (u - 48)
  else if (97 <=? u) && (u <=? 102) then Some (u - 87)
  else if (65 <=? u) && (u <=? 70) then Some (u - 55)
  else None.

Definition is_hex_digit (u : code_unit) : bool :=
  match unhex u with Some _ => true | None => false end.

(** What the decoder keeps of a code unit. *)
Definition low_byte (u : code_unit) : Z := Z.land u 255.

Fixpoint hex_decode (s : js_string) : list byte :=
  match s with
  | a :: b :: rest =>
      match unhex (low_byte a), unhex (low_byte b) with
      | Some x, Some y => z2b (16 * x + y) :: hex_decode rest
      | _, _ => []
      end
  | _ => []
  end.

(** ** Lists of bytes in fixed-size pieces *)

Fixpoint chunks_fuel (fuel n : nat) (l : list byte) : list (list byte) :=
  match fuel with
  | O => []
  | S fuel' =>
      match l with
      | [] => []
      | _ => firstn n l :: chunks_fuel fuel' n (skipn n l)
      end
  end.

Definition chunks (n : nat) (l : list byte) : list (list byte) :=
  chunks_fuel (length l) n l.

(** Big-endian bytes of a number, [n] of them. *)
Fixpoint be_bytes (n : nat) (x : Z) : list byte :=
  match n with
  | O => []
  | S n' => z2b (x / 256 ^ Z.of_nat n') :: be_bytes n' x
  end.

Fixpoint be_value (bs : list byte) (acc : Z) : Z :=
  match bs with
  | [] => acc
  | b :: rest => be_value rest (acc * 256 + b2z b)
  end.

(** ** SHA-256 (FIPS 180-4), the hash behind [createHash("sha256")] *)

Module SHA256.

Definition w32 (x : Z) : Z := x mod 4294967296.
Definition add32 (x y : Z) : Z := w32 (x + y).
Definition rotr (n x : Z) : Z :=
  Z.lor (Z.shiftr x n) (w32 (Z.shiftl x (32 - n))).
Definition shr (n x : Z) : Z := Z.shiftr x n.
Definition not32 (x : Z) : Z := Z.lxor x 4294967295.

Definition Ch (x y z : Z) : Z := Z.lxor (Z.land x y) (Z.land (not32 x) z).
Definition Maj (x y z : Z) : Z :=
  Z.lxor (Z.lxor (Z.land x y) (Z.land x z)) (Z.land y z).
Definition Sigma0 (x : Z) : Z := Z.lxor (Z.lxor (rotr 2 x) (rotr 13 x)) (rotr 22 x).
Definition Sigma1 (x : Z) : Z := Z.lxor (Z.lxor (rotr 6 x) (rotr 11 x)) (rotr 25 x).
Definition sigma0 (x : Z) : Z := Z.lxor (Z.lxor (rotr 7 x) (rotr 18 x)) (shr 3 x).
Definition sigma1 (x : Z) : Z := Z.lxor (Z.lxor (rotr 17 x) (rotr 19 x)) (shr 10 x).

(** The largest [r] below [2 ^ k] with [r ^ degree <= n], found bit by bit. *)
Fixpoint root (degree : Z) (k : nat) (n r : Z) : Z :=
  match k with
  | O => r
  | S k' =>
      let r' := r + 2 ^ Z.of_nat k' in
      root degree k' n (if r' ^ degree <=? n then r' else r)
  end.

Definition is_prime (p : Z) : bool :=
  forallb (fun d => negb (p mod Z.of_nat d =? 0)) (seq 2 (Z.to_nat p - 2)).

(** The first sixty-four primes. *)
Definition primes : list Z :=
  Eval vm_compute in filter is_prime (map Z.of_nat (seq 2 310)).

(** The round constants: the first 32 bits of the fractional parts of the
    cube roots of the primes. *)
Definition K : list Z :=
  Eval vm_compute in
    map (fun p => root 3 40 (p * 2 ^ 96) 0 mod 2 ^ 32) primes.

Record hash_state := mk_hash {
  ha : Z; hb : Z; hc : Z; hd : Z; he : Z; hf : Z; hg : Z; hh : Z
}.

(** The initial hash value: the first 32 bits of the fractional parts of
    the square roots of the first eight primes. *)
Definition H0 : hash_state :=
  Eval vm_compute in
    let h (i : nat) := root 2 40 (nth i primes 0 * 2 ^ 64) 0 mod 2 ^ 32 in
    mk_hash (h 0%nat) (h 1%nat) (h 2%nat) (h 3%nat)
            (h 4%nat) (h 5%nat) (h 6%nat) (h 7%nat).

(** Message padding: a one bit, zeros up to 56 modulo 64 bytes, then the
    length in bits on 64 bits. *)
Definition pad (m : list byte) : list byte :=
  let len := Z.of_nat (length m) in
  let zeros := Z.to_nat ((55 - len) mod 64) in
  m ++ [x80] ++ repeat x00 zeros ++ be_bytes 8 (8 * len).

Definition words_of_block (blk : list byte) : list Z :=
  map (fun w => be_value w 0) (chunks 4 blk).

(** The message schedule, newest word first while it is built. *)
Fixpoint extend (n : nat) (w : list Z) : list Z :=
  match n with
  | O => w
  | S n' =>
      let x := add32 (add32 (sigma1 (nth 1 w 0)) (nth 6 w 0))
                     (add32 (sigma0 (nth 14 w 0)) (nth 15 w 0)) in
      extend n' (x :: w)
  end.

Definition schedule (blk : list byte) : list Z :=
  rev (extend 48 (rev (words_of_block blk))).

Definition round (s : hash_state) (kw : Z * Z) : hash_state :=
  let '(k, w) := kw in
  let t1 := add32 (add32 (add32 (hh s) (Sigma1 (he s)))
                         (add32 (Ch (he s) (hf s) (hg s)) k)) w in
  let t2 := add32 (Sigma0 (ha s)) (Maj (ha s) (hb s) (hc s)) in
  mk_hash (add32 t1 t2) (ha s) (hb s) (hc s)
          (add32 (hd s) t1) (he s) (hf s) (hg s).

Definition compress (h : hash_state) (blk : list byte) : hash_state :=
  let s := fold_left round (combine K (schedule blk)) h in
  mk_hash (add32 (ha h) (ha s)) (add32 (hb h) (hb s))
          (add32 (hc h) (hc s)) (add32 (hd h) (hd s))
          (add32 (he h) (he s)) (add32 (hf h) (hf s))
          (add32 (hg h) (hg s)) (add32 (hh h) (hh s)).

Definition digest_bytes (h : hash_state) : list byte :=
  be_bytes 4 (ha h) ++ be_bytes 4 (hb h) ++ be_bytes 4 (hc h)
  ++ be_bytes 4 (hd h) ++ be_bytes 4 (he h) ++ be_bytes 4 (hf h)
  ++ be_bytes 4 (hg h) ++ be_bytes 4 (hh h).

Definition sha256 (m : list byte) : list byte :=
  digest_bytes (fold_left compress (chunks 64 (pad m)) H0).

End SHA256.

(** ** AES-256 (FIPS 197), the block cipher behind "aes-256-cbc" *)

Module AES.

(** *** Arithmetic of GF(2^8) *)

Definition xtime (b : byte) : byte :=
  let v := 2 * b2z b in z2b (if v <? 256 then v else Z.lxor v 283).

Fixpoint gmul_loop (n : nat) (a : byte) (b : Z) (p : byte) : byte :=
  match n with
  | O => p
  | S n' => gmul_loop n' (xtime a) (b / 2) (if Z.odd b then bxor p a else p)
  end.

(** [gmul k a] is the product of the constant [k] and the byte [a]. *)
Definition gmul (k : Z) (a : byte) : byte := gmul_loop 8 a k x00.

Definition gsquare (a : byte) : byte := gmul (b2z a) a.

(** The multiplicative inverse, as the 254th power (0 is sent to 0). *)
Definition ginv (a : byte) : byte :=
  let a2 := gsquare a in
  let a4 := gsquare a2 in
  let a8 := gsquare a4 in
  let a16 := gsquare a8 in
  let a32 := gsquare a16 in
  let a64 := gsquare a32 in
  let a128 := gsquare a64 in
  let m (x y : byte) := gmul (b2z x) y in
  m a128 (m a64 (m a32 (m a16 (m a8 (m a4 a2))))).

Definition rotl8 (n : Z) (b : byte) : byte :=
  let v := b2z b in z2b (Z.lor (Z.shiftl v n) (Z.shiftr v (8 - n))).

Definition affine (b : byte) : byte :=
  bxor (bxor (bxor (bxor (bxor b (rotl8 1 b)) (rotl8 2 b)) (rotl8 3 b))
             (rotl8 4 b)) x63.

Definition all_bytes : list byte :=
  Eval vm_compute in map (fun n => z2b (Z.of_nat n)) (seq 0 256).

(** The S-box of section 5.1.1, tabulated from its definition, and its
    inverse, tabulated by search. *)
Definition sbox_table : list byte :=
  Eval vm_compute in map (fun b => affine (ginv b)) all_bytes.

Definition sbox (b : byte) : byte := nth (Z.to_nat (b2z b)) sbox_table x00.

Definition inv_sbox_table : list byte :=
  Eval vm_compute in
    map (fun y =>
           match find (fun x => Byte.eqb (sbox x) y) all_bytes with
           | Some x => x
           | None => x00
           end) all_bytes.

Definition inv_sbox (b : byte) : byte :=
  nth (Z.to_nat (b2z b)) inv_sbox_table x00.

(** *** The state: four columns of four bytes *)

Record column := Col { r0 : byte; r1 : byte; r2 : byte; r3 : byte }.
Record block := Blk { c0 : column; c1 : column; c2 : column; c3 : column }.

Definition col_map (f : byte -> byte) (c : column) : column :=
  Col (f (r0 c)) (f (r1 c)) (f (r2 c)) (f (r3 c)).

Definition col_xor (x y : column) : column :=
  Col (bxor (r0 x) (r0 y)) (bxor (r1 x) (r1 y))
      (bxor (r2 x) (r2 y)) (bxor (r3 x) (r3 y)).

Definition blk_map (f : column -> column) (s : block) : block :=
  Blk (f (c0 s)) (f (c1 s)) (f (c2 s)) (f (c3 s)).

Definition blk_xor (x y : block) : block :=
  Blk (col_xor (c0 x) (c0 y)) (col_xor (c1 x) (c1 y))
      (col_xor (c2 x) (c2 y)) (col_xor (c3 x) (c3 y)).

Definition bytes_of_col (c : column) : list byte := [r0 c; r1 c; r2 c; r3 c].

Definition bytes_of_block (s : block) : list byte :=
  bytes_of_col (c0 s) ++ bytes_of_col (c1 s)
  ++ bytes_of_col (c2 s) ++ bytes_of_col (c3 s).

(** The blocks of a byte sequence, sixteen bytes each; a shorter tail is
    left out. *)
Fixpoint to_blocks (l : list byte) : list block :=
  match l with
  | a0 :: a1 :: a2 :: a3 :: b0 :: b1 :: b2 :: b3
    :: d0 :: d1 :: d2 :: d3 :: e0 :: e1 :: e2 :: e3 :: rest =>
      Blk (Col a0 a1 a2 a3) (Col b0 b1 b2 b3)
          (Col d0 d1 d2 d3) (Col e0 e1 e2 e3) :: to_blocks rest
  | _ => []
  end.

Definition of_blocks (l : list block) : list byte := flat_map bytes_of_block l.

(** *** The four transformations and their inverses *)

Definition sub_bytes : block -> block := blk_map (col_map sbox).
Definition inv_sub_bytes : block -> block := blk_map (col_map inv_sbox).

Definition shift_rows (s : block) : block :=
  Blk (Col (r0 (c0 s)) (r1 (c1 s)) (r2 (c2 s)) (r3 (c3 s)))
      (Col (r0 (c1 s)) (r1 (c2 s)) (r2 (c3 s)) (r3 (c0 s)))
      (Col (r0 (c2 s)) (r1 (c3 s)) (r2 (c0 s)) (r3 (c1 s)))
      (Col (r0 (c3 s)) (r1 (c0 s)) (r2 (c1 s)) (r3 (c2 s))).

Definition inv_shift_rows (s : block) : block :=
  Blk (Col (r0 (c0 s)) (r1 (c3 s)) (r2 (c2 s)) (r3 (c1 s)))
      (Col (r0 (c1 s)) (r1 (c0 s)) (r2 (c3 s)) (r3 (c2 s)))
      (Col (r0 (c2 s)) (r1 (c1 s)) (r2 (c0 s)) (r3 (c3 s)))
      (Col (r0 (c3 s)) (r1 (c2 s)) (r2 (c1 s)) (r3 (c0 s))).

Definition xor4 (a b c d : byte) : byte := bxor (bxor (bxor a b) c) d.

Definition mix_column (c : column) : column :=
  let '(Col a b d e) := c in
  Col (xor4 (gmul 2 a) (gmul 3 b) d e)
      (xor4 a (gmul 2 b) (gmul 3 d) e)
      (xor4 a b (gmul 2 d) (gmul 3 e))
      (xor4 (gmul 3 a) b d (gmul 2 e)).

Definition inv_mix_column (c : column) : column :=
  let '(Col a b d e) := c in
  Col (xor4 (gmul 14 a) (gmul 11 b) (gmul 13 d) (gmul 9 e))
      (xor4 (gmul 9 a) (gmul 14 b) (gmul 11 d) (gmul 13 e))
      (xor4 (gmul 13 a) (gmul 9 b) (gmul 14 d) (gmul 11 e))
      (xor4 (gmul 11 a) (gmul 13 b) (gmul 9 d) (gmul 14 e)).

Definition mix_columns : block -> block := blk_map mix_column.
Definition inv_mix_columns : block -> block := blk_map inv_mix_column.

Definition add_round_key (k s : block) : block := blk_xor s k.

(** *** Key expansion for a 256-bit key: fifteen round keys *)

Definition rot_word (w : column) : column := Col (r1 w) (r2 w) (r3 w) (r0 w).
Definition sub_word : column -> column := col_map sbox.

Definition next_keys (rc : byte) (k0 k1 : block) : block * block :=
  let n0 := col_xor (c0 k0)
              (col_xor (sub_word (rot_word (c3 k1))) (Col rc x00 x00 x00)) in
  let n1 := col_xor (c1 k0) n0 in
  let n2 := col_xor (c2 k0) n1 in
  let n3 := col_xor (c3 k0) n2 in
  let n4 := col_xor (c0 k1) (sub_word n3) in
  let n5 := col_xor (c1 k1) n4 in
  let n6 := col_xor (c2 k1) n5 in
  let n7 := col_xor (c3 k1) n6 in
  (Blk n0 n1 n2 n3, Blk n4 n5 n6 n7).

Fixpoint expand (rcs : list byte) (k0 k1 : block) : list block :=
  match rcs with
  | [] => [k0; k1]
  | rc :: rcs' =>
      let '(k0', k1') := next_keys rc k0 k1 in
      k0 :: k1 :: expand rcs' k0' k1'
  end.

Definition rcon : list byte := [x01; x02; x04; x08; x10; x20; x40].

(** The round keys of a 32-byte key ([None] for any other length). *)
Definition key_expansion (key : list byte) : option (list block) :=
  match to_blocks key with
  | [k0; k1] =>
      if Nat.eqb (length key) 32 then Some (firstn 15 (expand rcon k0 k1))
      else None
  | _ => None
  end.

(** *** Cipher and inverse cipher, over any list of round keys *)

Definition round (k s : block) : block :=
  add_round_key k (mix_columns (shift_rows (sub_bytes s))).

Definition final_round (k s : block) : block :=
  add_round_key k (shift_rows (sub_bytes s)).

Fixpoint rounds (ks : list block) (s : block) : block :=
  match ks with
  | [] => s
  | [k] => final_round k s
  | k :: ks' => rounds ks' (round k s)
  end.

Definition cipher (ks : list block) (s : block) : block :=
  match ks with
  | [] => s
  | k :: ks' => rounds ks' (add_round_key k s)
  end.

Definition inv_round (k s : block) : block :=
  inv_sub_bytes (inv_shift_rows (inv_mix_columns (add_round_key k s))).

Definition inv_final_round (k s : block) : block :=
  inv_sub_bytes (inv_shift_rows (add_round_key k s)).

Fixpoint inv_rounds (ks : list block) (s : block) : block :=
  match ks with
  | [] => s
  | [k] => inv_final_round k s
  | k :: ks' => inv_round k (inv_rounds ks' s)
  end.

Definition inv_cipher (ks : list block) (s : block) : block :=
  match ks with
  | [] => s
  | k :: ks' => add_round_key k (inv_rounds ks' s)
  end.

End AES.

(** ** Outcomes of a call

    A call returns a value or throws. *)

Inductive exn : Type :=
| Error (msg : string)                       (* [new Error(msg)] *)
| TypeError                                  (* property read on null or undefined *)
| SyntaxError                                (* [JSON.parse] *)
| ERR_INVALID_ARG_VALUE                      (* hex input of odd length *)
| ERR_CRYPTO_INVALID_KEYLEN
| ERR_CRYPTO_INVALID_IV
| ERR_OSSL_WRONG_FINAL_BLOCK_LENGTH
| ERR_OSSL_BAD_DECRYPT
| SystemError (code : string)                (* a failed file or process call *)
| ServiceError (status : Z)                  (* a rejected request to the service *)
| PromptError.                               (* a rejected prompt *)

Inductive result (A : Type) : Type :=
| Returns (a : A)
| Throws (e : exn).

Arguments Returns {A} a.
Arguments Throws {A} e.

Definition bind {A B : Type} (m : result A) (f : A -> result B) : result B :=
  match m with
  | Returns a => f a
  | Throws e => Throws e
  end.

Declare Scope result_scope.
Delimit Scope result_scope with result.
Notation "x <- m ;; k" := (bind m (fun x => k))
  (at level 61, m at next level, right associativity) : result_scope.

(** ** The "aes-256-cbc" cipher objects of [crypto] *)

Module Crypto.

Import AES.

(** PKCS#7: between 1 and 16 bytes are appended, each holding their number. *)
Definition pkcs7_pad (m : list byte) : list byte :=
  let n := (16 - length m mod 16)%nat in
  m ++ repeat (z2b (Z.of_nat n)) n.

(** The check of [EVP_DecryptFinal_ex] on the last block. *)
Definition pkcs7_unpad (p : list byte) : option (list byte) :=
  let n := Z.to_nat (b2z (last p x00)) in
  if ((1 <=? n) && (n <=? 16) && (n <=? length p))%nat
     && forallb (fun b => Byte.eqb b (last p x00)) (skipn (length p - n) p)
  then Some (firstn (length p - n) p)
  else None.

Fixpoint cbc_encrypt (ks : list block) (prev : block) (ps : list block)
  : list block :=
  match ps with
  | [] => []
  | p :: rest =>
      let c := cipher ks (blk_xor p prev) in c :: cbc_encrypt ks c rest
  end.

Fixpoint cbc_decrypt (ks : list block) (prev : block) (cs : list block)
  : list block :=
  match cs with
  | [] => []
  | c :: rest => blk_xor (inv_cipher ks c) prev :: cbc_decrypt ks c rest
  end.

(** [createCipheriv("aes-256-cbc", key, iv)] and [createDecipheriv]: the
    round keys and the IV block, or the error of an IV that is not 16 bytes
    or (looked at second) of a key that is not 32 bytes. *)
Definition create_iv (key iv : list byte) : result (list block * block) :=
  match to_blocks iv with
  | [ivb] =>
      if Nat.eqb (length iv) 16 then
        match key_expansion key with
        | Some ks => Returns (ks, ivb)
        | None => Throws ERR_CRYPTO_INVALID_KEYLEN
        end
      else Throws ERR_CRYPTO_INVALID_IV
  | _ => Throws ERR_CRYPTO_INVALID_IV
  end.

(** The whole output of a cipher object fed [data]: what [update] returns
    (the blocks that are complete before padding) followed by what [final]
    returns (the padded last block). *)
Definition cipher_output (ks : list block) (ivb : block) (data : list byte)
  : list byte :=
  of_blocks (cbc_encrypt ks ivb (to_blocks (pkcs7_pad data))).

Definition cipher_update (ks : list block) (ivb : block) (data : list byte)
  : list byte :=
  firstn (16 * (length data / 16)) (cipher_output ks ivb data).

Definition cipher_final (ks : list block) (ivb : block) (data : list byte)
  : list byte :=
  skipn (16 * (length data / 16)) (cipher_output ks ivb data).

(** The whole output of a decipher object fed [data]: [update] holds the
    last block back, [final] fails when the input is empty or is not whole
    blocks, or when the padding of the last block is wrong. *)
Definition decipher_output (ks : list block) (ivb : block) (data : list byte)
  : result (list byte) :=
  if Nat.eqb (length data) 0 || negb (Nat.eqb (length data mod 16) 0)
  then Throws ERR_OSSL_WRONG_FINAL_BLOCK_LENGTH
  else
    match pkcs7_unpad (of_blocks (cbc_decrypt ks ivb (to_blocks data))) with
    | Some p => Returns p
    | None => Throws ERR_OSSL_BAD_DECRYPT
    end.

(** A string argument with input encoding "hex": [update] refuses an odd
    length, then decodes as [Buffer.from] does. *)
Definition hex_input (s : js_string) : result (list byte) :=
  if Nat.even (length s) then Returns (hex_decode s)
  else Throws ERR_INVALID_ARG_VALUE.

End Crypto.

(** ** JavaScript values, as far as JSON reaches *)

(** A number of a JSON text, kept exactly: [mantissa * 10 ^ exponent]. *)
Record number := mk_number { mantissa : Z; exponent : Z }.

#[warnings="-register-all"]
Inductive value : Type :=
| Undefined
| Null
| Bool (b : bool)
| Number (n : number)
| String (s : js_string)
| Array (items : list value)
| Object (props : list (js_string * value)).

(** The binary64 value of a decimal is zero when it is at most 2^-1075 in
    magnitude (half the least subnormal; the tie rounds to even). *)
Definition number_is_zero (n : number) : bool :=
  if mantissa n =? 0 then true
  else if 0 <=? exponent n then false
  else Z.abs (mantissa n) * 2 ^ 1075 <=? 10 ^ (- exponent n).

(** ToBoolean *)
Definition truthy (v : value) : bool :=
  match v with
  | Undefined | Null => false
  | Bool b => b
  | Number n => negb (number_is_zero n)
  | String s => str_truthy s
  | Array _ | Object _ => true
  end.

(** [a || b] *)
Definition or_else (a b : value) : value := if truthy a then a else b.

Fixpoint lookup (key : js_string) (props : list (js_string * value))
  : option value :=
  match props with
  | [] => None
  | (k, v) :: rest =>
      match lookup key rest with
      | Some v' => Some v'       (* a later duplicate of the key wins *)
      | None => if str_eqb k key then Some v else None
      end
  end.

(** [v.key], for a key that no built-in prototype defines (such as "types",
    "scopes" and "messages"): the own property of an object, [undefined] on
    any other value that can hold properties, a TypeError on [null] and
    [undefined]. *)
Definition get_prop (v : value) (key : js_string) : result value :=
  match v with
  | Undefined | Null => Throws TypeError
  | Object props =>
      match lookup key props with
      | Some x => Returns x
      | None => Returns Undefined
      end
  | _ => Returns Undefined
  end.

(** ** [JSON.parse] *)

Module JSON.

Definition is_ws (u : code_unit) : bool :=
  (u =? 9) || (u =? 10) || (u =? 13) || (u =? 32).

Fixpoint skip_ws (s : js_string) : js_string :=
  match s with
  | u :: rest => if is_ws u then skip_ws rest else s
  | [] => []
  end.

Definition is_digit (u : code_unit) : bool := (48 <=? u) && (u <=? 57).

(** The digits at the head of [s], their value continuing [acc], their
    count, and what follows them. *)
Fixpoint digits (s : js_string) (acc : Z) (count : Z) : Z * Z * js_string :=
  match s with
  | u :: rest =>
      if is_digit u then digits rest (acc * 10 + (u - 48)) (count + 1)
      else (acc, count, s)
  | [] => (acc, count, [])
  end.

(** After the opening quote: the units up to the closing quote. *)
Fixpoint string_body (s : js_string) : option (js_string * js_string) :=
  match s with
  | [] => None
  | 34 :: rest => Some ([], rest)
  | 92 :: e :: rest =>
      let simple (u : code_unit) :=
        match string_body rest with
        | Some (str, rest') => Some (u :: str, rest')
        | None => None
        end in
      if e =? 34 then simple 34
      else if e =? 92 then simple 92
      else if e =? 47 then simple 47
      else if e =? 98 then simple 8
      else if e =? 102 then simple 12
      else if e =? 110 then simple 10
      else if e =? 114 then simple 13
      else if e =? 116 then simple 9
      else if e =? 117 then
        match rest with
        | h1 :: h2 :: h3 :: h4 :: rest4 =>
            match unhex h1, unhex h2, unhex h3, unhex h4 with
            | Some a, Some b, Some c, Some d =>
                match string_body rest4 with
                | Some (str, rest') =>
                    Some (((a * 16 + b) * 16 + c) * 16 + d :: str, rest')
                | None => None
                end
            | _, _, _, _ => None
            end
        | _ => None
        end
      else None
  | u :: rest =>
      if (u <? 32) || (u =? 92) then None
      else match string_body rest with
           | Some (str, rest') => Some (u :: str, rest')
           | None => None
           end
  end.

(** After an optional minus sign: integer part, fraction, exponent. *)
Definition unsigned_number (s : js_string) : option (number * js_string) :=
  let '(int, n_int, after_int) := digits s 0 0 in
  let leading_zero := match s with 48 :: _ => true | _ => false end in
  if (n_int =? 0) || (leading_zero && (1 <? n_int)) then None
  else
    let frac :=
      match after_int with
      | 46 :: rest =>
          let '(m, n_frac, after_frac) := digits rest int 0 in
          if n_frac =? 0 then None else Some (m, n_frac, after_frac)
      | _ => Some (int, 0, after_int)
      end in
    match frac with
    | None => None
    | Some (m, n_frac, after_frac) =>
        let exp (sign : Z) (rest : js_string) :=
          let '(e, n_exp, after_exp) := digits rest 0 0 in
          if n_exp =? 0 then None
          else Some (mk_number m (sign * e - n_frac), after_exp) in
        match after_frac with
        | 101 :: 43 :: rest | 69 :: 43 :: rest => exp 1 rest
        | 101 :: 45 :: rest | 69 :: 45 :: rest => exp (-1) rest
        | 101 :: rest | 69 :: rest => exp 1 rest
        | _ => Some (mk_number m (- n_frac), after_frac)
        end
    end.

Definition starts_with (p s : js_string) : option js_string :=
  if str_eqb p (firstn (length p) s) then Some (skipn (length p) s) else None.

Fixpoint parse_value (fuel : nat) (s : js_string) {struct fuel}
  : option (value * js_string) :=
  match fuel with
  | O => None
  | S fuel' =>
      match skip_ws s with
      | 34 :: rest =>
          match string_body rest with
          | Some (str, rest') => Some (String str, rest')
          | None => None
          end
      | 91 :: rest =>
          match skip_ws rest with
          | 93 :: rest' => Some (Array [], rest')
          | _ => parse_elements fuel' rest []
          end
      | 123 :: rest =>
          match skip_ws rest with
          | 125 :: rest' => Some (Object [], rest')
          | _ => parse_members fuel' rest []
          end
      | 45 :: rest =>
          match unsigned_number rest with
          | Some (n, rest') =>
              Some (Number (mk_number (- mantissa n) (exponent n)), rest')
          | None => None
          end
      | u :: rest =>
          if is_digit u then
            match unsigned_number (u :: rest) with
            | Some (n, rest') => Some (Number n, rest')
            | None => None
            end
          else
            match starts_with [116; 114; 117; 101] (u :: rest) with
            | Some rest' => Some (Bool true, rest')
            | None =>
                match starts_with [102; 97; 108; 115; 101] (u :: rest) with
                | Some rest' => Some (Bool false, rest')
                | None =>
                    match starts_with [110; 117; 108; 108] (u :: rest) with
                    | Some rest' => Some (Null, rest')
                    | None => None
                    end
                end
            end
      | [] => None
      end
  end

with parse_elements (fuel : nat) (s : js_string) (acc : list value)
       {struct fuel} : option (value * js_string) :=
  match fuel with
  | O => None
  | S fuel' =>
      match parse_value fuel' s with
      | Some (v, rest) =>
          match skip_ws rest with
          | 44 :: rest' => parse_elements fuel' rest' (v :: acc)
          | 93 :: rest' => Some (Array (rev (v :: acc)), rest')
          | _ => None
          end
      | None => None
      end
  end

with parse_members (fuel : nat) (s : js_string)
       (acc : list (js_string * value)) {struct fuel}
       : option (value * js_string) :=
  match fuel with
  | O => None
  | S fuel' =>
      match skip_ws s with
      | 34 :: rest =>
          match string_body rest with
          | Some (key, rest1) =>
              match skip_ws rest1 with
              | 58 :: rest2 =>
                  match parse_value fuel' rest2 with
                  | Some (v, rest3) =>
                      match skip_ws rest3 with
                      | 44 :: rest' => parse_members fuel' rest' ((key, v) :: acc)
                      | 125 :: rest' =>
                          Some (Object (rev ((key, v) :: acc)), rest')
                      | _ => None
                      end
                  | None => None
                  end
              | _ => None
              end
          | None => None
          end
      | _ => None
      end
  end.

(** [JSON.parse(text)]: the value of a text that is one JSON value between
    optional white space, a SyntaxError otherwise.  Every call of the three
    parsers that goes one level deeper or one element further has read at
    least one unit, so the fuel is never the reason of a failure. *)
Definition parse (text : js_string) : result value :=
  match parse_value (2 * length text + 2) text with
  | Some (v, rest) =>
      match skip_ws rest with
      | [] => Returns v
      | _ => Throws SyntaxError
      end
  | None => Throws SyntaxError
  end.

End JSON.

(** ** The world of the program

    The state the program acts on: the token file under the configuration
    directory, and the ordered record of what the process did to the outside
    (console lines, commands run, requests sent, questions asked). *)

Inductive file_node : Type :=
| Missing
| Regular (content : list byte)
| Unreadable.              (* exists, but a read or a write of it fails *)

Record file_system := mk_fs {
  config_dir_exists : bool;
  token_file : file_node;
  read_only : bool;         (* creating, writing and removing fail *)
  capacity : option nat     (* the bytes the disk takes for the token file
                               before a write fails (no space left, a quota,
                               a size limit); [None]: no limit *)
}.

Inductive event : Type :=
| ConsoleLog (text : js_string)
| ConsoleError (text : js_string) (error : option exn)
| Exec (cmd : js_string)              (* a line handed to [execSync],
                                         which runs it in a shell *)
| Request (prompt : js_string)        (* a call of
                                         [openai.chat.completions.create];
                                         the client may send it again *)
| Ask (name : js_string).             (* [inquirer.prompt] *)

Record world := mk_world {
  fs : file_system;
  trace : list event
}.

(** A procedure of the program acts on the world, and returns, throws, or
    ends the process ([process.exit]). *)
Inductive ending (A : Type) : Type :=
| Returned (a : A)
| Threw (e : exn)
| Exited (status : Z).

Arguments Returned {A} a.
Arguments Threw {A} e.
Arguments Exited {A} status.

Definition M (A : Type) : Type := world -> world * ending A.

Definition ret {A : Type} (a : A) : M A := fun w => (w, Returned a).
Definition throw {A : Type} (e : exn) : M A := fun w => (w, Threw e).
(** [process.exit(n)] *)
Definition exit {A : Type} (n : Z) : M A := fun w => (w, Exited n).

(** A call that does not touch the world. *)
Definition lift {A : Type} (r : result A) : M A :=
  fun w => (w, match r with Returns a => Returned a | Throws e => Threw e end).

Definition mbind {A B : Type} (m : M A) (f : A -> M B) : M B :=
  fun w =>
    match m w with
    | (w', Returned a) => f a w'
    | (w', Threw e) => (w', Threw e)
    | (w', Exited n) => (w', Exited n)
    end.

(** [try { m } catch (error) { h error }]: only a throw reaches the handler,
    the end of the process does not. *)
Definition catch {A : Type} (m : M A) (h : exn -> M A) : M A :=
  fun w =>
    match m w with
    | (w', Threw e) => h e w'
    | r => r
    end.

Definition emit (e : event) : M unit :=
  fun w => (mk_world (fs w) (trace w ++ [e]), Returned tt).

Definition get_fs : M file_system := fun w => (w, Returned (fs w)).
Definition put_fs (f : file_system) : M unit :=
  fun w => (mk_world f (trace w), Returned tt).

Declare Scope prog_scope.
Delimit Scope prog_scope with prog.
Notation "'let*' x ':=' m 'in' k" := (mbind m (fun x => k))
  (at level 10, x name, m at level 100, k at level 200) : prog_scope.
Notation "m '>>' k" := (mbind m (fun _ => k))
  (at level 62, right associativity) : prog_scope.

(** ** [class EncryptedTokenManager] *)

Module EncryptedTokenManager.

Local Open Scope prog_scope.

(** The fields [configDir] and [tokenFile] are the two paths the
    [file_system] above stands for; the key is the field that matters. *)
Record t := mk { encryptionKey : js_string }.

Definition generateEncryptionKey (platform arch homedir : js_string)
  : js_string :=
  let machineId := platform ++ arch ++ homedir in
  hex_encode (SHA256.sha256 (utf8_encode machineId)).

(** The constructor, on a machine with these attributes. *)
Definition new (platform arch homedir : js_string) : t :=
  mk (generateEncryptionKey platform arch homedir).

Definition ensureConfigDir : M unit :=
  let* f := get_fs in
  if negb (config_dir_exists f) then
    if read_only f then throw (SystemError "EACCES")
    else put_fs (mk_fs true (token_file f) (read_only f) (capacity f))
  else ret tt.

(** [random] is what [randomBytes(16)] returns in this call. *)
Definition encrypt (this : t) (random : AES.block) (text : js_string)
  : result js_string :=
  let iv := AES.bytes_of_block random in
  let key := hex_decode (encryptionKey this) in
  (cipher <- Crypto.create_iv key iv ;;
   let '(ks, ivb) := cipher in
   let encrypted := hex_encode (Crypto.cipher_update ks ivb (utf8_encode text)) in
   let encrypted :=
     encrypted ++ hex_encode (Crypto.cipher_final ks ivb (utf8_encode text)) in
   Returns (hex_encode iv ++ js ":" ++ encrypted))%result.

(** [decipher.update(encrypted, "hex", "utf8") + decipher.final("utf8")]:
    the two pieces share one string decoder, so their concatenation is the
    decoding of the whole plaintext. *)
Definition decrypt (this : t) (encryptedText : js_string) : result js_string :=
  let parts := split_on 58 encryptedText in
  if negb (Nat.eqb (length parts) 2)
  then Throws (Error "Invalid encrypted data format")
  else
    let iv := hex_decode (nth 0 parts []) in
    let encrypted := nth 1 parts [] in
    let key := hex_decode (encryptionKey this) in
    (decipher <- Crypto.create_iv key iv ;;
     let '(ks, ivb) := decipher in
     data <- Crypto.hex_input encrypted ;;
     decrypted <- Crypto.decipher_output ks ivb data ;;
     Returns (utf8_decode decrypted))%result.

Definition existsSync_tokenFile (f : file_system) : bool :=
  match token_file f with Missing => false | _ => true end.

Definition readFileSync_tokenFile : M js_string :=
  let* f := get_fs in
  match token_file f with
  | Regular content => ret (utf8_decode content)
  | Missing => throw (SystemError "ENOENT")
  | Unreadable => throw (SystemError "EACCES")
  end.

(** What the disk takes of the bytes written to the token file. *)
Definition taken (f : file_system) (bytes : list byte) : list byte :=
  match capacity f with
  | Some n => firstn n bytes
  | None => bytes
  end.

(** [writeFileSync(tokenFile, data)]: the file is opened, which empties it,
    and the bytes are then written; when the disk does not take them all,
    the file keeps what it took and the call throws. *)
Definition writeFileSync_tokenFile (data : js_string) : M unit :=
  let* f := get_fs in
  if read_only f then throw (SystemError "EACCES")
  else if negb (config_dir_exists f) then throw (SystemError "ENOENT")
  else match token_file f with
       | Unreadable => throw (SystemError "EACCES")
       | _ =>
           let bytes := utf8_encode data in
           put_fs (mk_fs (config_dir_exists f) (Regular (taken f bytes))
                         (read_only f) (capacity f)) >>
           if (length (taken f bytes) <? length bytes)%nat
           then throw (SystemError "ENOSPC")
           else ret tt
       end.

Definition unlinkSync_tokenFile : M unit :=
  let* f := get_fs in
  if read_only f then throw (SystemError "EACCES")
  else put_fs (mk_fs (config_dir_exists f) Missing (read_only f) (capacity f)).

Definition getToken (this : t) : M (option js_string) :=
  catch
    (let* f := get_fs in
     if negb (existsSync_tokenFile f) then ret None
     else
       let* encryptedData := readFileSync_tokenFile in
       let* token := lift (decrypt this encryptedData) in
       ret (if str_truthy token then Some token else None))
    (fun error =>
       emit (ConsoleError (js "❌ Failed to read stored token:") (Some error)) >>
       ret None).

Definition setToken (this : t) (random : AES.block) (token : js_string)
  : M unit :=
  catch
    (ensureConfigDir >>
     let* encrypted := lift (encrypt this random token) in
     writeFileSync_tokenFile encrypted >>
     emit (ConsoleLog (js "✅ API token saved securely")))
    (fun error =>
       emit (ConsoleError (js "❌ Failed to save token:") (Some error)) >>
       throw error).

Definition hasToken (this : t) : M bool :=
  let* token := getToken this in
  ret (match token with Some _ => true | None => false end).

Definition clearToken (this : t) : M unit :=
  catch
    (let* f := get_fs in
     if existsSync_tokenFile f then
       unlinkSync_tokenFile >> emit (ConsoleLog (js "✅ API token cleared"))
     else ret tt)
    (fun error =>
       emit (ConsoleError (js "❌ Failed to clear token:") (Some error))).

End EncryptedTokenManager.

(** ** What the process is given from outside *)

(** A chat completion, as the client library types it. *)
Record chat_message := mk_message { content : option js_string }.
Record chat_choice := mk_choice { message : chat_message }.
Record chat_completion := mk_completion { choices : list chat_choice }.

(** The machine, the command line, and the outcome of every call that
    leaves the process.  An answer to a validated prompt is the input that
    passed the validation. *)
Record environment := mk_env {
  platform : js_string;                        (* [process.platform] *)
  arch : js_string;                            (* [process.arch] *)
  homedir : js_string;                         (* [homedir()] *)
  argv : list js_string;                       (* [process.argv.slice(2)] *)
  in_git_repository : bool;                    (* [existsSync(".git")] *)
  randomBytes16 : AES.block;                   (* [randomBytes(16)] *)
  execSync : js_string -> result js_string;
  create_completion : js_string -> result chat_completion;
  answer_action : result js_string;
  answer_apiToken : result js_string;
  answer_saveToken : result bool;
  answer_type : result js_string;
  answer_scope : result js_string;
  answer_customScope : result js_string;
  answer_message : result js_string;
  answer_customMessage : result js_string;
  answer_confirm : result bool
}.

(** ** [COMMIT_TYPES] and [class AICommitGenerator] *)

Module CommitType.
Record t := mk {
  type : js_string;
  description : js_string;
  emoji : js_string
}.
End CommitType.

Definition mk_commit_type := CommitType.mk.

Definition COMMIT_TYPES : list CommitType.t :=
  [ mk_commit_type (js "feat") (js "A new feature") (js "✨");
    mk_commit_type (js "fix") (js "A bug fix") (js "🐛");
    mk_commit_type (js "docs") (js "Documentation only changes") (js "📚");
    mk_commit_type (js "style")
      (js "Changes that do not affect the meaning of the code") (js "💎");
    mk_commit_type (js "refactor")
      (js "A code change that neither fixes a bug nor adds a feature")
      (js "♻️");
    mk_commit_type (js "perf")
      (js "A code change that improves performance") (js "⚡");
    mk_commit_type (js "test")
      (js "Adding missing tests or correcting existing tests") (js "🧪");
    mk_commit_type (js "build")
      (js "Changes that affect the build system or external dependencies")
      (js "🏗️");
    mk_commit_type (js "ci")
      (js "Changes to CI configuration files and scripts") (js "👷");
    mk_commit_type (js "chore")
      (js "Other changes that don't modify src or test files") (js "🔧");
    mk_commit_type (js "revert") (js "Reverts a previous commit") (js "⏪") ].

Module AICommitGenerator.

Local Open Scope prog_scope.

Record suggestions := mk_suggestions {
  suggestedTypes : value;
  suggestedScopes : value;
  commitMessages : value
}.

Definition strings (l : list js_string) : value := Array (map String l).

Definition fallback : suggestions :=
  mk_suggestions (strings [js "feat"; js "fix"; js "chore"])
                 (strings [])
                 (strings [js "update code"; js "improve functionality"]).

Section Generator.

Variable env : environment.

Definition tokenManager : EncryptedTokenManager.t :=
  EncryptedTokenManager.new (platform env) (arch env) (homedir env).

(** [inquirer.prompt] with one question. *)
Definition ask {A : Type} (name : js_string) (answer : result A) : M A :=
  emit (Ask name) >> lift answer.

Definition log (text : js_string) : M unit := emit (ConsoleLog text).

Definition exec (cmd : js_string) : M js_string :=
  emit (Exec cmd) >> lift (execSync env cmd).

(** The branch of [getOrRequestToken] taken when no token is stored. *)
Definition requestToken : M js_string :=
  log (js "🔑 No API token found. Please provide your OpenAI API token.") >>
  log (js "   You can get your token from: https://platform.openai.com/api-keys
") >>
  let* apiToken := ask (js "apiToken") (answer_apiToken env) in
  let token := trim apiToken in
  let* saveToken := ask (js "saveToken") (answer_saveToken env) in
  (if saveToken
   then EncryptedTokenManager.setToken tokenManager (randomBytes16 env) token
   else ret tt) >>
  ret token.

Definition getOrRequestToken : M js_string :=
  let* token := EncryptedTokenManager.getToken tokenManager in
  match token with
  | Some t => if str_truthy t then ret t else requestToken
  | None => requestToken
  end.

Definition setNewToken : M unit :=
  let* apiToken := ask (js "apiToken") (answer_apiToken env) in
  EncryptedTokenManager.setToken tokenManager (randomBytes16 env) (trim apiToken).

(** [token.substring(a, b)] for [0 <= a <= b]; [substring(a)] runs to the
    end, and a negative start counts as 0. *)
Definition substring (s : js_string) (a b : nat) : js_string :=
  firstn (b - a) (skipn a s).

Definition showTokenStatus : M unit :=
  let* hasToken := EncryptedTokenManager.hasToken tokenManager in
  log (js "
Token Status: "
       ++ (if hasToken then js "✅ Token stored" else js "❌ No token stored")) >>
  (if hasToken then
     let* token := EncryptedTokenManager.getToken tokenManager in
     match token with
     | Some token =>
         let maskedToken :=
           substring token 0 7 ++ js "..."
           ++ substring token (length token - 4) (length token) in
         log (js "Token: " ++ maskedToken)
     | None => ret tt
     end
   else ret tt) >>
  log (js "").

Definition showTokenManagementMenu : M unit :=
  let* action := ask (js "action") (answer_action env) in
  if str_eqb action (js "set") then setNewToken
  else if str_eqb action (js "clear")
  then EncryptedTokenManager.clearToken tokenManager
  else if str_eqb action (js "status") then showTokenStatus
  else ret tt.

Fixpoint join (sep : js_string) (l : list js_string) : js_string :=
  match l with
  | [] => []
  | [x] => x
  | x :: rest => x ++ sep ++ join sep rest
  end.

Definition quoted (s : string) : js_string := [34] ++ js s ++ [34].

(** The template of the request, around the diff. *)
Definition build_prompt (diff : js_string) : js_string :=
  js "
Analyze the following git diff and suggest:
1. Top 3 most appropriate conventional commit types from: "
  ++ join (js ", ") (map CommitType.type COMMIT_TYPES)
  ++ js "
2. Top 3 most relevant scopes (component/module names, keep them short)
3. 2 clear, concise commit messages (without type/scope prefix)

Git diff:
" ++ diff ++ js "

Respond in JSON format:
{
  " ++ quoted "types" ++ js ": [" ++ quoted "type1" ++ js ", "
  ++ quoted "type2" ++ js ", " ++ quoted "type3" ++ js "],
  " ++ quoted "scopes" ++ js ": [" ++ quoted "scope1" ++ js ", "
  ++ quoted "scope2" ++ js ", " ++ quoted "scope3" ++ js "],
  " ++ quoted "messages" ++ js ": [" ++ quoted "message1" ++ js ", "
  ++ quoted "message2" ++ js "]
}

Guidelines:
- Messages should be imperative mood, lowercase, no period
- Messages should be specific but concise
- Scopes should be short (1-2 words max)
- Focus on what changed and implementation details
- Message should explain the changes in a way that is easy to understand
- Should focus on the details of the changes
- your response should be parsed by JSON.parse
- do not specify code block type like '''json on response. Just give us plain json so it can be parsed by JSON.parse".

(** [response.choices[0]?.message?.content] *)
Definition first_content (response : chat_completion) : option js_string :=
  match choices response with
  | c :: _ => content (message c)
  | [] => None
  end.

Definition generateCommitSuggestions (diff : js_string) : M suggestions :=
  let* token := getOrRequestToken in
  (* this.openai = new OpenAI({ apiKey: token }) *)
  let prompt := build_prompt diff in
  catch
    (let* response :=
       emit (Request prompt) >> lift (create_completion env prompt) in
     match first_content response with
     | None | Some [] => throw (Error "No response from OpenAI")
     | Some content =>
         let* parsed := lift (JSON.parse content) in
         let* types := lift (get_prop parsed (js "types")) in
         let* scopes := lift (get_prop parsed (js "scopes")) in
         let* messages := lift (get_prop parsed (js "messages")) in
         ret (mk_suggestions (or_else types (Array []))
                             (or_else scopes (Array []))
                             (or_else messages (Array [])))
     end)
    (fun error =>
       emit (ConsoleError (js "❌ Failed to generate AI suggestions:") (Some error)) >>
       ret fallback).

Definition getGitDiff : M js_string :=
  catch
    (let* diff := exec (js "git diff --cached") in
     let* diff :=
       if negb (str_truthy (trim diff)) then exec (js "git diff")
       else ret diff in
     (if negb (str_truthy (trim diff)) then
        log (js "⚠️  No changes detected. Make sure you have staged changes or unstaged changes.") >>
        exit 0
      else ret tt) >>
     ret diff)
    (fun error =>
       emit (ConsoleError (js "❌ Failed to get git diff:") (Some error)) >>
       exit 1).

(** Whether [x] occurs in [s] as a substring. *)
Fixpoint is_prefix (p s : js_string) : bool :=
  match p, s with
  | [], _ => true
  | a :: p', b :: s' => (a =? b) && is_prefix p' s'
  | _ :: _, [] => false
  end.

Fixpoint str_includes (s x : js_string) : bool :=
  is_prefix x s || match s with [] => false | _ :: s' => str_includes s' x end.

(** [suggested.includes(x)] for a string [x], on whatever value the
    suggestions hold: membership in an array, containment in a string, and
    a TypeError on a value without that method. *)
Definition includes (suggested : value) (x : js_string) : result bool :=
  match suggested with
  | Array items =>
      Returns (existsb (fun v => match v with
                                 | String s => str_eqb s x
                                 | _ => false
                                 end) items)
  | String s => Returns (str_includes s x)
  | _ => Throws TypeError
  end.

(** [suggested.map(f)]: only an array has the method. *)
Definition map_items {A : Type} (suggested : value) (f : value -> A)
  : result (list A) :=
  match suggested with
  | Array items => Returns (map f items)
  | _ => Throws TypeError
  end.

Fixpoint each {A B : Type} (f : A -> result B) (l : list A) : result (list B) :=
  match l with
  | [] => Returns []
  | x :: rest =>
      (y <- f x ;; ys <- each f rest ;; Returns (y :: ys))%result
  end.

Definition selectCommitType (suggested : value) : M js_string :=
  let* marks :=
    lift (each (fun t => includes suggested (CommitType.type t)) COMMIT_TYPES) in
  ask (js "type") (answer_type env).

Definition selectScope (suggested : value) : M js_string :=
  let* choices := lift (map_items suggested (fun scope => scope)) in
  let* scope := ask (js "scope") (answer_scope env) in
  if str_eqb scope (js "custom")
  then ask (js "customScope") (answer_customScope env)
  else ret scope.

Definition selectCommitMessage (suggested : value) : M js_string :=
  let* choices := lift (map_items suggested (fun msg => msg)) in
  let* message := ask (js "message") (answer_message env) in
  if str_eqb message (js "custom")
  then ask (js "customMessage") (answer_customMessage env)
  else ret message.

Definition formatCommitMessage (type scope message : js_string) : js_string :=
  let commitType :=
    find (fun t => str_eqb (CommitType.type t) type) COMMIT_TYPES in
  let emoji :=
    match commitType with
    | Some t =>
        if str_truthy (CommitType.emoji t) then CommitType.emoji t else js ""
    | None => js ""
    end in
  let scopeStr := if str_truthy scope then js "(" ++ scope ++ js ")" else js "" in
  type ++ scopeStr ++ js ": " ++ emoji ++ js " " ++ message.

Definition commitChanges (message : js_string) : M unit :=
  catch
    (let* out := exec (js "git diff --cached --name-only") in
     let stagedFiles := trim out in
     (if negb (str_truthy stagedFiles) then
        log (js "ℹ️  Staging all changes...") >>
        exec (js "git add .") >> ret tt
      else ret tt) >>
     exec (js "git commit -m " ++ [34] ++ message ++ [34]) >>
     log (js "✅ Commit successful!"))
    (fun error =>
       emit (ConsoleError (js "❌ Failed to commit:") (Some error)) >>
       exit 1).

Definition generateCommit : M unit :=
  catch
    (log (js "📊 Analyzing changes...") >>
     let* diff := getGitDiff in
     log (js "🧠 Generating AI suggestions...") >>
     let* suggestions := generateCommitSuggestions diff in
     log (js "✨ Ready to create your commit!
") >>
     let* selectedType := selectCommitType (suggestedTypes suggestions) in
     let* selectedScope := selectScope (suggestedScopes suggestions) in
     let* selectedMessage := selectCommitMessage (commitMessages suggestions) in
     let finalMessage :=
       formatCommitMessage selectedType selectedScope selectedMessage in
     log (js "
📝 Commit message preview:") >>
     log (js "   " ++ finalMessage ++ js "
") >>
     let* confirm := ask (js "confirm") (answer_confirm env) in
     if confirm then commitChanges finalMessage
     else log (js "❌ Commit cancelled"))
    (fun error =>
       emit (ConsoleError (js "❌ An error occurred:") (Some error)) >>
       exit 1).

Definition showHelp : M unit :=
  log (js "🤖 AI Conventional Commit Generator
") >>
  log (js "Usage:") >>
  log (js "  ai-cz              Generate a commit (default)") >>
  log (js "  ai-cz --token      Manage OpenAI API token") >>
  log (js "  ai-cz --help       Show this help message") >>
  log (js "").

Definition args_include (x : js_string) : bool :=
  existsb (fun a => str_eqb a x) (argv env).

Definition run : M unit :=
  if args_include (js "--help") || args_include (js "-h") then showHelp
  else if args_include (js "--token") then
    log (js "🤖 AI Conventional Commit Generator - Token Management
") >>
    showTokenManagementMenu
  else
    log (js "🤖 AI Conventional Commit Generator
") >>
    (if negb (in_git_repository env) then
       emit (ConsoleError (js "❌ Not in a git repository") None) >>
       exit 1
     else ret tt) >>
    generateCommit.

(** The process from start to end, with its exit status: a rejection of
    [run] is printed and the process then ends as usual. *)
Definition main (w : world) : world * Z :=
  match run w with
  | (w', Returned _) => (w', 0)
  | (w', Threw e) => (mk_world (fs w') (trace w' ++ [ConsoleError [] (Some e)]), 0)
  | (w', Exited status) => (w', status)
  end.

End Generator.

End AICommitGenerator.

(** ** Vocabulary of the statements

    Names for what the lemmas and theorems below speak about. *)

(** Unicode scalar values: the code points that are not surrogates. *)
Definition is_scalar (c : Z) : Prop :=
  0 <= c < 55296 \/ 57344 <= c < 1114112.

(** The envelope [encrypt] builds, in one piece. *)
Definition envelope (ks : list AES.block) (iv : AES.block) (text : js_string)
  : js_string :=
  hex_encode (AES.bytes_of_block iv) ++ [58]
  ++ hex_encode (Crypto.cipher_output ks iv (utf8_encode text)).

(** The world after one more event. *)
Definition logged (w : world) (e : event) : world :=
  mk_world (fs w) (trace w ++ [e]).

Definition read_failure : js_string := js "❌ Failed to read stored token:".

Definition suggestion_failure : js_string :=
  js "❌ Failed to generate AI suggestions:".

Definition analyzing : js_string := js "📊 Analyzing changes...".

Definition no_changes : js_string :=
  js "⚠️  No changes detected. Make sure you have staged changes or unstaged changes.".

Definition banner : js_string := js "🤖 AI Conventional Commit Generator
".

(** The own property [key] of a parsed value that is neither null nor
    undefined. *)
Definition own (parsed : value) (key : js_string) : value :=
  match parsed with
  | Object props =>
      match lookup key props with
      | Some x => x
      | None => Undefined
      end
  | _ => Undefined
  end.

Definition suggestions_of (parsed : value) : AICommitGenerator.suggestions :=
  AICommitGenerator.mk_suggestions
    (or_else (own parsed (js "types")) (Array []))
    (or_else (own parsed (js "scopes")) (Array []))
    (or_else (own parsed (js "messages")) (Array [])).

(** A value is present when it is neither [undefined] nor [null]. *)
Definition present (v : value) : Prop := v <> Undefined /\ v <> Null.

(** The service call failed, or its response holds no content, or the
    content is not a JSON text. *)
Definition no_usable_response (env : environment) (diff : js_string) : Prop :=
  match create_completion env (AICommitGenerator.build_prompt diff) with
  | Throws _ => True
  | Returns response =>
      match AICommitGenerator.first_content response with
      | None | Some [] => True
      | Some content => exists e, JSON.parse content = Throws e
      end
  end.

(** How a field of the result relates to what the response holds under its
    key: the empty array when the key is missing, the value found otherwise,
    unless that value is falsy and gives way to the empty array. *)
Definition delivered (found : option value) (field : value) : Prop :=
  match found with
  | None => field = Array []
  | Some v => field = if truthy v then v else Array []
  end.

(** What C7, as amended, says of a run whose response parsed as [parsed]. *)
Definition fields_as_delivered (env : environment) (diff : js_string)
  (w : world) (parsed : value) : Prop :=
  exists (w' : world) (s : AICommitGenerator.suggestions),
    AICommitGenerator.generateCommitSuggestions env diff w = (w', Returned s) /\
    present (AICommitGenerator.suggestedTypes s) /\
    present (AICommitGenerator.suggestedScopes s) /\
    present (AICommitGenerator.commitMessages s) /\
    match parsed with
    | Object props =>
        delivered (lookup (js "types") props)
                  (AICommitGenerator.suggestedTypes s) /\
        delivered (lookup (js "scopes") props)
                  (AICommitGenerator.suggestedScopes s) /\
        delivered (lookup (js "messages") props)
                  (AICommitGenerator.commitMessages s) /\
        (forall l, lookup (js "types") props = Some (AICommitGenerator.strings l) ->
                   AICommitGenerator.suggestedTypes s = AICommitGenerator.strings l) /\
        (forall l, lookup (js "scopes") props = Some (AICommitGenerator.strings l) ->
                   AICommitGenerator.suggestedScopes s = AICommitGenerator.strings l) /\
        (forall l, lookup (js "messages") props = Some (AICommitGenerator.strings l) ->
                   AICommitGenerator.commitMessages s = AICommitGenerator.strings l)
    | Null | Undefined => s = AICommitGenerator.fallback
    | _ => s = AICommitGenerator.mk_suggestions (Array []) (Array []) (Array [])
    end.

(** *** Sample data for the closed statements *)

Definition sample_manager : EncryptedTokenManager.t :=
  EncryptedTokenManager.new (js "linux") (js "x64") (js "/home/user").

Definition sample_iv : AES.block :=
  AES.Blk (AES.Col x00 x01 x02 x03) (AES.Col x04 x05 x06 x07)
          (AES.Col x08 x09 x0a x0b) (AES.Col x0c x0d x0e x0f).

(** No configuration directory yet, on a disk that can be written. *)
Definition empty_world : world :=
  mk_world (mk_fs false Missing false None) [].

(** The world whose token file holds the text [e]. *)
Definition world_with_token_file (e : js_string) : world :=
  mk_world (mk_fs true (Regular (utf8_encode e)) false None) [].

(** A machine whose user types the token "sk-abc" and declines to save it,
    with a given service and a given outcome of every command. *)
Definition sample_environment
  (service : js_string -> result chat_completion)
  (exec : js_string -> result js_string) : environment :=
  mk_env (js "linux") (js "x64") (js "/home/user") [] true sample_iv
         exec service
         (Returns (js "back")) (Returns (js "sk-abc")) (Returns false)
         (Returns (js "feat")) (Returns (js "")) (Returns (js "core"))
         (Returns (js "update code")) (Returns (js "say more"))
         (Returns true).

(** A JSON text written with ' where the text has a double quote. *)
Definition json_text (s : string) : js_string :=
  map (fun u => if u =? 39 then 34 else u) (js s).

Definition one_choice (text : js_string) : chat_completion :=
  mk_completion [mk_choice (mk_message (Some text))].

Definition sample_diff : js_string := js "diff --git a/README.md b/README.md".

(** ** More of the program: validators, the type menu, the token display *)

(** What a [validate] callback of a prompt returns: [true], or the message
    shown to the user, who is then asked again. *)
Inductive validation : Type :=
| Valid
| Invalid (message : js_string).

(** The validator of the "apiToken" prompt, in [getOrRequestToken] and in
    [setNewToken] alike. *)
Definition validate_apiToken (input : js_string) : validation :=
  if negb (str_truthy (trim input))
  then Invalid (js "API token cannot be empty")
  else if negb (AICommitGenerator.is_prefix (js "sk-") input)
  then Invalid (js "API token should start with 'sk-'")
  else Valid.

(** An entry of the list prompt of [selectCommitType]. *)
Record type_choice := mk_type_choice {
  choice_name : js_string;
  choice_value : js_string;
  choice_short : js_string
}.

Inductive menu_item : Type :=
| Item (c : type_choice)
| Separator.                       (* [new inquirer.Separator()] *)

Fixpoint filter_by {A : Type} (f : A -> result bool) (l : list A)
  : result (list A) :=
  match l with
  | [] => Returns []
  | x :: rest =>
      (keep <- f x ;; kept <- filter_by f rest ;;
       Returns (if keep then x :: kept else kept))%result
  end.

(** The [choices] that [selectCommitType] hands to the prompt. *)
Definition commitTypeChoices (suggested : value) : result (list menu_item) :=
  (choices <-
     AICommitGenerator.each
       (fun t =>
          marked <- AICommitGenerator.includes suggested (CommitType.type t) ;;
          Returns
            (mk_type_choice
               (CommitType.emoji t ++ js " " ++ CommitType.type t ++ js ": "
                ++ CommitType.description t
                ++ (if marked then js " (suggested)" else js ""))
               (CommitType.type t) (CommitType.type t)))
       COMMIT_TYPES ;;
   suggestedChoices <-
     filter_by (fun c => AICommitGenerator.includes suggested (choice_value c))
               choices ;;
   otherChoices <-
     filter_by (fun c =>
                  found <- AICommitGenerator.includes suggested (choice_value c) ;;
                  Returns (negb found))
               choices ;;
   Returns (map Item suggestedChoices ++ [Separator] ++ map Item otherChoices)
  )%result.

Definition item_values (l : list menu_item) : list js_string :=
  flat_map (fun i => match i with Item c => [choice_value c] | Separator => [] end) l.

(** The display form of the token in [showTokenStatus]. *)
Definition maskedToken (token : js_string) : js_string :=
  AICommitGenerator.substring token 0 7 ++ js "..."
  ++ AICommitGenerator.substring token (length token - 4) (length token).

(** *** A run and what it may do

    [runs m E Q T S]: from any world, [m] only adds events to the trace, and
    each of them satisfies [E]; a returned value satisfies [Q], a thrown
    error [T], an exit status [S]. *)

Definition runs {A : Type} (m : M A) (E : event -> Prop)
  (Q : A -> Prop) (T : exn -> Prop) (S : Z -> Prop) : Prop :=
  forall (w w' : world) (r : ending A),
    m w = (w', r) ->
    (exists evs, trace w' = trace w ++ evs /\ Forall E evs) /\
    match r with
    | Returned a => Q a
    | Threw e => T e
    | Exited n => S n
    end.

(** Events whose command lines, as handed to [execSync], all satisfy [C]. *)
Definition commands (C : js_string -> Prop) (ev : event) : Prop :=
  match ev with
  | Exec cmd => C cmd
  | _ => True
  end.

(** Lines on the console. *)
Definition console (ev : event) : Prop :=
  match ev with
  | ConsoleLog _ | ConsoleError _ _ => True
  | _ => False
  end.

(** Events that stay on the machine: no command, no request. *)
Definition stays_local (ev : event) : Prop :=
  match ev with
  | Exec _ | Request _ => False
  | _ => True
  end.

Definition anything {A : Type} (_ : A) : Prop := True.
Definition nothing {A : Type} (_ : A) : Prop := False.
Definition zero_or_one (n : Z) : Prop := n = 0 \/ n = 1.

(** The answer of a list prompt with a "custom" entry, followed when that
    entry is chosen by the answer of the input prompt. *)
Definition chosen (first custom : result js_string) : option js_string :=
  match first with
  | Returns x =>
      if str_eqb x (js "custom")
      then match custom with Returns y => Some y | Throws _ => None end
      else Some x
  | Throws _ => None
  end.

(** The commit message that the answers of the user select. *)
Definition final_message (env : environment) : option js_string :=
  match answer_type env,
        chosen (answer_scope env) (answer_customScope env),
        chosen (answer_message env) (answer_customMessage env) with
  | Returns type, Some scope, Some message =>
      Some (AICommitGenerator.formatCommitMessage type scope message)
  | _, _, _ => None
  end.

(** The line of the commit: the message stands between double quotes as it
    is, nothing in it is escaped for the shell. *)
Definition commit_command (message : js_string) : js_string :=
  js "git commit -m " ++ [34] ++ message ++ [34].

(** The lines that read the repository, and those of a commit. *)
Definition reads_repository (cmd : js_string) : Prop :=
  cmd = js "git diff --cached" \/ cmd = js "git diff".

Definition commits (message : js_string) (cmd : js_string) : Prop :=
  cmd = js "git diff --cached --name-only" \/ cmd = js "git add ."
  \/ cmd = commit_command message.

(** The lines that [generateCommit] may hand to [execSync] on a machine:
    the two diffs, and, once the user has said yes, the lines of the commit
    of the message that the answers select. *)
Definition allowed_command (env : environment) (cmd : js_string) : Prop :=
  reads_repository cmd
  \/ (answer_confirm env = Returns true
      /\ exists message, final_message env = Some message
                         /\ commits message cmd).

(** The calls of the client of the service, and the questions. *)
Definition count_requests (evs : list event) : nat :=
  length (filter (fun ev => match ev with Request _ => true | _ => false end) evs).

Definition count_asks (evs : list event) : nat :=
  length (filter (fun ev => match ev with Ask _ => true | _ => false end) evs).

(** The disk takes the whole of [data] for the token file. *)
Definition has_room (f : file_system) (data : js_string) : Prop :=
  match capacity f with
  | Some n => (length (utf8_encode data) <= n)%nat
  | None => True
  end.

(** The lines of [setToken]. *)
Definition saved : js_string := js "✅ API token saved securely".
Definition save_failure : js_string := js "❌ Failed to save token:".
Definition clear_failure : js_string := js "❌ Failed to clear token:".

(** The commands of the workflow. *)
Definition staged_diff : js_string := js "git diff --cached".
Definition unstaged_diff : js_string := js "git diff".
Definition staged_names : js_string := js "git diff --cached --name-only".
Definition stage_all : js_string := js "git add .".

Definition command_of (ev : event) : js_string :=
  match ev with Exec cmd => cmd | _ => [] end.

(** Suggestions that the three selectors can work with: [includes] is
    called on the types, [map] on the scopes and on the messages. *)
Definition is_array (v : value) : bool :=
  match v with Array _ => true | _ => false end.

Definition has_includes (v : value) : bool :=
  match v with Array _ | String _ => true | _ => false end.

Definition selectable (s : AICommitGenerator.suggestions) : bool :=
  has_includes (AICommitGenerator.suggestedTypes s)
  && is_array (AICommitGenerator.suggestedScopes s)
  && is_array (AICommitGenerator.commitMessages s).

Definition generating : js_string := js "🧠 Generating AI suggestions...".
Definition workflow_failure : js_string := js "❌ An error occurred:".

(** A start with a flag for the help or for the token menu, or outside a
    repository. *)
Definition without_commit (env : environment) : bool :=
  AICommitGenerator.args_include env (js "--help")
  || AICommitGenerator.args_include env (js "-h")
  || AICommitGenerator.args_include env (js "--token")
  || negb (in_git_repository env).

(** *** More sample data *)

Definition other_iv : AES.block :=
  AES.Blk (AES.Col xff x01 x02 x03) (AES.Col x04 x05 x06 x07)
          (AES.Col x08 x09 x0a x0b) (AES.Col x0c x0d x0e x0f).

(** A machine like [sample_environment] whose user agrees to save the token
    typed as [input]. *)
Definition saving_environment (input : js_string) : environment :=
  mk_env (js "linux") (js "x64") (js "/home/user") [] true sample_iv
         (fun _ => Returns []) (fun _ => Throws (ServiceError 401))
         (Returns (js "back")) (Returns input) (Returns true)
         (Returns (js "feat")) (Returns (js "")) (Returns (js "core"))
         (Returns (js "update code")) (Returns (js "say more"))
         (Returns true).

(** A machine like [sample_environment] started with the flag of the
    token menu, outside a repository, whose user picks [action]. *)
Definition menu_environment (action : js_string) : environment :=
  mk_env (js "linux") (js "x64") (js "/home/user") [js "--token"] false
         sample_iv
         (fun _ => Returns []) (fun _ => Throws (ServiceError 401))
         (Returns action) (Returns (js "sk-abc")) (Returns true)
         (Returns (js "feat")) (Returns (js "")) (Returns (js "core"))
         (Returns (js "update code")) (Returns (js "say more"))
         (Returns true).

(** The envelope that [sample_manager] makes of [text] with [iv]. *)
Definition sample_envelope (iv : AES.block) (text : js_string) : js_string :=
  match EncryptedTokenManager.encrypt sample_manager iv text with
  | Returns e => e
  | Throws _ => []
  end.

(* ====================================================================== *)
(** * Part II.  The runtime *)
(* ====================================================================== *)

(** ** The runtime on published values

    The model of the runtime computes; these are the values of the
    standards, and one that the `openssl enc` tool prints. *)

(** FIPS 180-4: the digests of "abc" and of the empty message. *)
Example sha256_abc :
  hex_encode (SHA256.sha256 (utf8_encode (js "abc")))
  = js "ba7816bf8f01cfea414140de5dae2223b00361a396177a9cb410ff61f20015ad".
Proof. vm_compute. reflexivity. Qed.

Example sha256_empty :
  hex_encode (SHA256.sha256 [])
  = js "e3b0c44298fc1c149afbf4c8996fb92427ae41e4649b934ca495991b7852b855".
Proof. vm_compute. reflexivity. Qed.

(** FIPS 197, appendix C.3: AES-256 on one block. *)
Example aes256_fips197 :
  option_map
    (fun ks =>
       hex_encode
         (AES.of_blocks
            (map (AES.cipher ks)
               (AES.to_blocks (hex_decode (js "00112233445566778899aabbccddeeff"))))))
    (AES.key_expansion
       (hex_decode
          (js "000102030405060708090a0b0c0d0e0f101112131415161718191a1b1c1d1e1f")))
  = Some (js "8ea2b7ca516745bfeafc49904b496089").
Proof. vm_compute. reflexivity. Qed.

(** AES-256-CBC with PKCS#7 padding over two blocks and a non-ASCII text,
    under the key of the sample machine. *)
Example aes256_cbc_envelope :
  EncryptedTokenManager.encrypt sample_manager sample_iv
    (js "sk-test ✨ token 0123456789")
  = Returns (js "000102030405060708090a0b0c0d0e0f:949f838375006d34f1ebca870625e68c41e1e810b6aa50346bf63621c526c24b").
Proof. vm_compute. reflexivity. Qed.

(** WHATWG decoding of ill-formed bytes: an encoded surrogate gives three
    U+FFFD, a truncated sequence one. *)
Example utf8_decode_ill_formed :
  utf8_decode [xed; xa0; x80; x41; xf0; x9f] = [65533; 65533; 65533; 65; 65533].
Proof. vm_compute. reflexivity. Qed.

(** [Buffer.from("1ag123", "hex")] and [Buffer.from("1a7", "hex")] are
    both the one byte 1a. *)
Example hex_decode_stops :
  hex_decode (js "1ag123") = [x1a] /\ hex_decode (js "1a7") = [x1a].
Proof. vm_compute. split; reflexivity. Qed.

(** [Buffer.from("\u0130\u0139", "hex")] is the one byte 09, as
    [Buffer.from("09", "hex")] is, and so is what is decoded of U+0166
    U+0146 ("fF" by the low bytes) the byte ff. *)
Example hex_decode_low_byte :
  hex_decode [304; 313] = [x09] /\ hex_decode (js "09") = [x09]
  /\ hex_decode [358; 326] = [xff].
Proof. vm_compute. repeat split; reflexivity. Qed.

(** ** Bytes *)

Lemma z2b_b2z (b : byte) : z2b (b2z b) = b.
Proof. destruct b; reflexivity. Qed.

Lemma b2z_range (b : byte) : 0 <= b2z b < 256.
Proof.
  unfold b2z. pose proof (Byte.to_N_bounded b) as H.
  split; [apply N2Z.is_nonneg | ].
  apply N2Z.inj_le in H. simpl in H. lia.
Qed.

Lemma b2z_z2b (z : Z) : 0 <= z < 256 -> b2z (z2b z) = z.
Proof.
  intros Hz. unfold z2b, b2z.
  rewrite Z.mod_small by lia.
  destruct (Byte.of_N (Z.to_N z)) as [b|] eqn:E.
  - apply Byte.to_of_N in E. rewrite E. lia.
  - apply Byte.of_N_None_iff in E. lia.
Qed.

Lemma b2z_inj (a b : byte) : b2z a = b2z b -> a = b.
Proof. intros H. rewrite <- (z2b_b2z a), <- (z2b_b2z b), H. reflexivity. Qed.

Lemma all_bytes_nth (b : byte) : nth (Z.to_nat (b2z b)) AES.all_bytes x00 = b.
Proof. destruct b; reflexivity. Qed.

(** A boolean property checked on the 256 bytes holds of every byte. *)
Lemma byte_forall (P : byte -> bool) :
  forallb P AES.all_bytes = true -> forall b, P b = true.
Proof.
  intros H b. rewrite forallb_forall in H. apply H.
  rewrite <- (all_bytes_nth b) at 1. apply nth_In.
  pose proof (b2z_range b). change (length AES.all_bytes) with 256%nat. lia.
Qed.

Lemma byte_forall2 (P : byte -> byte -> bool) :
  forallb (fun a => forallb (P a) AES.all_bytes) AES.all_bytes = true ->
  forall a b, P a b = true.
Proof.
  intros H a b.
  apply (byte_forall (P a)). apply (byte_forall _ H).
Qed.

Lemma b2z_bxor (a b : byte) : b2z (bxor a b) = Z.lxor (b2z a) (b2z b).
Proof.
  apply Z.eqb_eq.
  apply (byte_forall2 (fun a b => b2z (bxor a b) =? Z.lxor (b2z a) (b2z b))).
  vm_compute. reflexivity.
Qed.

Lemma bxor_comm (a b : byte) : bxor a b = bxor b a.
Proof. unfold bxor. rewrite Z.lxor_comm. reflexivity. Qed.

Lemma bxor_assoc (a b c : byte) : bxor a (bxor b c) = bxor (bxor a b) c.
Proof.
  apply b2z_inj. rewrite !b2z_bxor. symmetry. apply Z.lxor_assoc.
Qed.

Lemma bxor_nilpotent (a : byte) : bxor a a = x00.
Proof. unfold bxor. rewrite Z.lxor_nilpotent. reflexivity. Qed.

Lemma bxor_0_r (a : byte) : bxor a x00 = a.
Proof.
  unfold bxor. change (b2z x00) with 0. rewrite Z.lxor_0_r. apply z2b_b2z.
Qed.

Lemma bxor_0_l (a : byte) : bxor x00 a = a.
Proof. rewrite bxor_comm. apply bxor_0_r. Qed.

Lemma bxor_cancel_r (a k : byte) : bxor (bxor a k) k = a.
Proof. rewrite <- bxor_assoc, bxor_nilpotent. apply bxor_0_r. Qed.


(** A goal [l = r] between bytes, where [x] is the only byte variable, is
    settled by running both sides on the 256 bytes. *)
Ltac by_bytes x :=
  apply Byte.byte_dec_bl;
  match goal with
  | |- ?t = true =>
      match eval pattern x in t with
      | ?f _ => apply (byte_forall f)
      end
  end;
  vm_compute; reflexivity.

(** ** AES: the inverse cipher undoes the cipher *)

Module AESFacts.

Import AES.

Lemma inv_sbox_sbox (b : byte) : inv_sbox (sbox b) = b.
Proof. by_bytes b. Qed.

Lemma bxor_swap (p q a b : byte) :
  bxor (bxor p q) (bxor a b) = bxor (bxor p a) (bxor q b).
Proof.
  apply b2z_inj. rewrite !b2z_bxor.
  apply Z.bits_inj'. intros n _. rewrite !Z.lxor_spec. btauto.
Qed.

Lemma xtime_xor (a b : byte) : xtime (bxor a b) = bxor (xtime a) (xtime b).
Proof.
  apply Byte.byte_dec_bl.
  apply (byte_forall2
           (fun a b => Byte.eqb (xtime (bxor a b)) (bxor (xtime a) (xtime b)))).
  vm_compute. reflexivity.
Qed.

(** Multiplication by a constant is additive. *)
Lemma gmul_loop_xor (n : nat) (k : Z) (a b p q : byte) :
  gmul_loop n (bxor a b) k (bxor p q)
  = bxor (gmul_loop n a k p) (gmul_loop n b k q).
Proof.
  revert k a b p q. induction n as [| n IH]; intros k a b p q; [reflexivity | ].
  simpl. rewrite xtime_xor.
  destruct (Z.odd k).
  - rewrite (bxor_swap p q a b). apply IH.
  - apply IH.
Qed.

Lemma gmul_xor (k : Z) (a b : byte) :
  gmul k (bxor a b) = bxor (gmul k a) (gmul k b).
Proof. unfold gmul. rewrite <- gmul_loop_xor. reflexivity. Qed.

(** Sixteen bytes summed by rows or by columns. *)
Lemma xor4_transpose (a1 a2 a3 a4 b1 b2 b3 b4 c1 c2 c3 c4 d1 d2 d3 d4 : byte) :
  xor4 (xor4 a1 b1 c1 d1) (xor4 a2 b2 c2 d2)
       (xor4 a3 b3 c3 d3) (xor4 a4 b4 c4 d4)
  = xor4 (xor4 a1 a2 a3 a4) (xor4 b1 b2 b3 b4)
         (xor4 c1 c2 c3 c4) (xor4 d1 d2 d3 d4).
Proof.
  apply b2z_inj. unfold xor4. rewrite !b2z_bxor.
  apply Z.bits_inj'. intros n _. rewrite !Z.lxor_spec. btauto.
Qed.

Lemma xor4_0 (a : byte) : xor4 a x00 x00 x00 = a.
Proof. unfold xor4. rewrite !bxor_0_r. reflexivity. Qed.

Lemma xor4_1 (a : byte) : xor4 x00 a x00 x00 = a.
Proof. unfold xor4. rewrite bxor_0_l, !bxor_0_r. reflexivity. Qed.

Lemma xor4_2 (a : byte) : xor4 x00 x00 a x00 = a.
Proof. unfold xor4. rewrite !bxor_0_l, bxor_0_r. reflexivity. Qed.

Lemma xor4_3 (a : byte) : xor4 x00 x00 x00 a = a.
Proof. unfold xor4. rewrite !bxor_0_l. reflexivity. Qed.

#[local] Opaque gmul bxor.

Lemma gmul_xor4 (k : Z) (a b c d : byte) :
  gmul k (xor4 a b c d) = xor4 (gmul k a) (gmul k b) (gmul k c) (gmul k d).
Proof. unfold xor4. rewrite !gmul_xor. reflexivity. Qed.

#[local] Opaque xor4.

(** In the product of the two circulant matrices, the sum of the terms in
    one variable [x] is [v]: [x] itself on the diagonal, zero elsewhere. *)
Ltac coefficient x v :=
  match goal with
  | |- context [xor4 ?p ?q ?r ?s] =>
      lazymatch p with
      | xor4 _ _ _ _ => fail
      | context [x] =>
          replace (xor4 p q r s) with v by (symmetry; by_bytes x)
      end
  end.

Lemma inv_mix_column_mix_column (c : column) :
  inv_mix_column (mix_column c) = c.
Proof.
  destruct c as [a b d e]. unfold mix_column, inv_mix_column.
  rewrite !gmul_xor4.
  f_equal; rewrite xor4_transpose.
  - coefficient a a. coefficient b x00. coefficient d x00. coefficient e x00.
    apply xor4_0.
  - coefficient a x00. coefficient b b. coefficient d x00. coefficient e x00.
    apply xor4_1.
  - coefficient a x00. coefficient b x00. coefficient d d. coefficient e x00.
    apply xor4_2.
  - coefficient a x00. coefficient b x00. coefficient d x00. coefficient e e.
    apply xor4_3.
Qed.

#[local] Transparent gmul bxor xor4.

Lemma inv_mix_columns_mix_columns (s : block) :
  inv_mix_columns (mix_columns s) = s.
Proof.
  destruct s. unfold inv_mix_columns, mix_columns, blk_map.
  cbn [c0 c1 c2 c3].
  rewrite !inv_mix_column_mix_column. reflexivity.
Qed.

Lemma inv_shift_rows_shift_rows (s : block) : inv_shift_rows (shift_rows s) = s.
Proof. destruct s as [[] [] [] []]. reflexivity. Qed.

Lemma inv_sub_bytes_sub_bytes (s : block) : inv_sub_bytes (sub_bytes s) = s.
Proof.
  destruct s as [[] [] [] []].
  unfold inv_sub_bytes, sub_bytes, blk_map, col_map.
  cbn [c0 c1 c2 c3 r0 r1 r2 r3].
  rewrite !inv_sbox_sbox. reflexivity.
Qed.

Lemma col_xor_cancel (x k : column) : col_xor (col_xor x k) k = x.
Proof.
  destruct x, k. unfold col_xor. cbn [r0 r1 r2 r3].
  rewrite !bxor_cancel_r. reflexivity.
Qed.

Lemma blk_xor_cancel (x k : block) : blk_xor (blk_xor x k) k = x.
Proof.
  destruct x, k. unfold blk_xor. cbn [c0 c1 c2 c3].
  rewrite !col_xor_cancel. reflexivity.
Qed.

Lemma add_round_key_involutive (k s : block) :
  add_round_key k (add_round_key k s) = s.
Proof. apply blk_xor_cancel. Qed.

Lemma inv_round_round (k s : block) : inv_round k (round k s) = s.
Proof.
  unfold inv_round, round.
  rewrite add_round_key_involutive, inv_mix_columns_mix_columns,
    inv_shift_rows_shift_rows, inv_sub_bytes_sub_bytes.
  reflexivity.
Qed.

Lemma inv_final_round_final_round (k s : block) :
  inv_final_round k (final_round k s) = s.
Proof.
  unfold inv_final_round, final_round.
  rewrite add_round_key_involutive, inv_shift_rows_shift_rows,
    inv_sub_bytes_sub_bytes.
  reflexivity.
Qed.

Lemma inv_rounds_rounds (ks : list block) (s : block) :
  inv_rounds ks (rounds ks s) = s.
Proof.
  revert s. induction ks as [| k ks IH]; intros s; [reflexivity | ].
  destruct ks as [| k' ks'].
  - apply inv_final_round_final_round.
  - change (rounds (k :: k' :: ks') s) with (rounds (k' :: ks') (round k s)).
    change (inv_rounds (k :: k' :: ks') ?x)
      with (inv_round k (inv_rounds (k' :: ks') x)).
    rewrite IH. apply inv_round_round.
Qed.

(** Whatever the round keys, decryption of a block undoes its encryption. *)
Lemma inv_cipher_cipher (ks : list block) (s : block) :
  inv_cipher ks (cipher ks s) = s.
Proof.
  destruct ks as [| k ks]; [reflexivity | ].
  unfold inv_cipher, cipher.
  rewrite inv_rounds_rounds. apply add_round_key_involutive.
Qed.

End AESFacts.

(** ** Blocks, CBC chaining and padding *)

Module CryptoFacts.

Import AES Crypto.

Lemma to_blocks_app (b : block) (l : list byte) :
  to_blocks (bytes_of_block b ++ l) = b :: to_blocks l.
Proof. destruct b as [[] [] [] []]. reflexivity. Qed.

Lemma to_blocks_of_blocks (bl : list block) : to_blocks (of_blocks bl) = bl.
Proof.
  induction bl as [| b bl IH]; [reflexivity | ].
  change (of_blocks (b :: bl)) with (bytes_of_block b ++ of_blocks bl).
  rewrite to_blocks_app. f_equal. exact IH.
Qed.

Lemma bytes_of_block_length (b : block) : length (bytes_of_block b) = 16%nat.
Proof. reflexivity. Qed.

Lemma of_blocks_length (bl : list block) :
  length (of_blocks bl) = (16 * length bl)%nat.
Proof.
  induction bl as [| b bl IH]; [reflexivity | ].
  change (of_blocks (b :: bl)) with (bytes_of_block b ++ of_blocks bl).
  rewrite length_app, IH, bytes_of_block_length. cbn [length]. lia.
Qed.

(** A sequence of [16 * n] bytes is the concatenation of its blocks. *)
Lemma of_blocks_to_blocks_n (n : nat) (l : list byte) :
  length l = (16 * n)%nat -> of_blocks (to_blocks l) = l /\ length (to_blocks l) = n.
Proof.
  revert l. induction n as [| n IH]; intros l H.
  - destruct l; [split; reflexivity | simpl in H; lia].
  - do 16 (destruct l as [| ? l]; [simpl in H; lia | ]).
    destruct (IH l) as [IH1 IH2]; [simpl in H; lia | ].
    cbn [to_blocks]. split.
    + unfold of_blocks in *. cbn [flat_map]. rewrite IH1. reflexivity.
    + cbn [length]. rewrite IH2. reflexivity.
Qed.

Lemma of_blocks_to_blocks (l : list byte) :
  (length l mod 16 = 0)%nat -> of_blocks (to_blocks l) = l.
Proof.
  intros H. apply (of_blocks_to_blocks_n (length l / 16)).
  pose proof (Nat.div_mod_eq (length l) 16). lia.
Qed.

Lemma to_blocks_length (l : list byte) :
  (length l mod 16 = 0)%nat -> length (to_blocks l) = (length l / 16)%nat.
Proof.
  intros H. apply (of_blocks_to_blocks_n (length l / 16)).
  pose proof (Nat.div_mod_eq (length l) 16). lia.
Qed.

(** A 16-byte sequence is one block. *)
Lemma to_blocks_bytes_of_block (b : block) : to_blocks (bytes_of_block b) = [b].
Proof. destruct b as [[] [] [] []]. reflexivity. Qed.

Lemma cbc_encrypt_length (ks : list block) (iv : block) (ps : list block) :
  length (cbc_encrypt ks iv ps) = length ps.
Proof.
  revert iv. induction ps as [| p ps IH]; intros iv; [reflexivity | ].
  simpl. rewrite IH. reflexivity.
Qed.

(** CBC decryption undoes CBC encryption, with any round keys and IV. *)
Lemma cbc_decrypt_encrypt (ks : list block) (iv : block) (ps : list block) :
  cbc_decrypt ks iv (cbc_encrypt ks iv ps) = ps.
Proof.
  revert iv. induction ps as [| p ps IH]; intros iv; [reflexivity | ].
  simpl. rewrite AESFacts.inv_cipher_cipher, AESFacts.blk_xor_cancel, IH.
  reflexivity.
Qed.

Lemma pad_amount (m : list byte) :
  (1 <= 16 - length m mod 16 <= 16)%nat.
Proof. pose proof (Nat.mod_upper_bound (length m) 16). lia. Qed.

Lemma pkcs7_pad_length (m : list byte) :
  length (pkcs7_pad m) = (16 * (length m / 16 + 1))%nat.
Proof.
  unfold pkcs7_pad. rewrite length_app, repeat_length.
  pose proof (Nat.div_mod_eq (length m) 16).
  pose proof (Nat.mod_upper_bound (length m) 16). lia.
Qed.

Lemma pkcs7_pad_blocks (m : list byte) : (length (pkcs7_pad m) mod 16 = 0)%nat.
Proof.
  rewrite pkcs7_pad_length, Nat.mul_comm. apply Nat.Div0.mod_mul.
Qed.

Lemma last_app_repeat (m : list byte) (x d : byte) (n : nat) :
  (1 <= n)%nat -> last (m ++ repeat x n) d = x.
Proof.
  intros Hn. destruct n as [| n]; [lia | ].
  replace (S n) with (n + 1)%nat by lia.
  rewrite repeat_app, app_assoc. simpl. apply last_last.
Qed.

Lemma forallb_repeat (x : byte) (n : nat) :
  forallb (fun b => Byte.eqb b x) (repeat x n) = true.
Proof.
  induction n as [| n IH]; [reflexivity | ].
  simpl. rewrite IH, Byte.byte_dec_lb; reflexivity.
Qed.

(** Unpadding undoes padding. *)
Lemma pkcs7_unpad_pad (m : list byte) : pkcs7_unpad (pkcs7_pad m) = Some m.
Proof.
  pose proof (pad_amount m) as Hn.
  unfold pkcs7_unpad, pkcs7_pad.
  set (n := (16 - length m mod 16)%nat) in *.
  rewrite last_app_repeat by lia.
  rewrite b2z_z2b by lia. rewrite Nat2Z.id.
  rewrite length_app, repeat_length.
  replace (length m + n - n)%nat with (length m) by lia.
  rewrite skipn_app, Nat.sub_diag, skipn_all. simpl skipn.
  rewrite firstn_app, Nat.sub_diag, firstn_all. simpl firstn.
  rewrite app_nil_r, app_nil_l, forallb_repeat.
  replace ((1 <=? n)%nat && (n <=? 16)%nat && (n <=? length m + n)%nat)
    with true.
  - reflexivity.
  - symmetry. rewrite !andb_true_iff, !Nat.leb_le. lia.
Qed.

(** A padded message is never empty. *)
Lemma pkcs7_pad_nonempty (m : list byte) : (16 <= length (pkcs7_pad m))%nat.
Proof. rewrite pkcs7_pad_length. lia. Qed.

End CryptoFacts.

(** ** Strings: hexadecimal digits and [split] *)

Module StringFacts.

Lemma unhex_hex_digit (n : Z) : 0 <= n < 16 -> unhex (hex_digit n) = Some n.
Proof.
  intros Hn. unfold hex_digit, unhex.
  destruct (n <? 10) eqn:E.
  - apply Z.ltb_lt in E.
    replace ((48 <=? 48 + n) && (48 + n <=? 57)) with true
      by (symmetry; rewrite andb_true_iff, !Z.leb_le; lia).
    f_equal. lia.
  - apply Z.ltb_ge in E.
    replace ((48 <=? 87 + n) && (87 + n <=? 57)) with false
      by (symmetry; rewrite andb_false_iff, Z.leb_gt; lia).
    replace ((97 <=? 87 + n) && (87 + n <=? 102)) with true
      by (symmetry; rewrite andb_true_iff, !Z.leb_le; lia).
    f_equal. lia.
Qed.

Lemma hex_digit_range (n : Z) :
  0 <= n < 16 -> 48 <= hex_digit n <= 57 \/ 97 <= hex_digit n <= 102.
Proof.
  intros Hn. unfold hex_digit. destruct (n <? 10) eqn:E.
  - apply Z.ltb_lt in E. lia.
  - apply Z.ltb_ge in E. lia.
Qed.

Lemma nibbles (b : byte) : 0 <= b2z b / 16 < 16 /\ 0 <= b2z b mod 16 < 16.
Proof.
  pose proof (b2z_range b). split.
  - split; [apply Z.div_pos; lia | apply Z.div_lt_upper_bound; lia].
  - apply Z.mod_pos_bound. lia.
Qed.

Lemma low_byte_small (u : Z) : 0 <= u < 256 -> low_byte u = u.
Proof.
  intros H. unfold low_byte. change 255 with (Z.ones 8).
  rewrite Z.land_ones by lia. apply Z.mod_small. exact H.
Qed.

Lemma low_byte_hex_digit (n : Z) :
  0 <= n < 16 -> low_byte (hex_digit n) = hex_digit n.
Proof.
  intros H. apply low_byte_small.
  pose proof (hex_digit_range n H). lia.
Qed.

Lemma hex_decode_of_byte (b : byte) (s : js_string) :
  hex_decode (hex_of_byte b ++ s) = b :: hex_decode s.
Proof.
  destruct (nibbles b) as [Hh Hl].
  unfold hex_of_byte. cbn [app hex_decode].
  rewrite !low_byte_hex_digit by assumption.
  rewrite !unhex_hex_digit by assumption.
  rewrite <- Z.div_mod by lia. rewrite z2b_b2z. reflexivity.
Qed.

(** Decoding reads back the bytes of an encoding, and goes on after it. *)
Lemma hex_decode_encode_app (bs : list byte) (s : js_string) :
  hex_decode (hex_encode bs ++ s) = bs ++ hex_decode s.
Proof.
  induction bs as [| b bs IH]; [reflexivity | ].
  cbn [hex_encode]. rewrite <- app_assoc, hex_decode_of_byte, IH.
  reflexivity.
Qed.

Lemma hex_decode_encode (bs : list byte) : hex_decode (hex_encode bs) = bs.
Proof.
  rewrite <- (app_nil_r (hex_encode bs)), hex_decode_encode_app.
  apply app_nil_r.
Qed.

Lemma hex_encode_app (a b : list byte) :
  hex_encode (a ++ b) = hex_encode a ++ hex_encode b.
Proof.
  induction a as [| x a IH]; [reflexivity | ].
  cbn [app hex_encode]. rewrite IH, app_assoc. reflexivity.
Qed.

Lemma hex_encode_length (bs : list byte) :
  length (hex_encode bs) = (2 * length bs)%nat.
Proof.
  induction bs as [| b bs IH]; [reflexivity | ].
  cbn [hex_encode hex_of_byte app length]. rewrite IH. lia.
Qed.

Lemma hex_encode_digits (bs : list byte) :
  Forall (fun u => is_hex_digit u = true) (hex_encode bs).
Proof.
  induction bs as [| b bs IH]; [constructor | ].
  destruct (nibbles b) as [Hh Hl].
  cbn [hex_encode hex_of_byte app].
  constructor; [ | constructor; [ | exact IH ] ];
    unfold is_hex_digit; rewrite unhex_hex_digit by assumption; reflexivity.
Qed.

(** Every unit of an encoding is an ASCII digit or a letter from a to f. *)
Lemma hex_encode_ascii (bs : list byte) :
  Forall (fun u => 48 <= u <= 57 \/ 97 <= u <= 102) (hex_encode bs).
Proof.
  induction bs as [| b bs IH]; [constructor | ].
  destruct (nibbles b) as [Hh Hl].
  cbn [hex_encode hex_of_byte app].
  constructor; [ | constructor; [ | exact IH ] ];
    apply hex_digit_range; assumption.
Qed.

Lemma hex_encode_no_colon (bs : list byte) : ~ In 58 (hex_encode bs).
Proof.
  intros H. pose proof (hex_encode_ascii bs) as F.
  rewrite Forall_forall in F. specialize (F 58 H). lia.
Qed.

(** Nothing is decoded from a string whose first unit is not read as a
    digit. *)
Lemma hex_decode_not_digit (u : code_unit) (rest : js_string) :
  is_hex_digit (low_byte u) = false -> hex_decode (u :: rest) = [].
Proof.
  unfold is_hex_digit. intros H.
  destruct rest as [| v rest]; [reflexivity | ].
  cbn [hex_decode]. destruct (unhex (low_byte u)); [discriminate | reflexivity].
Qed.

(** [split] yields one more piece than there are separators. *)
Lemma split_on_length (sep : code_unit) (s : js_string) :
  length (split_on sep s) = S (count_occ Z.eq_dec s sep).
Proof.
  induction s as [| c s IH]; [reflexivity | ].
  cbn [split_on count_occ].
  destruct (Z.eqb_spec c sep) as [-> | Hne].
  - destruct (Z.eq_dec sep sep); [ | contradiction ].
    cbn [length]. rewrite IH. reflexivity.
  - destruct (Z.eq_dec c sep); [contradiction | ].
    destruct (split_on sep s); [discriminate | ]. exact IH.
Qed.

Lemma split_on_no_sep (sep : code_unit) (s : js_string) :
  ~ In sep s -> split_on sep s = [s].
Proof.
  induction s as [| c s IH]; intros H; [reflexivity | ].
  cbn [split_on].
  destruct (Z.eqb_spec c sep) as [-> | Hne].
  - exfalso. apply H. left. reflexivity.
  - rewrite IH; [reflexivity | ]. intros Hin. apply H. right. exact Hin.
Qed.

Lemma split_on_app (sep : code_unit) (a b : js_string) :
  ~ In sep a -> split_on sep (a ++ sep :: b) = a :: split_on sep b.
Proof.
  induction a as [| c a IH]; intros H.
  - cbn [app split_on]. rewrite Z.eqb_refl. reflexivity.
  - cbn [app split_on].
    destruct (Z.eqb_spec c sep) as [-> | Hne].
    + exfalso. apply H. left. reflexivity.
    + rewrite IH; [reflexivity | ]. intros Hin. apply H. right. exact Hin.
Qed.

End StringFacts.

(** ** UTF-8: decoding undoes encoding on well-formed strings *)

(** Settles the comparisons of the goal whose outcome [lia] can tell, with
    division and remainder by constants. *)
Ltac tests_by_lia :=
  repeat match goal with
    | |- context [?a <=? ?b] =>
        first [ replace (a <=? b) with true
                  by (symmetry; apply Z.leb_le; Z.div_mod_to_equations; lia)
              | replace (a <=? b) with false
                  by (symmetry; apply Z.leb_gt; Z.div_mod_to_equations; lia) ]
    | |- context [?a <? ?b] =>
        first [ replace (a <? b) with true
                  by (symmetry; apply Z.ltb_lt; Z.div_mod_to_equations; lia)
              | replace (a <? b) with false
                  by (symmetry; apply Z.ltb_ge; Z.div_mod_to_equations; lia) ]
    | |- context [?a =? ?b] =>
        first [ replace (a =? b) with true
                  by (symmetry; apply Z.eqb_eq; Z.div_mod_to_equations; lia)
              | replace (a =? b) with false
                  by (symmetry; apply Z.eqb_neq; Z.div_mod_to_equations; lia) ]
    end;
  cbn [andb orb negb].

Module Utf8Facts.

Lemma decode_cons (st : utf8_state) (b : byte) (rest : list byte) :
  utf8_decode_from st (b :: rest)
  = fst (utf8_step st b) ++ utf8_decode_from (snd (utf8_step st b)) rest.
Proof. cbn [utf8_decode_from]. destruct (utf8_step st b). reflexivity. Qed.

Lemma step_lead (v : Z) :
  0 <= v < 256 -> utf8_step utf8_init (z2b v) = utf8_lead v.
Proof. intros H. unfold utf8_step. rewrite b2z_z2b by lia. reflexivity. Qed.

(** A continuation byte in bounds, when it is not the last of its
    sequence and when it is. *)
Lemma step_cont (c : Z) (n : nat) (lo hi x : Z) :
  0 <= x < 64 -> lo <= 128 + x <= hi ->
  utf8_step (mk_utf8_state c (S (S n)) lo hi) (z2b (128 + x))
  = ([], mk_utf8_state (c * 64 + x) (S n) 128 191).
Proof.
  intros Hx Hb. unfold utf8_step. rewrite b2z_z2b by lia.
  cbn [u8_needed u8_lower u8_upper u8_code_point].
  tests_by_lia. repeat f_equal. Z.div_mod_to_equations; lia.
Qed.

Lemma step_last (c : Z) (lo hi x : Z) :
  0 <= x < 64 -> lo <= 128 + x <= hi ->
  utf8_step (mk_utf8_state c 1 lo hi) (z2b (128 + x))
  = (units_of_code_point (c * 64 + x), utf8_init).
Proof.
  intros Hx Hb. unfold utf8_step. rewrite b2z_z2b by lia.
  cbn [u8_needed u8_lower u8_upper u8_code_point].
  tests_by_lia. repeat f_equal. Z.div_mod_to_equations; lia.
Qed.

(** The decoder reads the encoding of a scalar value back and is then in
    its initial state. *)
Lemma decode_code_point (c : Z) (rest : list byte) :
  is_scalar c ->
  utf8_decode_from utf8_init (encode_code_point c ++ rest)
  = units_of_code_point c ++ utf8_decode_from utf8_init rest.
Proof.
  intros Hc. unfold is_scalar in Hc. unfold encode_code_point.
  destruct (c <? 128) eqn:E1; [ | destruct (c <? 2048) eqn:E2;
                                  [ | destruct (c <? 65536) eqn:E3 ] ].
  - apply Z.ltb_lt in E1.
    cbn [app]. rewrite decode_cons, step_lead by lia.
    unfold utf8_lead, units_of_code_point. tests_by_lia. reflexivity.
  - apply Z.ltb_ge in E1. apply Z.ltb_lt in E2.
    cbn [app]. rewrite decode_cons, step_lead
      by (Z.div_mod_to_equations; lia).
    unfold utf8_lead. tests_by_lia. cbn [fst snd app].
    rewrite decode_cons, step_last by (Z.div_mod_to_equations; lia).
    cbn [fst snd]. do 2 f_equal. Z.div_mod_to_equations; lia.
  - apply Z.ltb_ge in E2. apply Z.ltb_lt in E3.
    cbn [app]. rewrite decode_cons, step_lead
      by (Z.div_mod_to_equations; lia).
    unfold utf8_lead. tests_by_lia. cbn [fst snd app].
    rewrite decode_cons, step_cont.
    + cbn [fst snd app].
      rewrite decode_cons, step_last by (Z.div_mod_to_equations; lia).
      cbn [fst snd]. do 2 f_equal. Z.div_mod_to_equations; lia.
    + Z.div_mod_to_equations; lia.
    + destruct (Z.eqb_spec (224 + c / 4096) 224);
        destruct (Z.eqb_spec (224 + c / 4096) 237);
        Z.div_mod_to_equations; lia.
  - apply Z.ltb_ge in E3.
    cbn [app]. rewrite decode_cons, step_lead
      by (Z.div_mod_to_equations; lia).
    unfold utf8_lead. tests_by_lia. cbn [fst snd app].
    rewrite decode_cons, step_cont.
    + cbn [fst snd app].
      rewrite decode_cons, step_cont by (Z.div_mod_to_equations; lia).
      cbn [fst snd app].
      rewrite decode_cons, step_last by (Z.div_mod_to_equations; lia).
      cbn [fst snd]. do 2 f_equal. Z.div_mod_to_equations; lia.
    + Z.div_mod_to_equations; lia.
    + destruct (Z.eqb_spec (240 + c / 262144) 240);
        destruct (Z.eqb_spec (240 + c / 262144) 244);
        Z.div_mod_to_equations; lia.
Qed.

Lemma utf8_decode_encode_fuel (n : nat) (s : js_string) :
  (length s <= n)%nat -> well_formed s = true ->
  utf8_decode (utf8_encode s) = s.
Proof.
  unfold utf8_decode. revert s.
  induction n as [| n IH]; intros s Hlen Hwf.
  - destruct s; [reflexivity | cbn [length] in Hlen; lia].
  - destruct s as [| u rest]; [reflexivity | ].
    cbn [length] in Hlen. cbn [well_formed utf8_encode] in *.
    destruct (is_high_surrogate u) eqn:Hhi.
    + destruct rest as [| l rest']; [discriminate | ].
      apply andb_true_iff in Hwf. destruct Hwf as [Hlo Hwf].
      rewrite Hlo. cbn [length] in Hlen.
      unfold is_high_surrogate in Hhi. unfold is_low_surrogate in Hlo.
      apply andb_true_iff in Hhi, Hlo.
      rewrite !Z.leb_le in Hhi, Hlo.
      rewrite decode_code_point by (unfold is_scalar; lia).
      rewrite IH by (assumption || lia).
      unfold units_of_code_point. tests_by_lia. cbn [app].
      do 2 f_equal; [ | f_equal ]; Z.div_mod_to_equations; lia.
    + apply andb_true_iff in Hwf. destruct Hwf as [Hwf Hrest].
      apply andb_true_iff in Hwf. destruct Hwf as [Hu Hnlo].
      apply negb_true_iff in Hnlo. rewrite Hnlo.
      unfold is_code_unit in Hu. apply andb_true_iff in Hu.
      rewrite !Z.leb_le in Hu.
      unfold is_high_surrogate in Hhi. unfold is_low_surrogate in Hnlo.
      apply andb_false_iff in Hhi, Hnlo.
      rewrite !Z.leb_gt in Hhi, Hnlo.
      rewrite decode_code_point by (unfold is_scalar; lia).
      rewrite IH by (assumption || lia).
      unfold units_of_code_point. tests_by_lia. reflexivity.
Qed.

(** What is written as UTF-8 is read back unchanged, for every string
    without an unpaired surrogate. *)
Lemma utf8_decode_encode (s : js_string) :
  well_formed s = true -> utf8_decode (utf8_encode s) = s.
Proof. apply (utf8_decode_encode_fuel (length s)). apply Nat.le_refl. Qed.

(** The replacement bytes are the encoding of U+FFFD. *)
Lemma decode_replacement (rest : list byte) :
  utf8_decode_from utf8_init (replacement_bytes ++ rest)
  = 65533 :: utf8_decode_from utf8_init rest.
Proof.
  change replacement_bytes with (encode_code_point 65533).
  rewrite decode_code_point by (unfold is_scalar; lia). reflexivity.
Qed.

Lemma utf8_decode_encode_any_fuel (n : nat) (s : js_string) :
  (length s <= n)%nat -> forallb is_code_unit s = true ->
  utf8_decode (utf8_encode s) = toWellFormed s.
Proof.
  unfold utf8_decode. revert s.
  induction n as [| n IH]; intros s Hlen Hs.
  - destruct s; [reflexivity | cbn [length] in Hlen; lia].
  - destruct s as [| u rest]; [reflexivity | ].
    cbn [length] in Hlen. cbn [forallb] in Hs.
    apply andb_true_iff in Hs. destruct Hs as [Hu Hrest].
    cbn [utf8_encode toWellFormed].
    destruct (is_high_surrogate u) eqn:Hhi.
    + destruct rest as [| l rest'].
      * rewrite <- (app_nil_r replacement_bytes), decode_replacement.
        reflexivity.
      * destruct (is_low_surrogate l) eqn:Hlo.
        -- cbn [forallb] in Hrest. apply andb_true_iff in Hrest.
           destruct Hrest as [_ Hrest']. cbn [length] in Hlen.
           unfold is_high_surrogate in Hhi. unfold is_low_surrogate in Hlo.
           apply andb_true_iff in Hhi, Hlo.
           rewrite !Z.leb_le in Hhi, Hlo.
           rewrite decode_code_point by (unfold is_scalar; lia).
           rewrite IH by (assumption || lia).
           unfold units_of_code_point. tests_by_lia. cbn [app].
           do 2 f_equal; [ | f_equal ]; Z.div_mod_to_equations; lia.
        -- rewrite decode_replacement, IH by (assumption || lia).
           reflexivity.
    + destruct (is_low_surrogate u) eqn:Hlo.
      * rewrite decode_replacement, IH by (assumption || lia). reflexivity.
      * unfold is_code_unit in Hu. apply andb_true_iff in Hu.
        rewrite !Z.leb_le in Hu.
        unfold is_high_surrogate in Hhi. unfold is_low_surrogate in Hlo.
        apply andb_false_iff in Hhi, Hlo.
        rewrite !Z.leb_gt in Hhi, Hlo.
        rewrite decode_code_point by (unfold is_scalar; lia).
        rewrite IH by (assumption || lia).
        unfold units_of_code_point. tests_by_lia. reflexivity.
Qed.

(** What is written as UTF-8 is read back with U+FFFD for every unpaired
    surrogate, whatever the string. *)
Lemma utf8_decode_encode_any (s : js_string) :
  forallb is_code_unit s = true ->
  utf8_decode (utf8_encode s) = toWellFormed s.
Proof. apply (utf8_decode_encode_any_fuel (length s)). apply Nat.le_refl. Qed.

Lemma well_formed_code_units_fuel (n : nat) (s : js_string) :
  (length s <= n)%nat -> well_formed s = true ->
  forallb is_code_unit s = true.
Proof.
  revert s. induction n as [| n IH]; intros s Hlen Hwf.
  - destruct s; [reflexivity | cbn [length] in Hlen; lia].
  - destruct s as [| u rest]; [reflexivity | ].
    cbn [length] in Hlen. cbn [well_formed] in Hwf.
    destruct (is_high_surrogate u) eqn:Hhi.
    + destruct rest as [| l rest']; [discriminate | ].
      apply andb_true_iff in Hwf. destruct Hwf as [Hlo Hwf].
      cbn [length] in Hlen. cbn [forallb].
      rewrite (IH rest') by (assumption || lia).
      unfold is_high_surrogate in Hhi. unfold is_low_surrogate in Hlo.
      apply andb_true_iff in Hhi, Hlo. rewrite !Z.leb_le in Hhi, Hlo.
      unfold is_code_unit. tests_by_lia. reflexivity.
    + apply andb_true_iff in Hwf. destruct Hwf as [Hwf Hrest].
      apply andb_true_iff in Hwf. destruct Hwf as [Hu _].
      cbn [forallb]. rewrite Hu, (IH rest) by (assumption || lia).
      reflexivity.
Qed.

(** A string without an unpaired surrogate is left as it is. *)
Lemma toWellFormed_well_formed (s : js_string) :
  well_formed s = true -> toWellFormed s = s.
Proof.
  intros Hwf.
  rewrite <- utf8_decode_encode_any
    by (apply (well_formed_code_units_fuel (length s)); [lia | exact Hwf]).
  apply utf8_decode_encode. exact Hwf.
Qed.

(** ASCII strings are well formed. *)
Lemma ascii_well_formed (s : js_string) :
  Forall (fun u => 0 <= u < 128) s -> well_formed s = true.
Proof.
  induction 1 as [| u s Hu Hs IH]; [reflexivity | ].
  cbn [well_formed].
  unfold is_high_surrogate, is_low_surrogate, is_code_unit.
  tests_by_lia. exact IH.
Qed.

End Utf8Facts.

(* ====================================================================== *)
(** * Part III.  The program *)
(* ====================================================================== *)

(** ** The token store: key, envelope, and what [decrypt] makes of it *)

Module StoreFacts.

Import AES Crypto EncryptedTokenManager.
Import CryptoFacts StringFacts.

Lemma str_eqb_eq (a b : js_string) : str_eqb a b = true <-> a = b.
Proof.
  revert b. induction a as [| x a IH]; intros [| y b]; cbn [str_eqb];
    try (split; (discriminate || reflexivity)).
  rewrite andb_true_iff, Z.eqb_eq, IH. split.
  - intros [-> ->]. reflexivity.
  - intros E. inversion E. split; reflexivity.
Qed.

Lemma sha256_length (m : list byte) : length (SHA256.sha256 m) = 32%nat.
Proof. unfold SHA256.sha256, SHA256.digest_bytes. reflexivity. Qed.

Lemma expand_length (rcs : list byte) (k0 k1 : block) :
  length (expand rcs k0 k1) = (2 * length rcs + 2)%nat.
Proof.
  revert k0 k1. induction rcs as [| rc rcs IH]; intros k0 k1; [reflexivity | ].
  cbn [expand]. destruct (next_keys rc k0 k1) as [k0' k1'].
  cbn [length]. rewrite IH. lia.
Qed.

(** A key of 32 bytes has its fifteen round keys. *)
Lemma key_expansion_32 (key : list byte) :
  length key = 32%nat ->
  exists ks, key_expansion key = Some ks /\ length ks = 15%nat.
Proof.
  intros H. unfold key_expansion. rewrite H. cbn [Nat.eqb].
  pose proof (of_blocks_to_blocks_n 2 key H) as [_ Hlen].
  destruct (to_blocks key) as [| k0 [| k1 [| k2 more]]]; try discriminate.
  eexists. split; [reflexivity | ].
  rewrite length_firstn, expand_length. reflexivity.
Qed.

(** The key of the manager is the SHA-256 digest of the machine identity. *)
Lemma manager_key (p a h : js_string) :
  hex_decode (encryptionKey (new p a h))
  = SHA256.sha256 (utf8_encode (p ++ a ++ h)).
Proof. apply hex_decode_encode. Qed.

Lemma manager_round_keys (p a h : js_string) :
  exists ks, key_expansion (hex_decode (encryptionKey (new p a h))) = Some ks.
Proof.
  destruct (key_expansion_32 (hex_decode (encryptionKey (new p a h))))
    as [ks [Hks _]].
  - rewrite manager_key. apply sha256_length.
  - exists ks. exact Hks.
Qed.

Lemma create_iv_block (key : list byte) (ks : list block) (iv : block) :
  key_expansion key = Some ks ->
  create_iv key (bytes_of_block iv) = Returns (ks, iv).
Proof.
  intros H. unfold create_iv. rewrite to_blocks_bytes_of_block, H.
  reflexivity.
Qed.

Lemma create_iv_other (key iv : list byte) :
  length iv <> 16%nat -> exists e, create_iv key iv = Throws e.
Proof.
  intros H. unfold create_iv.
  destruct (to_blocks iv) as [| b [| b' more]]; try (eexists; reflexivity).
  destruct (Nat.eqb_spec (length iv) 16); [contradiction | ].
  eexists; reflexivity.
Qed.

Lemma encrypt_envelope (this : t) (ks : list block) (iv : block)
  (text : js_string) :
  key_expansion (hex_decode (encryptionKey this)) = Some ks ->
  encrypt this iv text = Returns (envelope ks iv text).
Proof.
  intros Hks. unfold encrypt. rewrite (create_iv_block _ ks) by exact Hks.
  cbn [bind]. unfold envelope, cipher_update, cipher_final.
  rewrite <- hex_encode_app, firstn_skipn. reflexivity.
Qed.

Lemma cipher_output_length (ks : list block) (iv : block) (data : list byte) :
  length (cipher_output ks iv data) = (16 * (length data / 16 + 1))%nat.
Proof.
  unfold cipher_output.
  rewrite of_blocks_length, cbc_encrypt_length,
    to_blocks_length by apply pkcs7_pad_blocks.
  rewrite pkcs7_pad_length. f_equal.
  rewrite (Nat.mul_comm 16). apply Nat.div_mul. lia.
Qed.

(** The decipher reads back what the cipher wrote. *)
Lemma decipher_cipher_output (ks : list block) (iv : block) (data : list byte) :
  decipher_output ks iv (cipher_output ks iv data) = Returns data.
Proof.
  unfold decipher_output. rewrite cipher_output_length.
  replace ((16 * (length data / 16 + 1)) mod 16)%nat with 0%nat
    by (rewrite Nat.mul_comm, Nat.Div0.mod_mul; reflexivity).
  replace (Nat.eqb (16 * (length data / 16 + 1)) 0) with false
    by (symmetry; apply Nat.eqb_neq; lia).
  cbn [Nat.eqb negb orb].
  unfold cipher_output.
  rewrite to_blocks_of_blocks, cbc_decrypt_encrypt,
    of_blocks_to_blocks by apply pkcs7_pad_blocks.
  rewrite pkcs7_unpad_pad. reflexivity.
Qed.

Lemma split_envelope (a b : list byte) :
  split_on 58 (hex_encode a ++ [58] ++ hex_encode b)
  = [hex_encode a; hex_encode b].
Proof.
  cbn [app]. rewrite split_on_app by apply hex_encode_no_colon.
  rewrite split_on_no_sep by apply hex_encode_no_colon. reflexivity.
Qed.

Lemma hex_input_encode (bs : list byte) :
  hex_input (hex_encode bs) = Returns bs.
Proof.
  unfold hex_input. rewrite hex_encode_length, Nat.even_mul.
  cbn [Nat.even orb]. rewrite hex_decode_encode. reflexivity.
Qed.

(** [decrypt] on the envelope of [text] returns [text] as it comes back
    from UTF-8. *)
Lemma decrypt_envelope (this : t) (ks : list block) (iv : block)
  (text : js_string) :
  key_expansion (hex_decode (encryptionKey this)) = Some ks ->
  decrypt this (envelope ks iv text)
  = Returns (utf8_decode (utf8_encode text)).
Proof.
  intros Hks. unfold decrypt, envelope.
  rewrite split_envelope. cbn [length Nat.eqb negb nth].
  rewrite hex_decode_encode, (create_iv_block _ ks) by exact Hks.
  cbn [bind]. rewrite hex_input_encode. cbn [bind].
  rewrite decipher_cipher_output. reflexivity.
Qed.

End StoreFacts.

(** ** The token store: [getToken] and [setToken] on a world *)

Module StoreRuns.

Import EncryptedTokenManager.
Import StoreFacts.

(** What [getToken] does, case by case on the token file. *)
Lemma getToken_cases (this : t) (w : world) :
  getToken this w =
  match token_file (fs w) with
  | Missing => (w, Returned None)
  | Unreadable =>
      (logged w (ConsoleError read_failure (Some (SystemError "EACCES"))),
       Returned None)
  | Regular content =>
      match decrypt this (utf8_decode content) with
      | Returns token =>
          (w, Returned (if str_truthy token then Some token else None))
      | Throws e => (logged w (ConsoleError read_failure (Some e)), Returned None)
      end
  end.
Proof.
  unfold getToken, catch, mbind, get_fs, existsSync_tokenFile,
    readFileSync_tokenFile, mbind, get_fs, lift, ret, throw, emit, logged,
    read_failure.
  destruct w as [[dir file ro cap] tr].
  destruct file as [| content | ]; cbn [fs trace token_file negb];
    try reflexivity.
  destruct (decrypt this (utf8_decode content)); reflexivity.
Qed.

(** What the disk took is everything, unless the write failed. *)
Lemma taken_all (f : file_system) (bytes : list byte) :
  (length (taken f bytes) <? length bytes)%nat = false ->
  taken f bytes = bytes.
Proof.
  unfold taken. destruct (capacity f) as [n | ]; [ | reflexivity ].
  intros H. apply Nat.ltb_ge in H. rewrite length_firstn in H.
  apply firstn_all2. lia.
Qed.

Lemma taken_part (f : file_system) (bytes : list byte) :
  (length (taken f bytes) <? length bytes)%nat = true ->
  exists n, capacity f = Some n /\ (n < length bytes)%nat
            /\ taken f bytes = firstn n bytes.
Proof.
  unfold taken. destruct (capacity f) as [n | ].
  - intros H. apply Nat.ltb_lt in H. rewrite length_firstn in H.
    exists n. repeat split. lia.
  - intros H. apply Nat.ltb_lt in H. lia.
Qed.

Lemma taken_room (f : file_system) (data : js_string) :
  has_room f data ->
  (length (taken f (utf8_encode data)) <? length (utf8_encode data))%nat
  = false.
Proof.
  unfold has_room, taken. destruct (capacity f) as [n | ]; intros H.
  - apply Nat.ltb_ge. rewrite length_firstn. lia.
  - apply Nat.ltb_irrefl.
Qed.

(** A [setToken] that returns has written the envelope of the token. *)
Lemma setToken_returned (this : t) (iv : AES.block) (token : js_string)
  (w w' : world) :
  setToken this iv token w = (w', Returned tt) ->
  exists e, encrypt this iv token = Returns e
            /\ token_file (fs w') = Regular (utf8_encode e).
Proof.
  unfold setToken, catch, mbind, ensureConfigDir, writeFileSync_tokenFile,
    mbind, get_fs, put_fs, lift, ret, throw, emit.
  destruct w as [[dir file ro cap] tr].
  cbn [fs trace config_dir_exists read_only token_file capacity negb].
  destruct (encrypt this iv token) as [e | err];
    destruct dir, ro, file;
    cbn [fs trace config_dir_exists read_only token_file capacity negb];
    try (intros H; discriminate H);
    match goal with
    | |- context [(length (taken ?f ?bytes) <? _)%nat] =>
        destruct (length (taken f bytes) <? length bytes)%nat eqn:Hlt
    end;
    cbn [fs trace]; intros H; inversion H; subst; clear H;
    exists e; rewrite (taken_all _ _ Hlt); split; reflexivity.
Qed.

(** On a file system that can be written and has room for the envelope,
    [setToken] returns. *)
Lemma setToken_returns (this : t) (iv : AES.block) (token e : js_string)
  (w : world) :
  encrypt this iv token = Returns e ->
  read_only (fs w) = false -> token_file (fs w) <> Unreadable ->
  has_room (fs w) e ->
  exists w', setToken this iv token w = (w', Returned tt).
Proof.
  intros He Hro Hfile Hroom.
  unfold setToken, catch, mbind, ensureConfigDir, writeFileSync_tokenFile,
    mbind, get_fs, put_fs, lift, ret, throw, emit.
  destruct w as [[dir file ro cap] tr].
  cbn [fs trace config_dir_exists read_only token_file capacity negb] in *.
  subst ro. rewrite He.
  assert (Hall : forall d fl,
             (length (taken (mk_fs d fl false cap) (utf8_encode e))
              <? length (utf8_encode e))%nat = false).
  { intros d fl. apply taken_room. exact Hroom. }
  destruct dir, file;
    cbn [fs trace config_dir_exists read_only token_file capacity negb];
    try contradiction; rewrite Hall; eexists; reflexivity.
Qed.

Lemma envelope_well_formed (ks : list AES.block) (iv : AES.block)
  (text : js_string) : well_formed (envelope ks iv text) = true.
Proof.
  apply Utf8Facts.ascii_well_formed. unfold envelope.
  apply Forall_app. split; [ | apply Forall_app; split ].
  - eapply Forall_impl; [ | apply StringFacts.hex_encode_ascii ].
    cbv beta. intros u Hu. lia.
  - constructor; [lia | constructor].
  - eapply Forall_impl; [ | apply StringFacts.hex_encode_ascii ].
    cbv beta. intros u Hu. lia.
Qed.

(** After a [setToken] that returned, [getToken] yields the token as it
    comes back from UTF-8, or null when that is the empty string. *)
Lemma getToken_after_setToken (p a h : js_string) (iv : AES.block)
  (token : js_string) (w w' : world) :
  let this := new p a h in
  setToken this iv token w = (w', Returned tt) ->
  getToken this w'
  = (w', Returned (let back := utf8_decode (utf8_encode token) in
                   if str_truthy back then Some back else None)).
Proof.
  cbv zeta. intros Hset.
  destruct (setToken_returned _ _ _ _ _ Hset) as [e [He Hfile]].
  destruct (manager_round_keys p a h) as [ks Hks].
  rewrite (encrypt_envelope _ ks) in He by exact Hks.
  inversion He; subst e; clear He.
  rewrite getToken_cases, Hfile.
  rewrite Utf8Facts.utf8_decode_encode by apply envelope_well_formed.
  rewrite (decrypt_envelope _ ks) by exact Hks. reflexivity.
Qed.

End StoreRuns.

(** ** The pipeline: [generateCommitSuggestions] and [getGitDiff] on a world *)

Module GeneratorRuns.

Import AICommitGenerator.
Import StoreRuns.

(** What [generateCommitSuggestions] does once the token is there, case by
    case on the answer of the service. *)
Lemma generateCommitSuggestions_cases (env : environment) (diff : js_string)
  (w w1 : world) (token : js_string) :
  getOrRequestToken env w = (w1, Returned token) ->
  generateCommitSuggestions env diff w =
  let w2 := logged w1 (Request (build_prompt diff)) in
  let failed (e : exn) :=
    (logged w2 (ConsoleError suggestion_failure (Some e)), Returned fallback) in
  match create_completion env (build_prompt diff) with
  | Throws e => failed e
  | Returns response =>
      match first_content response with
      | None | Some [] => failed (Error "No response from OpenAI")
      | Some content =>
          match JSON.parse content with
          | Throws e => failed e
          | Returns Undefined | Returns Null => failed TypeError
          | Returns parsed => (w2, Returned (suggestions_of parsed))
          end
      end
  end.
Proof.
  intros Htoken.
  unfold generateCommitSuggestions. unfold mbind at 1. rewrite Htoken.
  unfold catch, mbind, emit, lift, ret, throw, logged, suggestion_failure,
    suggestions_of.
  cbn [fs trace].
  destruct (create_completion env (build_prompt diff)) as [response | e];
    [ | reflexivity ].
  destruct (first_content response) as [[| c content] | ]; try reflexivity.
  destruct (JSON.parse (c :: content)) as [parsed | e]; [ | reflexivity ].
  destruct parsed as [ | | b | n | s | items | props ]; try reflexivity.
  cbn [get_prop own].
  destruct (lookup (js "types") props), (lookup (js "scopes") props),
    (lookup (js "messages") props); reflexivity.
Qed.

(** [getGitDiff] when both diffs are blank. *)
Lemma getGitDiff_blank (env : environment) (w : world)
  (staged unstaged : js_string) :
  execSync env (js "git diff --cached") = Returns staged ->
  trim staged = [] ->
  execSync env (js "git diff") = Returns unstaged ->
  trim unstaged = [] ->
  getGitDiff env w
  = (mk_world (fs w)
       (trace w ++ [Exec (js "git diff --cached")] ++ [Exec (js "git diff")]
        ++ [ConsoleLog no_changes]),
     Exited 0).
Proof.
  intros Hs Hst Hu Hut.
  unfold getGitDiff, catch, mbind, exec, log, emit, lift, ret, exit, mbind.
  cbn [fs trace]. rewrite Hs. cbn [fs trace]. rewrite Hst.
  cbn [str_truthy negb fs trace]. rewrite Hu. cbn [fs trace]. rewrite Hut.
  cbn [str_truthy negb fs trace].
  rewrite <- !app_assoc. reflexivity.
Qed.

End GeneratorRuns.

(** ** Properties of the token store *)

(** C1, as amended.  On every machine, with every IV and for every
    credential: [encrypt] returns hex(IV) ":" hex(ciphertext), the
    ciphertext being the AES-256-CBC encryption (under the round keys of the
    derived key) of the PKCS#7-padded UTF-8 text, and [decrypt] returns from
    that envelope the credential with U+FFFD in the place of every unpaired
    surrogate: the credential itself when it has no unpaired surrogate. *)
Theorem C1_round_trip (p a h : js_string) (iv : AES.block) (s : js_string) :
  forallb is_code_unit s = true ->
  exists ks : list AES.block,
    AES.key_expansion (SHA256.sha256 (utf8_encode (p ++ a ++ h))) = Some ks /\
    let this := EncryptedTokenManager.new p a h in
    let ciphertext :=
      AES.of_blocks
        (Crypto.cbc_encrypt ks iv
           (AES.to_blocks (Crypto.pkcs7_pad (utf8_encode s)))) in
    let e := hex_encode (AES.bytes_of_block iv) ++ js ":"
             ++ hex_encode ciphertext in
    EncryptedTokenManager.encrypt this iv s = Returns e /\
    EncryptedTokenManager.decrypt this e = Returns (toWellFormed s) /\
    (well_formed s = true ->
     EncryptedTokenManager.decrypt this e = Returns s).
Proof.
  intros Hunits.
  destruct (StoreFacts.manager_round_keys p a h) as [ks Hks].
  exists ks. split.
  - rewrite <- StoreFacts.manager_key. exact Hks.
  - cbv zeta. split; [ | split ].
    + apply (StoreFacts.encrypt_envelope _ ks). exact Hks.
    + change (EncryptedTokenManager.decrypt (EncryptedTokenManager.new p a h)
                (envelope ks iv s) = Returns (toWellFormed s)).
      rewrite (StoreFacts.decrypt_envelope _ ks) by exact Hks.
      rewrite Utf8Facts.utf8_decode_encode_any by exact Hunits. reflexivity.
    + intros Hwf.
      change (EncryptedTokenManager.decrypt (EncryptedTokenManager.new p a h)
                (envelope ks iv s) = Returns s).
      rewrite (StoreFacts.decrypt_envelope _ ks) by exact Hks.
      rewrite Utf8Facts.utf8_decode_encode by exact Hwf. reflexivity.
Qed.

Lemma C1_round_trip_witness :
  forallb is_code_unit (js "sk-proj-✨") = true /\
  well_formed (js "sk-proj-✨") = true /\
  exists ks : list AES.block,
    AES.key_expansion
      (SHA256.sha256 (utf8_encode (js "linux" ++ js "x64" ++ js "/home/user")))
    = Some ks /\
    let this := EncryptedTokenManager.new (js "linux") (js "x64") (js "/home/user") in
    let ciphertext :=
      AES.of_blocks
        (Crypto.cbc_encrypt ks sample_iv
           (AES.to_blocks (Crypto.pkcs7_pad (utf8_encode (js "sk-proj-✨"))))) in
    let e := hex_encode (AES.bytes_of_block sample_iv) ++ js ":"
             ++ hex_encode ciphertext in
    EncryptedTokenManager.encrypt this sample_iv (js "sk-proj-✨") = Returns e /\
    EncryptedTokenManager.decrypt this e = Returns (js "sk-proj-✨").
Proof.
  split; [reflexivity | split; [reflexivity | ] ].
  destruct (C1_round_trip (js "linux") (js "x64") (js "/home/user") sample_iv
              (js "sk-proj-✨") eq_refl) as [ks [Hks [Hencrypt [_ Hback]]]].
  exists ks. split; [exact Hks | ].
  cbv zeta. split; [exact Hencrypt | exact (Hback eq_refl)].
Defined.

(** C1 as stated fails: the string made of the unpaired surrogate U+D800 is
    encrypted as U+FFFD (its UTF-8 form is EF BF BD), so it comes back as
    another string. *)
Lemma C1_unpaired_surrogate :
  (e <- EncryptedTokenManager.encrypt sample_manager sample_iv [55296] ;;
   EncryptedTokenManager.decrypt sample_manager e)%result = Returns [65533]
  /\ [65533] <> [55296].
Proof. split; [vm_compute; reflexivity | discriminate]. Qed.

(** C10.  Whatever the text, the envelope of [encrypt] has exactly one
    colon; its first field is the 32 hexadecimal digits of the 16-byte IV;
    its second field is a non-empty run of hexadecimal digits (whole blocks,
    at least one); and [decrypt] accepts it. *)
Theorem C10_envelope_well_formed (p a h : js_string) (iv : AES.block)
  (s : js_string) :
  let this := EncryptedTokenManager.new p a h in
  exists e f1 f2 : js_string,
    EncryptedTokenManager.encrypt this iv s = Returns e /\
    count_occ Z.eq_dec e 58 = 1%nat /\
    split_on 58 e = [f1; f2] /\
    length f1 = 32%nat /\
    Forall (fun u => is_hex_digit u = true) f1 /\
    hex_decode f1 = AES.bytes_of_block iv /\
    length (hex_decode f1) = 16%nat /\
    f2 <> [] /\
    (32 <= length f2)%nat /\ (length f2 mod 32 = 0)%nat /\
    Forall (fun u => is_hex_digit u = true) f2 /\
    exists t, EncryptedTokenManager.decrypt this e = Returns t.
Proof.
  cbv zeta.
  destruct (StoreFacts.manager_round_keys p a h) as [ks Hks].
  pose proof (StoreFacts.cipher_output_length ks iv (utf8_encode s)) as Hlen.
  assert (Hsplit : split_on 58 (envelope ks iv s)
                   = [hex_encode (AES.bytes_of_block iv);
                      hex_encode (Crypto.cipher_output ks iv (utf8_encode s))])
    by apply StoreFacts.split_envelope.
  exists (envelope ks iv s),
    (hex_encode (AES.bytes_of_block iv)),
    (hex_encode (Crypto.cipher_output ks iv (utf8_encode s))).
  repeat split.
  - apply (StoreFacts.encrypt_envelope _ ks). exact Hks.
  - pose proof (StringFacts.split_on_length 58 (envelope ks iv s)) as L.
    rewrite Hsplit in L. cbn [length] in L. lia.
  - exact Hsplit.
  - apply StringFacts.hex_encode_digits.
  - apply StringFacts.hex_decode_encode.
  - rewrite StringFacts.hex_decode_encode. reflexivity.
  - intros E. apply (f_equal (@length _)) in E.
    rewrite StringFacts.hex_encode_length, Hlen in E. cbn [length] in E. lia.
  - rewrite StringFacts.hex_encode_length, Hlen. lia.
  - rewrite StringFacts.hex_encode_length, Hlen.
    replace (2 * (16 * (length (utf8_encode s) / 16 + 1)))%nat
      with ((length (utf8_encode s) / 16 + 1) * 32)%nat by lia.
    apply Nat.Div0.mod_mul.
  - apply StringFacts.hex_encode_digits.
  - exists (utf8_decode (utf8_encode s)).
    apply (StoreFacts.decrypt_envelope _ ks). exact Hks.
Qed.

(** C6.  The key of the store is SHA-256 of the UTF-8 text of
    platform, architecture and home directory put end to end, hashed once:
    its 32 bytes are the cipher key whose round keys [encrypt] uses, and two
    processes that agree on the three attributes hold the same key. *)
Theorem C6_key_derivation (p a h : js_string) :
  let this := EncryptedTokenManager.new p a h in
  let key := hex_decode (EncryptedTokenManager.encryptionKey this) in
  key = SHA256.sha256 (utf8_encode (p ++ a ++ h)) /\
  length key = 32%nat /\
  (forall iv : AES.block,
      exists ks, AES.key_expansion key = Some ks /\ length ks = 15%nat /\
                 Crypto.create_iv key (AES.bytes_of_block iv) = Returns (ks, iv)) /\
  (forall env1 env2 : environment,
      platform env1 = p -> arch env1 = a -> homedir env1 = h ->
      platform env2 = p -> arch env2 = a -> homedir env2 = h ->
      AICommitGenerator.tokenManager env1 = AICommitGenerator.tokenManager env2).
Proof.
  cbv zeta. repeat split.
  - apply StoreFacts.manager_key.
  - rewrite StoreFacts.manager_key. apply StoreFacts.sha256_length.
  - intros iv.
    destruct (StoreFacts.key_expansion_32
                (hex_decode (EncryptedTokenManager.encryptionKey
                               (EncryptedTokenManager.new p a h))))
      as [ks [Hks Hlen]].
    + rewrite StoreFacts.manager_key. apply StoreFacts.sha256_length.
    + exists ks. repeat split; try assumption.
      apply StoreFacts.create_iv_block. exact Hks.
  - intros env1 env2 P1 A1 H1 P2 A2 H2.
    unfold AICommitGenerator.tokenManager.
    rewrite P1, A1, H1, P2, A2, H2. reflexivity.
Qed.

(** The key of the sample machine (the digest any SHA-256 tool prints for
    "linuxx64/home/user"). *)
Example key_of_sample_manager :
  EncryptedTokenManager.encryptionKey sample_manager
  = js "7891e3e40eea39801cb1cfd65f0fa3943d1fa8dd06326236d36d3d8f3f8b6d48".
Proof. vm_compute. reflexivity. Qed.

(** C2.  [getToken] returns on every world: null when the token file is
    absent or cannot be read, null when [decrypt] throws on its content
    (malformed envelope, wrong key, corruption), and otherwise the decrypted
    token (null in place of the empty string).  It never throws and never
    ends the process, and it leaves the file system as it was.  After a
    [setToken] that returned, it gives back the credential that was set. *)
Theorem C2_getToken_never_throws (this : EncryptedTokenManager.t) (w : world) :
  (exists (w' : world) (r : option js_string),
      EncryptedTokenManager.getToken this w = (w', Returned r) /\
      fs w' = fs w /\
      match token_file (fs w) with
      | Missing | Unreadable => r = None
      | Regular content =>
          match EncryptedTokenManager.decrypt this (utf8_decode content) with
          | Returns token => r = if str_truthy token then Some token else None
          | Throws _ => r = None
          end
      end) /\
  (forall (p a h : js_string) (iv : AES.block) (c : code_unit)
          (token : js_string) (w' : world),
      well_formed (c :: token) = true ->
      EncryptedTokenManager.setToken (EncryptedTokenManager.new p a h) iv
        (c :: token) w = (w', Returned tt) ->
      EncryptedTokenManager.getToken (EncryptedTokenManager.new p a h) w'
      = (w', Returned (Some (c :: token)))).
Proof.
  split.
  - rewrite StoreRuns.getToken_cases.
    destruct (token_file (fs w)) as [| content | ].
    + exists w, None. repeat split.
    + destruct (EncryptedTokenManager.decrypt this (utf8_decode content)).
      * eexists w, _. repeat split.
      * eexists _, None. repeat split.
    + eexists _, None. repeat split.
  - intros p a h iv c token w' Hwf Hset.
    rewrite (StoreRuns.getToken_after_setToken p a h iv (c :: token) w w')
      by exact Hset.
    rewrite Utf8Facts.utf8_decode_encode by exact Hwf. reflexivity.
Qed.

Lemma C2_getToken_witness :
  let this := EncryptedTokenManager.new (js "linux") (js "x64") (js "/home/user") in
  let stored :=
    fst (EncryptedTokenManager.setToken this sample_iv (js "sk-abc") empty_world) in
  well_formed (js "sk-abc") = true /\
  EncryptedTokenManager.setToken this sample_iv (js "sk-abc") empty_world
  = (stored, Returned tt) /\
  EncryptedTokenManager.getToken this stored
  = (stored, Returned (Some (js "sk-abc"))).
Proof.
  cbv zeta.
  assert (Hset : EncryptedTokenManager.setToken
                   (EncryptedTokenManager.new (js "linux") (js "x64")
                      (js "/home/user"))
                   sample_iv (js "sk-abc") empty_world
                 = (fst (EncryptedTokenManager.setToken
                           (EncryptedTokenManager.new (js "linux") (js "x64")
                              (js "/home/user"))
                           sample_iv (js "sk-abc") empty_world),
                    Returned tt))
    by (vm_compute; reflexivity).
  split; [reflexivity | split; [exact Hset | ] ].
  destruct (C2_getToken_never_throws
              (EncryptedTokenManager.new (js "linux") (js "x64") (js "/home/user"))
              empty_world) as [_ Hstored].
  exact (Hstored (js "linux") (js "x64") (js "/home/user") sample_iv
           115 (js "k-abc") _ eq_refl Hset).
Defined.

(** C9.  Once [setToken] has stored the empty string, [getToken] returns
    null and [hasToken] false, exactly as they do when no file is there. *)
Theorem C9_empty_token_is_absent (p a h : js_string) (iv : AES.block)
  (w w' : world) :
  let this := EncryptedTokenManager.new p a h in
  EncryptedTokenManager.setToken this iv [] w = (w', Returned tt) ->
  (exists content, token_file (fs w') = Regular content
                   /\ EncryptedTokenManager.decrypt this (utf8_decode content)
                      = Returns []) /\
  EncryptedTokenManager.getToken this w' = (w', Returned None) /\
  EncryptedTokenManager.hasToken this w' = (w', Returned false) /\
  EncryptedTokenManager.getToken this empty_world = (empty_world, Returned None) /\
  EncryptedTokenManager.hasToken this empty_world = (empty_world, Returned false).
Proof.
  cbv zeta. intros Hset.
  pose proof (StoreRuns.getToken_after_setToken p a h iv [] w w' Hset) as Hget.
  cbv zeta in Hget. change (utf8_decode (utf8_encode [])) with (@nil Z) in Hget.
  cbn [str_truthy] in Hget.
  split; [ | split; [ | split; [ | split ] ] ].
  - destruct (StoreRuns.setToken_returned _ _ _ _ _ Hset) as [e [He Hfile]].
    destruct (StoreFacts.manager_round_keys p a h) as [ks Hks].
    rewrite (StoreFacts.encrypt_envelope _ ks) in He by exact Hks.
    inversion He; subst e; clear He.
    exists (utf8_encode (envelope ks iv [])). split; [exact Hfile | ].
    rewrite Utf8Facts.utf8_decode_encode
      by apply StoreRuns.envelope_well_formed.
    rewrite (StoreFacts.decrypt_envelope _ ks) by exact Hks. reflexivity.
  - exact Hget.
  - unfold EncryptedTokenManager.hasToken, mbind. rewrite Hget. reflexivity.
  - rewrite StoreRuns.getToken_cases. reflexivity.
  - unfold EncryptedTokenManager.hasToken, mbind.
    rewrite StoreRuns.getToken_cases. reflexivity.
Qed.

Lemma C9_empty_token_witness :
  let this := EncryptedTokenManager.new (js "linux") (js "x64") (js "/home/user") in
  let w' := fst (EncryptedTokenManager.setToken this sample_iv [] empty_world) in
  EncryptedTokenManager.setToken this sample_iv [] empty_world = (w', Returned tt)
  /\ (exists content, token_file (fs w') = Regular content
                      /\ EncryptedTokenManager.decrypt this (utf8_decode content)
                         = Returns []) /\
  EncryptedTokenManager.getToken this w' = (w', Returned None) /\
  EncryptedTokenManager.hasToken this w' = (w', Returned false) /\
  EncryptedTokenManager.getToken this empty_world = (empty_world, Returned None) /\
  EncryptedTokenManager.hasToken this empty_world = (empty_world, Returned false).
Proof.
  cbv zeta.
  assert (H : EncryptedTokenManager.setToken
                (EncryptedTokenManager.new (js "linux") (js "x64") (js "/home/user"))
                sample_iv [] empty_world
              = (fst (EncryptedTokenManager.setToken
                        (EncryptedTokenManager.new (js "linux") (js "x64")
                           (js "/home/user"))
                        sample_iv [] empty_world), Returned tt))
    by (vm_compute; reflexivity).
  split; [exact H | ].
  exact (C9_empty_token_is_absent (js "linux") (js "x64") (js "/home/user")
           sample_iv empty_world _ H).
Defined.

(** C4, as amended.  [decrypt] throws on every envelope that has no colon or
    more than one, and on every envelope whose first field does not decode
    (by its leading pairs of hexadecimal digits, each unit read by its low
    byte) to 16 bytes or whose second field has an odd length or does not
    decode to at least one whole block: an empty field and a field that
    starts with a unit whose low byte is no hexadecimal digit are among
    them.  Of a two-field envelope [decrypt] looks at nothing but the bytes
    that its fields decode to and whether the length of the second field is
    even: envelopes that agree on these get the same result.  Whenever
    [decrypt] throws on the content of the token file, [getToken] returns
    null. *)
Theorem C4_malformed_envelope_rejected (this : EncryptedTokenManager.t)
  (e : js_string) :
  (count_occ Z.eq_dec e 58 <> 1%nat ->
   EncryptedTokenManager.decrypt this e
   = Throws (Error "Invalid encrypted data format")) /\
  (forall f1 f2 : js_string,
      e = f1 ++ [58] ++ f2 -> ~ In 58 f1 -> ~ In 58 f2 ->
      length (hex_decode f1) <> 16%nat
      \/ Nat.even (length f2) = false
      \/ length (hex_decode f2) = 0%nat
      \/ (length (hex_decode f2) mod 16 <> 0)%nat ->
      exists err, EncryptedTokenManager.decrypt this e = Throws err) /\
  (forall (f1 f2 : js_string) (u : code_unit) (rest : js_string),
      e = f1 ++ [58] ++ f2 -> ~ In 58 f1 -> ~ In 58 f2 ->
      f1 = [] \/ f2 = []
      \/ (f1 = u :: rest /\ is_hex_digit (low_byte u) = false)
      \/ (f2 = u :: rest /\ is_hex_digit (low_byte u) = false) ->
      exists err, EncryptedTokenManager.decrypt this e = Throws err) /\
  (forall f1 f2 g1 g2 : js_string,
      e = f1 ++ [58] ++ f2 -> ~ In 58 f1 -> ~ In 58 f2 ->
      ~ In 58 g1 -> ~ In 58 g2 ->
      hex_decode g1 = hex_decode f1 -> hex_decode g2 = hex_decode f2 ->
      Nat.even (length g2) = Nat.even (length f2) ->
      EncryptedTokenManager.decrypt this (g1 ++ [58] ++ g2)
      = EncryptedTokenManager.decrypt this e) /\
  (forall (w : world) (content : list byte) (err : exn),
      token_file (fs w) = Regular content -> utf8_decode content = e ->
      EncryptedTokenManager.decrypt this e = Throws err ->
      exists w', EncryptedTokenManager.getToken this w = (w', Returned None)).
Proof.
  assert (Hfields : forall f1 f2 : js_string,
             e = f1 ++ [58] ++ f2 -> ~ In 58 f1 -> ~ In 58 f2 ->
             length (hex_decode f1) <> 16%nat
             \/ Nat.even (length f2) = false
             \/ length (hex_decode f2) = 0%nat
             \/ (length (hex_decode f2) mod 16 <> 0)%nat ->
             exists err, EncryptedTokenManager.decrypt this e = Throws err).
  { intros f1 f2 -> Hf1 Hf2 Hbad.
    unfold EncryptedTokenManager.decrypt. cbn [app].
    rewrite StringFacts.split_on_app, StringFacts.split_on_no_sep
      by assumption.
    cbn [length Nat.eqb negb nth].
    destruct (Crypto.create_iv
                (hex_decode (EncryptedTokenManager.encryptionKey this))
                (hex_decode f1)) as [[ks ivb] | err0] eqn:Hiv;
      cbn [bind]; [ | eexists; reflexivity ].
    unfold Crypto.hex_input.
    destruct (Nat.even (length f2)) eqn:Heven;
      cbn [bind]; [ | eexists; reflexivity ].
    unfold Crypto.decipher_output.
    destruct (Nat.eqb_spec (length (hex_decode f2)) 0) as [E0 | E0];
      cbn [orb]; [eexists; reflexivity | ].
    destruct (Nat.eqb_spec (length (hex_decode f2) mod 16) 0) as [E1 | E1];
      cbn [negb]; [ | eexists; reflexivity ].
    exfalso. destruct Hbad as [H | [H | [H | H]]].
    - destruct (StoreFacts.create_iv_other
                  (hex_decode (EncryptedTokenManager.encryptionKey this))
                  (hex_decode f1) H) as [err1 Herr1].
      rewrite Hiv in Herr1. discriminate.
    - discriminate.
    - contradiction.
    - contradiction. }
  split; [ | split; [exact Hfields | split; [ | split ] ] ].
  - intros Hcount. unfold EncryptedTokenManager.decrypt.
    rewrite StringFacts.split_on_length.
    destruct (Nat.eqb_spec (S (count_occ Z.eq_dec e 58)) 2) as [E | E];
      [lia | reflexivity].
  - intros f1 f2 u rest He Hf1 Hf2 Hshape.
    apply (Hfields f1 f2 He Hf1 Hf2).
    destruct Hshape as [-> | [-> | [[-> Hu] | [-> Hu]]]].
    + left. cbn [hex_decode length]. discriminate.
    + right. right. left. reflexivity.
    + left. rewrite StringFacts.hex_decode_not_digit by exact Hu.
      cbn [length]. discriminate.
    + right. right. left.
      rewrite StringFacts.hex_decode_not_digit by exact Hu. reflexivity.
  - intros f1 f2 g1 g2 -> Hf1 Hf2 Hg1 Hg2 H1 H2 Heven.
    unfold EncryptedTokenManager.decrypt, Crypto.hex_input. cbn [app].
    rewrite !StringFacts.split_on_app, !StringFacts.split_on_no_sep
      by assumption.
    cbn [length Nat.eqb negb nth]. rewrite H1, H2, Heven. reflexivity.
  - intros w content err Hfile <- Hthrow.
    rewrite StoreRuns.getToken_cases, Hfile, Hthrow.
    eexists. reflexivity.
Qed.

Lemma C4_rejected_witness :
  EncryptedTokenManager.decrypt sample_manager (js "00:01:02")
  = Throws (Error "Invalid encrypted data format") /\
  (exists err,
      EncryptedTokenManager.decrypt sample_manager
        (js "" ++ [58] ++ js "9d2be6e336eedb1689487783d938740e") = Throws err) /\
  (exists w',
      EncryptedTokenManager.getToken sample_manager
        (world_with_token_file (js "00:01:02")) = (w', Returned None)).
Proof.
  destruct (C4_malformed_envelope_rejected sample_manager (js "00:01:02"))
    as [Hcolons [_ [_ [_ Habsent]]]].
  destruct (C4_malformed_envelope_rejected sample_manager
              (js "" ++ [58] ++ js "9d2be6e336eedb1689487783d938740e"))
    as [_ [Hfields [Hshape _]]].
  assert (Hthrow : EncryptedTokenManager.decrypt sample_manager (js "00:01:02")
                   = Throws (Error "Invalid encrypted data format")).
  { apply Hcolons. vm_compute. discriminate. }
  split; [exact Hthrow | split].
  - apply (Hfields (js "") (js "9d2be6e336eedb1689487783d938740e") eq_refl).
    + vm_compute. tauto.
    + vm_compute. intuition discriminate.
    + left. vm_compute. discriminate.
  - apply (Habsent (world_with_token_file (js "00:01:02"))
             (utf8_encode (js "00:01:02"))
             (Error "Invalid encrypted data format")).
    + reflexivity.
    + vm_compute. reflexivity.
    + exact Hthrow.
Defined.

(** C4 as stated fails: two units that are not hexadecimal digits after
    the 32 digits of the IV are skipped by [Buffer.from(_, "hex")], so this
    envelope, whose first field is not a hexadecimal string, is decrypted
    and [getToken] returns its credential. *)
Lemma C4_trailing_units_accepted :
  let e := js "000102030405060708090a0b0c0d0e0fzz:9d2be6e336eedb1689487783d938740e" in
  let w := world_with_token_file e in
  split_on 58 e = [js "000102030405060708090a0b0c0d0e0fzz";
                   js "9d2be6e336eedb1689487783d938740e"] /\
  forallb is_hex_digit (js "000102030405060708090a0b0c0d0e0fzz") = false /\
  EncryptedTokenManager.decrypt sample_manager e = Returns (js "sk-abc") /\
  EncryptedTokenManager.getToken sample_manager w
  = (w, Returned (Some (js "sk-abc"))).
Proof. vm_compute. repeat split; reflexivity. Qed.

(** A field is read by the low bytes of its units: with U+0130 for the
    first 0 of the IV and U+0139 for the 9 that starts the ciphertext, the
    envelope above (without its zz) is decrypted all the same. *)
Example low_bytes_are_read :
  EncryptedTokenManager.decrypt sample_manager
    ([304] ++ js "00102030405060708090a0b0c0d0e0f:"
     ++ [313] ++ js "d2be6e336eedb1689487783d938740e")
  = Returns (js "sk-abc").
Proof. vm_compute. reflexivity. Qed.

(** Envelopes of each rejected kind, as [getToken] meets them in the
    token file. *)
Example malformed_envelopes_are_absent :
  forallb (fun e =>
             match snd (EncryptedTokenManager.getToken sample_manager
                          (world_with_token_file (js e)))
             with
             | Returned None => true
             | _ => false
             end)
          [ ""%string;
            "000102030405060708090a0b0c0d0e0f9d2be6e336eedb1689487783d938740e"%string;
            "00:01:02"%string;
            ":9d2be6e336eedb1689487783d938740e"%string;
            "000102030405060708090a0b0c0d0e0f:"%string;
            "zz0102030405060708090a0b0c0d0e0f:9d2be6e336eedb1689487783d938740e"%string;
            "000102030405060708090a0b0c0d0e0f:zz2be6e336eedb1689487783d938740e"%string;
            "000102030405060708090a0b0c0d0e0f:9d2be6e336eedb1689487783d938740"%string;
            "000102030405060708090a0b0c0d0e0f:9d2be6e336eedb1689487783d938740f"%string ]
  = true.
Proof. vm_compute. reflexivity. Qed.

(** ** Properties of the suggestion pipeline *)

(** C5.  [formatCommitMessage] is a total function of its three strings.
    Its result is type, "(" scope ")" when the scope is not empty, ": ",
    the emoji, " ", and the message, where the emoji is the one of the
    catalog entry with that type, and the empty string when the catalog has
    no such entry.  The two examples of the specification hold. *)
Theorem C5_format_commit_message (type scope message : js_string) :
  (exists emoji : js_string,
      ((exists t, In t COMMIT_TYPES /\ CommitType.type t = type
                  /\ emoji = CommitType.emoji t)
       \/ ((forall t, In t COMMIT_TYPES -> CommitType.type t <> type)
           /\ emoji = js "")) /\
      AICommitGenerator.formatCommitMessage type scope message
      = match scope with
        | [] => type ++ js ": " ++ emoji ++ js " " ++ message
        | _ :: _ => type ++ js "(" ++ scope ++ js "): " ++ emoji ++ js " "
                    ++ message
        end) /\
  NoDup (map CommitType.type COMMIT_TYPES) /\
  AICommitGenerator.formatCommitMessage
    (js "feat") (js "auth") (js "implement OAuth2 login flow")
  = js "feat(auth): ✨ implement OAuth2 login flow" /\
  AICommitGenerator.formatCommitMessage
    (js "docs") (js "") (js "add installation instructions")
  = js "docs: 📚 add installation instructions" /\
  AICommitGenerator.formatCommitMessage
    (js "wip") (js "") (js "try things")
  = js "wip:  try things".
Proof.
  split; [ | split; [ | vm_compute; repeat split; reflexivity ] ].
  - unfold AICommitGenerator.formatCommitMessage.
    destruct (find (fun t => str_eqb (CommitType.type t) type) COMMIT_TYPES)
      as [t | ] eqn:Hfind.
    + exists (CommitType.emoji t). split.
      * left. exists t. apply find_some in Hfind. destruct Hfind as [Hin Heq].
        apply StoreFacts.str_eqb_eq in Heq. repeat split; assumption.
      * replace (if str_truthy (CommitType.emoji t)
                 then CommitType.emoji t else js "")
          with (CommitType.emoji t)
          by (destruct (CommitType.emoji t); reflexivity).
        destruct scope as [| c scope]; [reflexivity | ].
        cbn [str_truthy].
        change (js "): ") with (js ")" ++ js ": ").
        rewrite <- !app_assoc. reflexivity.
    + exists (js ""). split.
      * right. split; [ | reflexivity ].
        intros t Hin Heq.
        apply (find_none _ _ Hfind) in Hin.
        apply StoreFacts.str_eqb_eq in Heq. rewrite Heq in Hin. discriminate.
      * destruct scope as [| c scope]; [reflexivity | ].
        cbn [str_truthy].
        change (js "): ") with (js ")" ++ js ": ").
        rewrite <- !app_assoc. reflexivity.
  - vm_compute. repeat constructor; cbn [In]; intuition discriminate.
Qed.

(** C3.  Once the token is there: when the service call fails, or the
    response has no content, or the content does not parse, the result is
    the fallback set, returned normally after the request and one line on
    the error stream; and whatever the service does,
    [generateCommitSuggestions] returns: nothing is thrown to the caller. *)
Theorem C3_fallback_on_service_failure (env : environment) (diff : js_string)
  (w w1 : world) (token : js_string) :
  AICommitGenerator.getOrRequestToken env w = (w1, Returned token) ->
  (no_usable_response env diff ->
   exists err : exn,
     AICommitGenerator.generateCommitSuggestions env diff w
     = (mk_world (fs w1)
          (trace w1 ++ [Request (AICommitGenerator.build_prompt diff)]
           ++ [ConsoleError (js "❌ Failed to generate AI suggestions:") (Some err)]),
        Returned
          (AICommitGenerator.mk_suggestions
             (Array [String (js "feat"); String (js "fix"); String (js "chore")])
             (Array [])
             (Array [String (js "update code");
                     String (js "improve functionality")]))))
  /\ (exists (w' : world) (s : AICommitGenerator.suggestions),
         AICommitGenerator.generateCommitSuggestions env diff w
         = (w', Returned s)).
Proof.
  intros Htoken.
  rewrite (GeneratorRuns.generateCommitSuggestions_cases env diff w w1 token Htoken).
  unfold no_usable_response. cbv zeta.
  unfold logged, suggestion_failure. cbn [fs trace].
  destruct (create_completion env (AICommitGenerator.build_prompt diff))
    as [response | e].
  - destruct (AICommitGenerator.first_content response) as [[| c content] | ].
    + split; [intros _ | ]; eexists; try eexists;
        rewrite <- ?app_assoc; reflexivity.
    + destruct (JSON.parse (c :: content)) as [parsed | e].
      * split; [intros [e He]; discriminate | ].
        destruct parsed; eexists; eexists; reflexivity.
      * split; [intros _ | ]; eexists; try eexists;
          rewrite <- ?app_assoc; reflexivity.
    + split; [intros _ | ]; eexists; try eexists;
        rewrite <- ?app_assoc; reflexivity.
  - split; [intros _ | ]; eexists; try eexists;
      rewrite <- ?app_assoc; reflexivity.
Qed.

Lemma C3_fallback_witness :
  let env := sample_environment (fun _ => Throws (ServiceError 401))
                                (fun _ => Returns []) in
  let diff := js "diff --git a/README.md b/README.md" in
  (exists w1, AICommitGenerator.getOrRequestToken env empty_world
              = (w1, Returned (js "sk-abc")))
  /\ no_usable_response env diff
  /\ exists (w' : world),
       AICommitGenerator.generateCommitSuggestions env diff empty_world
       = (w', Returned
                (AICommitGenerator.mk_suggestions
                   (Array [String (js "feat"); String (js "fix");
                           String (js "chore")])
                   (Array [])
                   (Array [String (js "update code");
                           String (js "improve functionality")]))).
Proof.
  cbv zeta.
  assert (Htoken :
            AICommitGenerator.getOrRequestToken
              (sample_environment (fun _ => Throws (ServiceError 401))
                                  (fun _ => Returns []))
              empty_world
            = (fst (AICommitGenerator.getOrRequestToken
                      (sample_environment (fun _ => Throws (ServiceError 401))
                                          (fun _ => Returns []))
                      empty_world),
               Returned (js "sk-abc")))
    by (vm_compute; reflexivity).
  split; [eexists; exact Htoken | ].
  split; [exact I | ].
  destruct (C3_fallback_on_service_failure _
              (js "diff --git a/README.md b/README.md") _ _ _ Htoken)
    as [Hfallback _].
  destruct (Hfallback I) as [err Herr].
  eexists. exact Herr.
Defined.

Lemma or_else_array_present (v : value) : present (or_else v (Array [])).
Proof.
  unfold present, or_else.
  destruct v; cbn [truthy]; try (split; discriminate).
  - destruct b; split; discriminate.
  - destruct (negb (number_is_zero n)); split; discriminate.
  - destruct (str_truthy s); split; discriminate.
Qed.

(** C7, as amended.  Once the token is there and the service has returned a
    content that parses as JSON, [generateCommitSuggestions] returns a set
    whose three fields are all present.  For a response that is an object, a
    field is the empty array when its key is missing (or holds a falsy
    value), and otherwise the value found under its key, so it is the array
    of strings found there when there is one; for a response that is not an
    object (a number, a string, a boolean, an array) the three fields are
    empty arrays; for the response [null] the set is the fallback set.
    The value found under a key is passed on as it is: nothing checks that
    it is an array, or that its elements are strings. *)
Theorem C7_fields_default_to_empty (env : environment) (diff : js_string)
  (w w1 : world) (token : js_string) (response : chat_completion)
  (c : code_unit) (content : js_string) (parsed : value) :
  AICommitGenerator.getOrRequestToken env w = (w1, Returned token) ->
  create_completion env (AICommitGenerator.build_prompt diff) = Returns response ->
  AICommitGenerator.first_content response = Some (c :: content) ->
  JSON.parse (c :: content) = Returns parsed ->
  fields_as_delivered env diff w parsed.
Proof.
  intros Htoken Hservice Hcontent Hparse. unfold fields_as_delivered.
  rewrite (GeneratorRuns.generateCommitSuggestions_cases env diff w w1 token Htoken).
  cbv zeta. rewrite Hservice, Hcontent, Hparse.
  destruct parsed as [ | | b | n | s0 | items | props ];
    eexists; eexists; (split; [reflexivity | ]).
  1, 2: repeat split; discriminate.
  1, 2, 3, 4: repeat split; discriminate.
  unfold suggestions_of.
  cbn [AICommitGenerator.suggestedTypes AICommitGenerator.suggestedScopes
       AICommitGenerator.commitMessages own].
  split; [apply or_else_array_present | ].
  split; [apply or_else_array_present | ].
  split; [apply or_else_array_present | ].
  unfold delivered.
  split; [destruct (lookup (js "types") props); reflexivity | ].
  split; [destruct (lookup (js "scopes") props); reflexivity | ].
  split; [destruct (lookup (js "messages") props); reflexivity | ].
  split; [ | split ]; intros l ->; reflexivity.
Qed.

Lemma C7_fields_witness :
  let text := json_text "{'types':['fix','docs'],'messages':['tidy up']}" in
  let env := sample_environment (fun _ => Returns (one_choice text))
                                (fun _ => Returns []) in
  let parsed :=
    Object [(js "types", Array [String (js "fix"); String (js "docs")]);
            (js "messages", Array [String (js "tidy up")])] in
  JSON.parse text = Returns parsed /\
  fields_as_delivered env sample_diff empty_world parsed.
Proof.
  cbv zeta. split; [vm_compute; reflexivity | ].
  apply (C7_fields_default_to_empty
           (sample_environment
              (fun _ => Returns
                          (one_choice
                             (json_text "{'types':['fix','docs'],'messages':['tidy up']}")))
              (fun _ => Returns []))
           sample_diff empty_world
           (fst (AICommitGenerator.getOrRequestToken
                   (sample_environment (fun _ => Returns (one_choice []))
                                       (fun _ => Returns []))
                   empty_world))
           (js "sk-abc")
           (one_choice (json_text "{'types':['fix','docs'],'messages':['tidy up']}"))
           123
           (skipn 1 (json_text "{'types':['fix','docs'],'messages':['tidy up']}"))).
  - vm_compute. reflexivity.
  - reflexivity.
  - vm_compute. reflexivity.
  - vm_compute. reflexivity.
Defined.

(** C7 as stated fails: the service answers with a JSON text in which
    "types" holds a number in its array and "scopes" holds a string; both
    are returned as they are, so one list holds a number and one field is
    not a list. *)
Lemma C7_values_not_checked :
  let text := json_text "{'types':[1],'scopes':'api'}" in
  let env := sample_environment (fun _ => Returns (one_choice text))
                                (fun _ => Returns []) in
  JSON.parse text
  = Returns (Object [(js "types", Array [Number (mk_number 1 0)]);
                     (js "scopes", String (js "api"))]) /\
  snd (AICommitGenerator.generateCommitSuggestions env sample_diff empty_world)
  = Returned (AICommitGenerator.mk_suggestions
                (Array [Number (mk_number 1 0)])
                (String (js "api"))
                (Array [])).
Proof. vm_compute. split; reflexivity. Qed.

(** ** The workflow *)

(** C8.  When the staged diff and the unstaged diff are both blank,
    [generateCommit] ends the process with status 0, having run the two
    diff commands and printed its notice and nothing else: no request to the
    service, no question to the user, no command that stages or commits.
    So does the whole process, started without an option inside a
    repository. *)
Theorem C8_blank_diff_exits_0 (env : environment) (w : world)
  (staged unstaged : js_string) :
  execSync env (js "git diff --cached") = Returns staged ->
  trim staged = [] ->
  execSync env (js "git diff") = Returns unstaged ->
  trim unstaged = [] ->
  let did :=
    [ConsoleLog analyzing;
     Exec (js "git diff --cached");
     Exec (js "git diff");
     ConsoleLog no_changes] in
  AICommitGenerator.generateCommit env w
  = (mk_world (fs w) (trace w ++ did), Exited 0)
  /\ (AICommitGenerator.args_include env (js "--help") = false ->
      AICommitGenerator.args_include env (js "-h") = false ->
      AICommitGenerator.args_include env (js "--token") = false ->
      in_git_repository env = true ->
      AICommitGenerator.run env w
      = (mk_world (fs w) (trace w ++ ConsoleLog banner :: did), Exited 0)
      /\ AICommitGenerator.main env w
         = (mk_world (fs w) (trace w ++ ConsoleLog banner :: did), 0))
  /\ Forall (fun ev => match ev with
                       | Request _ | Ask _ => False
                       | Exec cmd => cmd = js "git diff --cached"
                                     \/ cmd = js "git diff"
                       | _ => True
                       end) did.
Proof.
  intros Hs Hst Hu Hut. cbv zeta.
  assert (Hgen : forall w0,
             AICommitGenerator.generateCommit env w0
             = (mk_world (fs w0)
                  (trace w0 ++ [ConsoleLog analyzing;
                                Exec (js "git diff --cached");
                                Exec (js "git diff");
                                ConsoleLog no_changes]),
                Exited 0)).
  { intros w0. unfold AICommitGenerator.generateCommit.
    unfold catch. unfold mbind at 1.
    unfold AICommitGenerator.log at 1. unfold emit.
    unfold mbind at 1.
    rewrite (GeneratorRuns.getGitDiff_blank env _ staged unstaged Hs Hst Hu Hut).
    cbn [fs trace]. unfold analyzing.
    rewrite <- !app_assoc. reflexivity. }
  assert (Hrun : AICommitGenerator.args_include env (js "--help") = false ->
                 AICommitGenerator.args_include env (js "-h") = false ->
                 AICommitGenerator.args_include env (js "--token") = false ->
                 in_git_repository env = true ->
                 AICommitGenerator.run env w
                 = (mk_world (fs w)
                      (trace w ++ ConsoleLog banner ::
                       [ConsoleLog analyzing;
                        Exec (js "git diff --cached");
                        Exec (js "git diff");
                        ConsoleLog no_changes]),
                    Exited 0)).
  { intros Hhelp Hh Htok Hrepo.
    unfold AICommitGenerator.run. rewrite Hhelp, Hh, Htok, Hrepo.
    cbn [orb negb]. unfold mbind at 1.
    unfold AICommitGenerator.log at 1. unfold emit.
    unfold mbind at 1. unfold ret at 1.
    rewrite Hgen. cbn [fs trace]. unfold banner.
    rewrite <- !app_assoc. reflexivity. }
  split; [apply Hgen | split].
  - intros Hhelp Hh Htok Hrepo. split; [apply Hrun; assumption | ].
    unfold AICommitGenerator.main. rewrite Hrun by assumption. reflexivity.
  - constructor; [exact I | ].
    constructor; [left; reflexivity | ].
    constructor; [right; reflexivity | ].
    constructor; [exact I | constructor].
Qed.

Lemma C8_blank_diff_witness :
  let env := sample_environment (fun _ => Throws (ServiceError 500))
                                (fun cmd => Returns (js "
")) in
  trim (js "
") = [] /\
  snd (AICommitGenerator.generateCommit env empty_world) = Exited 0 /\
  snd (AICommitGenerator.run env empty_world) = Exited 0 /\
  snd (AICommitGenerator.main env empty_world) = 0.
Proof.
  cbv zeta. split; [reflexivity | ].
  destruct (C8_blank_diff_exits_0
              (sample_environment (fun _ => Throws (ServiceError 500))
                                  (fun cmd => Returns (js "
")))
              empty_world (js "
") (js "
") eq_refl eq_refl eq_refl eq_refl) as [Hgen [Hrun _]].
  destruct (Hrun eq_refl eq_refl eq_refl eq_refl) as [Hrun' Hmain].
  split; [rewrite Hgen; reflexivity | ].
  split; [rewrite Hrun'; reflexivity | rewrite Hmain; reflexivity].
Defined.

(* ====================================================================== *)
(** * Part IV.  More of the program *)
(* ====================================================================== *)

(** ** Rules for [runs] *)

Module RunRules.

Section Rules.

Context {A : Type}.
Variable E : event -> Prop.
Variable T : exn -> Prop.
Variable S : Z -> Prop.

Lemma runs_ret (Q : A -> Prop) (a : A) : Q a -> runs (ret a) E Q T S.
Proof.
  intros H w w' r Hrun. inversion Hrun; subst. split; [ | exact H ].
  exists []. rewrite app_nil_r. split; [reflexivity | constructor].
Qed.

Lemma runs_throw (Q : A -> Prop) (e : exn) : T e -> runs (throw e) E Q T S.
Proof.
  intros H w w' r Hrun. inversion Hrun; subst. split; [ | exact H ].
  exists []. rewrite app_nil_r. split; [reflexivity | constructor].
Qed.

Lemma runs_exit (Q : A -> Prop) (n : Z) : S n -> runs (exit n) E Q T S.
Proof.
  intros H w w' r Hrun. inversion Hrun; subst. split; [ | exact H ].
  exists []. rewrite app_nil_r. split; [reflexivity | constructor].
Qed.

Lemma runs_lift (Q : A -> Prop) (r : result A) :
  match r with Returns a => Q a | Throws e => T e end ->
  runs (lift r) E Q T S.
Proof.
  intros H w w' r' Hrun. inversion Hrun; subst. split.
  - exists []. rewrite app_nil_r. split; [reflexivity | constructor].
  - destruct r; exact H.
Qed.

Lemma runs_weaken (m : M A) (E' : event -> Prop) (Q Q' : A -> Prop)
  (T' : exn -> Prop) (S' : Z -> Prop) :
  runs m E' Q' T' S' ->
  (forall ev, E' ev -> E ev) -> (forall a, Q' a -> Q a) ->
  (forall e, T' e -> T e) -> (forall n, S' n -> S n) ->
  runs m E Q T S.
Proof.
  intros H HE HQ HT HS w w' r Hrun.
  destruct (H w w' r Hrun) as [[evs [Htr Hevs]] Hr]. split.
  - exists evs. split; [exact Htr | ].
    eapply Forall_impl; [ exact HE | exact Hevs ].
  - destruct r; auto.
Qed.

Lemma runs_catch (m : M A) (h : exn -> M A) (Q : A -> Prop) :
  runs m E Q (fun e => runs (h e) E Q T S) S ->
  runs (catch m h) E Q T S.
Proof.
  intros H w w' r Hrun. unfold catch in Hrun.
  destruct (m w) as [w1 r1] eqn:E1.
  destruct (H w w1 r1 E1) as [[evs [Htr Hevs]] Hr].
  destruct r1 as [a | e | n].
  - inversion Hrun; subst. split; [exists evs; split; assumption | exact Hr].
  - destruct (Hr w1 w' r Hrun) as [[evs' [Htr' Hevs']] Hr'].
    split; [ | exact Hr' ].
    exists (evs ++ evs'). rewrite Htr', Htr, app_assoc.
    split; [reflexivity | apply Forall_app; split; assumption].
  - inversion Hrun; subst. split; [exists evs; split; assumption | exact Hr].
Qed.

End Rules.

Lemma runs_bind {A B : Type} (m : M A) (f : A -> M B)
  (E : event -> Prop) (Q : B -> Prop) (T : exn -> Prop) (S : Z -> Prop) :
  runs m E (fun a => runs (f a) E Q T S) T S ->
  runs (mbind m f) E Q T S.
Proof.
  intros H w w' r Hrun. unfold mbind in Hrun.
  destruct (m w) as [w1 r1] eqn:E1.
  destruct (H w w1 r1 E1) as [[evs [Htr Hevs]] Hr].
  destruct r1 as [a | e | n].
  - destruct (Hr w1 w' r Hrun) as [[evs' [Htr' Hevs']] Hr'].
    split; [ | exact Hr' ].
    exists (evs ++ evs'). rewrite Htr', Htr, app_assoc.
    split; [reflexivity | apply Forall_app; split; assumption].
  - inversion Hrun; subst. split; [exists evs; split; assumption | exact Hr].
  - inversion Hrun; subst. split; [exists evs; split; assumption | exact Hr].
Qed.

Lemma runs_emit (ev : event) (E : event -> Prop) (Q : unit -> Prop)
  (T : exn -> Prop) (S : Z -> Prop) :
  E ev -> Q tt -> runs (emit ev) E Q T S.
Proof.
  intros Hev HQ w w' r Hrun. inversion Hrun; subst. split; [ | exact HQ ].
  exists [ev]. split; [reflexivity | constructor; [exact Hev | constructor]].
Qed.

Lemma runs_get_fs (E : event -> Prop) (Q : file_system -> Prop)
  (T : exn -> Prop) (S : Z -> Prop) :
  (forall f, Q f) -> runs get_fs E Q T S.
Proof.
  intros HQ w w' r Hrun. inversion Hrun; subst. split; [ | apply HQ ].
  exists []. rewrite app_nil_r. split; [reflexivity | constructor].
Qed.

Lemma runs_put_fs (f : file_system) (E : event -> Prop)
  (Q : unit -> Prop) (T : exn -> Prop) (S : Z -> Prop) :
  Q tt -> runs (put_fs f) E Q T S.
Proof.
  intros HQ w w' r Hrun. inversion Hrun; subst. split; [ | exact HQ ].
  exists []. cbn [trace]. rewrite app_nil_r.
  split; [reflexivity | constructor].
Qed.

(** A step that returned. *)
Lemma mbind_returned {A B : Type} (m : M A) (f : A -> M B) (w w1 : world)
  (a : A) :
  m w = (w1, Returned a) -> mbind m f w = f a w1.
Proof. intros H. unfold mbind. rewrite H. reflexivity. Qed.

(** What a run says of one world. *)
Lemma runs_at {A : Type} (m : M A) (E : event -> Prop) (Q : A -> Prop)
  (T : exn -> Prop) (S : Z -> Prop) (w w' : world) (r : ending A) :
  runs m E Q T S -> m w = (w', r) ->
  (exists evs, trace w' = trace w ++ evs /\ Forall E evs) /\
  match r with
  | Returned a => Q a
  | Threw e => T e
  | Exited n => S n
  end.
Proof. intros H Hrun. exact (H w w' r Hrun). Qed.

End RunRules.

(** ** What each procedure may do, by the rules *)

Module ProgramRuns.

Import RunRules EncryptedTokenManager AICommitGenerator.

(** The trace of the world reached is the trace of the start and a list of
    events that is read off the goal. *)
Ltac extends :=
  cbn [fs trace];
  first
    [ exists []; split; [symmetry; apply app_nil_r | constructor]
    | eexists; split;
      [ rewrite <- ?app_assoc; reflexivity
      | repeat (constructor; try exact I) ] ].

Ltac below :=
  let ev := fresh "ev" in
  let H := fresh "H" in
  intros ev H; destruct ev; cbn in H |- *; first [exact I | contradiction | exact H].

Lemma getToken_runs (this : t) :
  runs (getToken this) console anything nothing nothing.
Proof.
  intros w w' r H. rewrite StoreRuns.getToken_cases in H.
  destruct (token_file (fs w)) as [| content | ].
  - inversion H; subst. split; [extends | exact I].
  - destruct (decrypt this (utf8_decode content));
      inversion H; subst; (split; [extends | exact I]).
  - inversion H; subst. split; [extends | exact I].
Qed.

Lemma hasToken_runs (this : t) :
  runs (hasToken this) console anything nothing nothing.
Proof.
  unfold hasToken. apply runs_bind.
  eapply runs_weaken; [apply getToken_runs | auto ..].
  intros token _. apply runs_ret. exact I.
Qed.

Lemma setToken_runs (this : t) (iv : AES.block) (token : js_string) :
  runs (setToken this iv token) console anything anything nothing.
Proof.
  intros w w' r.
  unfold setToken, catch, mbind, ensureConfigDir, writeFileSync_tokenFile,
    mbind, get_fs, put_fs, lift, ret, throw, emit.
  destruct w as [[dir file ro cap] tr].
  cbn [fs trace config_dir_exists read_only token_file capacity negb].
  destruct (encrypt this iv token) as [e | err];
    destruct dir, ro, file;
    cbn [fs trace config_dir_exists read_only token_file capacity negb];
    try match goal with
        | |- context [(length (taken ?f ?bytes) <? _)%nat] =>
            destruct (length (taken f bytes) <? length bytes)%nat
        end;
    cbn [fs trace];
    intros H; inversion H; subst; clear H;
    (split; [extends | exact I]).
Qed.

Lemma clearToken_runs (this : t) :
  runs (clearToken this) console anything nothing nothing.
Proof.
  intros w w' r.
  unfold clearToken, catch, mbind, unlinkSync_tokenFile, existsSync_tokenFile,
    mbind, get_fs, put_fs, lift, ret, throw, emit.
  destruct w as [[dir file ro cap] tr].
  cbn [fs trace config_dir_exists read_only token_file capacity negb].
  destruct ro, file;
    cbn [fs trace config_dir_exists read_only token_file capacity negb];
    intros H; inversion H; subst; clear H;
    (split; [extends | exact I]).
Qed.

Lemma ask_runs {A : Type} (name : js_string) (answer : result A) :
  runs (ask name answer) stays_local (fun a => answer = Returns a)
       (fun e => answer = Throws e) nothing.
Proof.
  unfold ask. apply runs_bind, runs_emit; [exact I | ].
  apply runs_lift. destruct answer; reflexivity.
Qed.

Lemma log_runs (text : js_string) :
  runs (log text) console anything nothing nothing.
Proof. apply runs_emit; exact I. Qed.

Lemma exec_runs (env : environment) (cmd : js_string) :
  runs (exec env cmd) (commands (eq cmd))
       (fun out => execSync env cmd = Returns out)
       (fun e => execSync env cmd = Throws e) nothing.
Proof.
  unfold exec. apply runs_bind, runs_emit; [reflexivity | ].
  apply runs_lift. destruct (execSync env cmd); reflexivity.
Qed.


Ltac call L := apply runs_bind; eapply runs_weaken; [ apply L | .. ].
Ltac tail L := eapply runs_weaken; [ apply L | .. ].

Ltac never := let x := fresh in let H := fresh in intros x H; destruct H.
Ltac always := intros; exact I.

Section Generator.

Variable env : environment.

Lemma requestToken_runs :
  runs (requestToken env) stays_local anything anything nothing.
Proof.
  unfold requestToken.
  call log_runs; [below | intros _ _ | never | never].
  call log_runs; [below | intros _ _ | never | never].
  call (@ask_runs js_string); [below | intros apiToken _ | always | never].
  call (@ask_runs bool); [below | intros saveToken _ | always | never].
  apply runs_bind.
  destruct saveToken.
  - tail setToken_runs; [below | intros _ _ | always | never].
    apply runs_ret. exact I.
  - apply runs_ret. apply runs_ret. exact I.
Qed.

Lemma getOrRequestToken_runs :
  runs (getOrRequestToken env) stays_local anything anything nothing.
Proof.
  unfold getOrRequestToken.
  call getToken_runs; [below | intros token _ | never | never].
  destruct token as [token | ]; [destruct (str_truthy token) | ];
    try apply requestToken_runs.
  apply runs_ret. exact I.
Qed.

Lemma setNewToken_runs :
  runs (setNewToken env) stays_local anything anything nothing.
Proof.
  unfold setNewToken.
  call (@ask_runs js_string); [below | intros apiToken _ | always | never].
  tail setToken_runs; [below | always | always | never].
Qed.

Lemma showTokenStatus_runs :
  runs (showTokenStatus env) stays_local anything nothing nothing.
Proof.
  unfold showTokenStatus.
  call hasToken_runs; [below | intros hasToken _ | never | never].
  call log_runs; [below | intros _ _ | never | never].
  apply runs_bind.
  assert (Hlast : runs (log (js "")) stays_local anything nothing nothing)
    by (tail log_runs; [below | always | never | never]).
  destruct hasToken.
  - call getToken_runs; [below | intros token _ | never | never].
    destruct token as [token | ].
    + tail log_runs; [below | intros _ _; exact Hlast | never | never].
    + apply runs_ret. exact Hlast.
  - apply runs_ret. exact Hlast.
Qed.

Lemma showTokenManagementMenu_runs :
  runs (showTokenManagementMenu env) stays_local anything anything nothing.
Proof.
  unfold showTokenManagementMenu.
  call (@ask_runs js_string); [below | intros action _ | always | never].
  destruct (str_eqb action (js "set")); [apply setNewToken_runs | ].
  destruct (str_eqb action (js "clear")).
  { tail clearToken_runs; [below | always | never | never]. }
  destruct (str_eqb action (js "status")).
  { tail showTokenStatus_runs; [below | always | never | never]. }
  apply runs_ret. exact I.
Qed.

Lemma generateCommitSuggestions_runs (diff : js_string) :
  runs (generateCommitSuggestions env diff) (commands nothing)
       anything anything nothing.
Proof.
  unfold generateCommitSuggestions.
  call getOrRequestToken_runs; [below | intros token _ | always | never].
  apply runs_catch.
  eapply runs_weaken with (T' := anything) (Q' := anything) (S' := nothing);
    [ | intros ev H; exact H | always | | never ].
  2: { intros e _. apply runs_bind, runs_emit; [exact I | ].
       apply runs_ret. exact I. }
  apply runs_bind. apply runs_bind, runs_emit; [exact I | ].
  apply runs_lift.
  destruct (create_completion env (build_prompt diff)) as [response | e];
    [ | exact I ].
  destruct (first_content response) as [[| c content] | ];
    try (apply runs_throw; exact I).
  repeat (apply runs_bind, runs_lift;
          match goal with
          | |- match ?r with Returns _ => _ | Throws _ => _ end =>
              destruct r; [ | exact I ]
          end).
  apply runs_ret. exact I.
Qed.

Lemma getGitDiff_runs :
  runs (getGitDiff env) (commands reads_repository)
       (fun diff => trim diff <> []) nothing zero_or_one.
Proof.
  unfold getGitDiff. apply runs_catch.
  eapply runs_weaken with (T' := anything) (S' := zero_or_one);
    [ | intros ev H; exact H | intros ? H; exact H | | intros n H; exact H ].
  2: { intros e _. apply runs_bind, runs_emit; [exact I | ].
       apply runs_exit. right. reflexivity. }
  call exec_runs; [ | intros staged _ | always | never ].
  { intros [ | | cmd | | ]; cbn [commands]; try (intros; exact I).
    intros <-. left. reflexivity. }
  apply runs_bind.
  assert (Hrest : forall diff : js_string,
             runs ((if negb (str_truthy (trim diff))
                    then (log (js "⚠️  No changes detected. Make sure you have staged changes or unstaged changes.") >> exit 0)%prog
                    else ret tt) >> ret diff)%prog
                  (commands reads_repository)
                  (fun diff => trim diff <> []) anything zero_or_one).
  { intros diff. apply runs_bind.
    destruct (trim diff) as [| u rest] eqn:Hd; cbn [str_truthy negb].
    - call log_runs; [below | intros _ _ | never | never].
      apply runs_exit. left. reflexivity.
    - apply runs_ret. apply runs_ret. rewrite Hd. discriminate. }
  destruct (negb (str_truthy (trim staged))).
  - tail exec_runs; [ | intros unstaged _; apply Hrest | always | never ].
    intros [ | | cmd | | ]; cbn [commands]; try (intros; exact I).
    intros <-. right. reflexivity.
  - apply runs_ret. apply Hrest.
Qed.


Lemma selectCommitType_runs (suggested : value) :
  runs (selectCommitType env suggested) stays_local
       (fun type => answer_type env = Returns type) anything nothing.
Proof.
  unfold selectCommitType. apply runs_bind, runs_lift.
  destruct (each _ COMMIT_TYPES); [ | exact I ].
  tail (@ask_runs js_string);
    [intros ev H; exact H | intros ? H; exact H | always | never].
Qed.

(** A list prompt with a "custom" entry, then the input prompt. *)
Lemma custom_runs (name other : js_string) (first custom : result js_string) :
  runs (let* x := ask name first in
        if str_eqb x (js "custom") then ask other custom else ret x)%prog
       stays_local (fun a => chosen first custom = Some a) anything nothing.
Proof.
  call (@ask_runs js_string);
    [intros ev H; exact H | intros x Hx | always | never].
  unfold chosen. rewrite Hx.
  destruct (str_eqb x (js "custom")).
  - tail (@ask_runs js_string);
      [intros ev H; exact H | intros y Hy | always | never].
    rewrite Hy. reflexivity.
  - apply runs_ret. reflexivity.
Qed.

Lemma selectScope_runs (suggested : value) :
  runs (selectScope env suggested) stays_local
       (fun scope =>
          chosen (answer_scope env) (answer_customScope env) = Some scope)
       anything nothing.
Proof.
  unfold selectScope. apply runs_bind, runs_lift.
  destruct (map_items suggested _); [ | exact I ].
  apply custom_runs.
Qed.

Lemma selectCommitMessage_runs (suggested : value) :
  runs (selectCommitMessage env suggested) stays_local
       (fun message =>
          chosen (answer_message env) (answer_customMessage env) = Some message)
       anything nothing.
Proof.
  unfold selectCommitMessage. apply runs_bind, runs_lift.
  destruct (map_items suggested _); [ | exact I ].
  apply custom_runs.
Qed.

Lemma commitChanges_runs (message : js_string) :
  runs (commitChanges env message) (commands (commits message))
       anything nothing (eq 1).
Proof.
  unfold commitChanges. apply runs_catch.
  eapply runs_weaken with (T' := anything) (S' := nothing);
    [ | intros ev H; exact H | intros ? H; exact H | | never ].
  2: { intros e _. apply runs_bind, runs_emit; [exact I | ].
       apply runs_exit. reflexivity. }
  call exec_runs; [ | intros out _ | always | never ].
  { intros [ | | cmd | | ]; cbn [commands]; try (intros; exact I).
    intros <-. left. reflexivity. }
  apply runs_bind.
  assert (Hrest :
            runs (exec env (js "git commit -m " ++ [34] ++ message ++ [34]) >>
                  log (js "✅ Commit successful!"))%prog
                 (commands (commits message)) anything anything nothing).
  { call exec_runs; [ | intros _ _ | always | never ].
    - intros [ | | cmd | | ]; cbn [commands]; try (intros; exact I).
      intros <-. right. right. reflexivity.
    - tail log_runs; [below | always | never | never]. }
  destruct (negb (str_truthy (trim out))).
  - call log_runs; [below | intros _ _ | never | never].
    call exec_runs; [ | intros _ _ | always | never ].
    + intros [ | | cmd | | ]; cbn [commands]; try (intros; exact I).
      intros <-. right. left. reflexivity.
    + apply runs_ret. exact Hrest.
  - apply runs_ret. exact Hrest.
Qed.

Lemma selectCommitType_never_returns (v : value) :
  has_includes v = false ->
  runs (selectCommitType env v) stays_local nothing anything nothing.
Proof.
  intros H. unfold selectCommitType. apply runs_bind, runs_lift.
  destruct v; try discriminate H; exact I.
Qed.

Lemma selectScope_never_returns (v : value) :
  is_array v = false ->
  runs (selectScope env v) stays_local nothing anything nothing.
Proof.
  intros H. unfold selectScope. apply runs_bind, runs_lift.
  destruct v; try discriminate H; exact I.
Qed.

Lemma selectCommitMessage_never_returns (v : value) :
  is_array v = false ->
  runs (selectCommitMessage env v) stays_local nothing anything nothing.
Proof.
  intros H. unfold selectCommitMessage. apply runs_bind, runs_lift.
  destruct v; try discriminate H; exact I.
Qed.

Lemma selectors_never_return {A : Type} (s : suggestions)
  (k : js_string -> js_string -> js_string -> M A) :
  selectable s = false ->
  runs (let* selectedType := selectCommitType env (suggestedTypes s) in
        let* selectedScope := selectScope env (suggestedScopes s) in
        let* selectedMessage := selectCommitMessage env (commitMessages s) in
        k selectedType selectedScope selectedMessage)%prog
       stays_local nothing anything nothing.
Proof.
  unfold selectable. intros H.
  destruct (has_includes (suggestedTypes s)) eqn:Ht.
  2: { apply runs_bind.
       tail selectCommitType_never_returns;
         [exact Ht | intros ev Hev; exact Hev | never | always | never]. }
  call selectCommitType_runs;
    [intros ev Hev; exact Hev | intros selectedType _ | always | never].
  destruct (is_array (suggestedScopes s)) eqn:Hs.
  2: { apply runs_bind.
       tail selectScope_never_returns;
         [exact Hs | intros ev Hev; exact Hev | never | always | never]. }
  call selectScope_runs;
    [intros ev Hev; exact Hev | intros selectedScope _ | always | never].
  cbn [andb] in H. apply runs_bind.
  tail selectCommitMessage_never_returns;
    [exact H | intros ev Hev; exact Hev | never | always | never].
Qed.

Lemma local_allowed (ev : event) :
  stays_local ev -> commands (allowed_command env) ev.
Proof. destruct ev; cbn; intros H; first [exact I | contradiction]. Qed.

Lemma console_allowed (ev : event) :
  console ev -> commands (allowed_command env) ev.
Proof. destruct ev; cbn; intros H; first [exact I | contradiction]. Qed.

Lemma generateCommit_runs :
  runs (generateCommit env) (commands (allowed_command env))
       anything nothing zero_or_one.
Proof.
  unfold generateCommit. apply runs_catch.
  eapply runs_weaken with (T' := anything) (S' := zero_or_one);
    [ | intros ev H; exact H | intros ? H; exact H | | intros n H; exact H ].
  2: { intros e _. apply runs_bind, runs_emit; [exact I | ].
       apply runs_exit. right. reflexivity. }
  call log_runs; [apply console_allowed | intros _ _ | never | never].
  call getGitDiff_runs; [ | intros diff _ | never | intros n H; exact H ].
  { intros [ | | cmd | | ]; cbn [commands]; try (intros; exact I).
    intros H. left. exact H. }
  call log_runs; [apply console_allowed | intros _ _ | never | never].
  call generateCommitSuggestions_runs;
    [ | intros suggestions _ | always | never ].
  { intros [ | | cmd | | ]; cbn [commands]; try (intros; exact I).
    intros []. }
  call log_runs; [apply console_allowed | intros _ _ | never | never].
  call selectCommitType_runs;
    [apply local_allowed | intros type Htype | always | never].
  call selectScope_runs;
    [apply local_allowed | intros scope Hscope | always | never].
  call selectCommitMessage_runs;
    [apply local_allowed | intros message Hmessage | always | never].
  call log_runs; [apply console_allowed | intros _ _ | never | never].
  call log_runs; [apply console_allowed | intros _ _ | never | never].
  call (@ask_runs bool);
    [apply local_allowed | intros confirm Hconfirm | always | never].
  destruct confirm.
  - tail commitChanges_runs; [ | always | never | ].
    + intros [ | | cmd | | ]; cbn [commands]; try (intros; exact I).
      intros H. right. split; [exact Hconfirm | ].
      exists (formatCommitMessage type scope message). split; [ | exact H ].
      unfold final_message. rewrite Htype, Hscope, Hmessage. reflexivity.
    + intros n <-. right. reflexivity.
  - tail log_runs; [apply console_allowed | always | never | never].
Qed.

Lemma showHelp_runs : runs showHelp console anything nothing nothing.
Proof.
  unfold showHelp.
  repeat (call log_runs; [intros ev H; exact H | intros _ _ | never | never]).
  apply log_runs.
Qed.

Lemma run_runs :
  runs (run env) (commands (allowed_command env)) anything anything zero_or_one.
Proof.
  unfold run.
  destruct (args_include env (js "--help") || args_include env (js "-h")).
  { tail showHelp_runs; [apply console_allowed | always | never | never]. }
  destruct (args_include env (js "--token")).
  { call log_runs; [apply console_allowed | intros _ _ | never | never].
    tail showTokenManagementMenu_runs;
      [apply local_allowed | always | always | never]. }
  call log_runs; [apply console_allowed | intros _ _ | never | never].
  apply runs_bind.
  destruct (negb (in_git_repository env)).
  - apply runs_bind, runs_emit; [exact I | ].
    apply runs_exit. right. reflexivity.
  - apply runs_ret.
    tail generateCommit_runs;
      [intros ev H; exact H | always | never | intros n H; exact H].
Qed.

Lemma run_local_runs :
  without_commit env = true ->
  runs (run env) stays_local anything anything (eq 1).
Proof.
  unfold without_commit, run. intros H.
  destruct (args_include env (js "--help") || args_include env (js "-h")).
  { tail showHelp_runs; [below | always | never | never]. }
  destruct (args_include env (js "--token")).
  { call log_runs; [below | intros _ _ | never | never].
    tail showTokenManagementMenu_runs;
      [intros ev H'; exact H' | always | always | never]. }
  cbn [orb] in H. rewrite H.
  call log_runs; [below | intros _ _ | never | never].
  apply runs_bind.
  apply runs_bind, runs_emit; [exact I | ].
  apply runs_exit. reflexivity.
Qed.

End Generator.

End ProgramRuns.

(** ** Lemmas for the properties below *)

Module MoreFacts.

Import AES Crypto EncryptedTokenManager AICommitGenerator.

(** *** The store *)

Lemma getToken_keeps_files (this : t) (w w' : world)
  (r : ending (option js_string)) :
  getToken this w = (w', r) -> fs w' = fs w.
Proof.
  rewrite StoreRuns.getToken_cases.
  destruct (token_file (fs w)) as [| content | ];
    [ | destruct (decrypt this (utf8_decode content)) | ];
    intros H; inversion H; subst; reflexivity.
Qed.

(** How [setToken] ends.  A write that the disk takes only in part leaves
    that part in the token file. *)
Lemma setToken_ends (this : t) (iv : block) (token : js_string)
  (w w' : world) (r : ending unit) :
  setToken this iv token w = (w', r) ->
  match r with
  | Returned _ =>
      exists e, encrypt this iv token = Returns e /\
                fs w' = mk_fs true (Regular (utf8_encode e)) false
                              (capacity (fs w)) /\
                trace w' = trace w ++ [ConsoleLog saved]
  | Threw err =>
      trace w' = trace w ++ [ConsoleError save_failure (Some err)] /\
      (token_file (fs w') = token_file (fs w)
       \/ exists e n,
            encrypt this iv token = Returns e /\
            capacity (fs w) = Some n /\
            (n < length (utf8_encode e))%nat /\
            token_file (fs w') = Regular (firstn n (utf8_encode e)))
  | Exited _ => False
  end.
Proof.
  unfold setToken, catch, mbind, ensureConfigDir, writeFileSync_tokenFile,
    mbind, get_fs, put_fs, lift, ret, throw, emit.
  destruct w as [[dir file ro cap] tr].
  cbn [fs trace config_dir_exists read_only token_file capacity negb].
  destruct (encrypt this iv token) as [e | err];
    destruct dir, ro, file;
    cbn [fs trace config_dir_exists read_only token_file capacity negb];
    try (intros H; inversion H; subst; clear H;
         cbn [fs trace config_dir_exists read_only token_file capacity];
         split; [reflexivity | left; reflexivity]);
    match goal with
    | |- context [(length (taken ?f ?bytes) <? _)%nat] =>
        destruct (length (taken f bytes) <? length bytes)%nat eqn:Hlt
    end;
    cbn [fs trace]; intros H; inversion H; subst; clear H;
    cbn [fs trace config_dir_exists read_only token_file capacity];
    first
      [ exists e; rewrite (StoreRuns.taken_all _ _ Hlt); repeat split
      | split; [reflexivity | right];
        destruct (StoreRuns.taken_part _ _ Hlt) as [n [Hcap [Hn Htaken]]];
        cbn [capacity] in Hcap;
        exists e, n; rewrite Htaken; repeat split; assumption ].
Qed.

(** *** The envelope *)

Lemma blk_xor_cancel_l (x k : block) :
  blk_xor x (blk_xor x k) = k.
Proof.
  destruct x as [[] [] [] []], k as [[] [] [] []].
  unfold blk_xor, col_xor. cbn.
  repeat match goal with
         | |- context [bxor ?a (bxor ?a ?b)] =>
             rewrite (bxor_comm a (bxor a b)), (bxor_comm a b), bxor_cancel_r
         end.
  reflexivity.
Qed.

Lemma encrypt_returns (this : t) (iv : block) (text e : js_string) :
  encrypt this iv text = Returns e ->
  exists ks, key_expansion (hex_decode (encryptionKey this)) = Some ks /\
             e = envelope ks iv text.
Proof.
  intros H.
  destruct (key_expansion (hex_decode (encryptionKey this))) as [ks | ] eqn:Hks.
  - exists ks. split; [reflexivity | ].
    rewrite (StoreFacts.encrypt_envelope this ks iv text Hks) in H.
    inversion H. reflexivity.
  - unfold encrypt, create_iv in H.
    rewrite CryptoFacts.to_blocks_bytes_of_block, Hks in H.
    destruct (Nat.eqb _ 16); discriminate H.
Qed.

Lemma envelope_fields (ks : list block) (iv : block) (text : js_string) :
  split_on 58 (envelope ks iv text)
  = [hex_encode (bytes_of_block iv);
     hex_encode (cipher_output ks iv (utf8_encode text))].
Proof. unfold envelope. apply StoreFacts.split_envelope. Qed.

Lemma hex_encode_inj (a b : list byte) : hex_encode a = hex_encode b -> a = b.
Proof.
  intros H. rewrite <- (StringFacts.hex_decode_encode a),
              <- (StringFacts.hex_decode_encode b), H. reflexivity.
Qed.

Lemma bytes_of_block_inj (x y : block) :
  bytes_of_block x = bytes_of_block y -> x = y.
Proof.
  intros H. apply (f_equal to_blocks) in H.
  rewrite !CryptoFacts.to_blocks_bytes_of_block in H.
  inversion H. reflexivity.
Qed.

Lemma cipher_output_iv (ks : list block) (iv1 iv2 : block)
  (data : list byte) :
  cipher_output ks iv1 data = cipher_output ks iv2 data ->
  iv1 = iv2.
Proof.
  unfold cipher_output. intros H.
  apply (f_equal to_blocks) in H.
  rewrite !CryptoFacts.to_blocks_of_blocks in H.
  pose proof (CryptoFacts.to_blocks_length _ (CryptoFacts.pkcs7_pad_blocks data))
    as Hlen.
  pose proof (CryptoFacts.pkcs7_pad_nonempty data) as Hne.
  destruct (to_blocks (pkcs7_pad data)) as [| p0 rest].
  - cbn [length] in Hlen. symmetry in Hlen.
    apply Nat.div_small_iff in Hlen; lia.
  - cbn [cbc_encrypt] in H.
    apply (f_equal (fun l => nth 0 l p0)) in H. cbn [nth] in H.
    rename H into Hc.
    apply (f_equal (inv_cipher ks)) in Hc.
    rewrite !AESFacts.inv_cipher_cipher in Hc.
    apply (f_equal (blk_xor p0)) in Hc.
    rewrite !blk_xor_cancel_l in Hc. exact Hc.
Qed.

(** *** The validator of the token prompt *)

Lemma trim_start_app (x y : js_string) (a : code_unit) :
  is_js_space a = false ->
  trim_start (x ++ a :: y) = trim_start x ++ a :: y.
Proof.
  intros Ha. induction x as [| u x IH]; cbn [app trim_start].
  - rewrite Ha. reflexivity.
  - destruct (is_js_space u); [exact IH | reflexivity].
Qed.

Lemma starts_with_sk (input : js_string) :
  is_prefix (js "sk-") input = true <-> exists body, input = js "sk-" ++ body.
Proof.
  change (js "sk-") with [115; 107; 45]. split.
  - destruct input as [| a [| b [| c body]]]; cbn [is_prefix];
      rewrite ?andb_false_r; try discriminate.
    rewrite !andb_true_iff, !Z.eqb_eq. intros [<- [<- [<- _]]].
    exists body. reflexivity.
  - intros [body ->]. reflexivity.
Qed.

Lemma trim_sk (body : js_string) :
  trim (js "sk-" ++ body) = js "sk-" ++ rev (trim_start (rev body)).
Proof.
  change (js "sk-") with [115; 107; 45]. unfold trim.
  change (trim_start ([115; 107; 45] ++ body)) with (115 :: 107 :: 45 :: body).
  change (rev (115 :: 107 :: 45 :: body)) with (((rev body ++ [45]) ++ [107]) ++ [115]).
  rewrite <- !app_assoc. cbn [app].
  rewrite trim_start_app by reflexivity.
  rewrite rev_app_distr. reflexivity.
Qed.

Lemma accepted_token_trimmed (input : js_string) :
  validate_apiToken input = Valid ->
  exists body,
    input = js "sk-" ++ body /\
    trim input = js "sk-" ++ rev (trim_start (rev body)).
Proof.
  unfold validate_apiToken.
  destruct (negb (str_truthy (trim input))); [discriminate | ].
  destruct (is_prefix (js "sk-") input) eqn:Hp; [ | discriminate ].
  intros _. apply starts_with_sk in Hp. destruct Hp as [body ->].
  exists body. split; [reflexivity | apply trim_sk].
Qed.

(** What [trim] keeps are units of the string. *)
Lemma trim_start_units (P : code_unit -> bool) (s : js_string) :
  forallb P s = true -> forallb P (trim_start s) = true.
Proof.
  induction s as [| u s IH]; [reflexivity | ].
  intros H. cbn [trim_start].
  destruct (is_js_space u); [ | exact H ].
  cbn [forallb] in H. apply andb_true_iff in H. apply IH, H.
Qed.

Lemma rev_units (P : code_unit -> bool) (s : js_string) :
  forallb P s = true -> forallb P (rev s) = true.
Proof.
  rewrite !forallb_forall. intros H x Hx. apply H, in_rev, Hx.
Qed.

Lemma trim_units (P : code_unit -> bool) (s : js_string) :
  forallb P s = true -> forallb P (trim s) = true.
Proof.
  intros H. unfold trim.
  apply rev_units, trim_start_units, rev_units, trim_start_units, H.
Qed.

(** *** The menu of commit types *)

Lemma each_total {A B : Type} (f : A -> result B) (g : A -> B) (l : list A) :
  (forall x, f x = Returns (g x)) -> each f l = Returns (map g l).
Proof.
  intros H. induction l as [| x l IH]; [reflexivity | ].
  cbn [each map]. rewrite H, IH. reflexivity.
Qed.

Lemma filter_by_total {A : Type} (f : A -> result bool) (g : A -> bool)
  (l : list A) :
  (forall x, f x = Returns (g x)) -> filter_by f l = Returns (filter g l).
Proof.
  intros H. induction l as [| x l IH]; [reflexivity | ].
  cbn [filter_by filter]. rewrite H, IH. reflexivity.
Qed.

Lemma filter_both {A : Type} (g : A -> bool) (l : list A) :
  Permutation (filter g l ++ filter (fun x => negb (g x)) l) l.
Proof.
  induction l as [| x l IH]; [constructor | ].
  cbn [filter]. destruct (g x); cbn [negb app].
  - constructor. exact IH.
  - apply Permutation_sym, Permutation_cons_app, Permutation_sym, IH.
Qed.

(** On an array or a string, [includes] is a test. *)
Lemma includes_total (suggested : value) :
  match suggested with
  | Array _ | String _ =>
      exists test, forall x, includes suggested x = Returns (test x)
  | _ => forall x, includes suggested x = Throws TypeError
  end.
Proof.
  destruct suggested; try reflexivity; eexists; intros x; reflexivity.
Qed.

Lemma commitTypeChoices_tested (suggested : value) (test : js_string -> bool) :
  (forall x, includes suggested x = Returns (test x)) ->
  exists first others,
    commitTypeChoices suggested
    = Returns (map Item first ++ [Separator] ++ map Item others) /\
    Permutation (map choice_value (first ++ others))
                (map CommitType.type COMMIT_TYPES) /\
    (forall c, In c first -> includes suggested (choice_value c) = Returns true) /\
    (forall c, In c others -> includes suggested (choice_value c) = Returns false).
Proof.
  intros Htest. unfold commitTypeChoices. generalize COMMIT_TYPES. intros types.
  set (entry := fun t : CommitType.t =>
         mk_type_choice
           (CommitType.emoji t ++ js " " ++ CommitType.type t ++ js ": "
            ++ CommitType.description t
            ++ (if test (CommitType.type t) then js " (suggested)" else js ""))
           (CommitType.type t) (CommitType.type t)).
  rewrite (each_total _ entry)
    by (intros t; rewrite Htest; reflexivity).
  cbn [bind].
  rewrite (filter_by_total _ (fun c => test (choice_value c)))
    by (intros c; apply Htest).
  cbn [bind].
  rewrite (filter_by_total _ (fun c => negb (test (choice_value c))))
    by (intros c; rewrite Htest; reflexivity).
  cbn [bind].
  eexists. eexists. split; [reflexivity | ].
  split; [ | split ].
  - replace (map CommitType.type types)
      with (map choice_value (map entry types))
      by (rewrite map_map; reflexivity).
    apply Permutation_map.
    apply (filter_both (fun c => test (choice_value c))).
  - intros c Hc. apply filter_In in Hc. destruct Hc as [_ Hc].
    rewrite Htest, Hc. reflexivity.
  - intros c Hc. apply filter_In in Hc. destruct Hc as [_ Hc].
    rewrite Htest. apply negb_true_iff in Hc. rewrite Hc. reflexivity.
Qed.

(** *** The display of the token *)

Lemma last_units (token : js_string) :
  substring token (length token - 4) (length token)
  = skipn (length token - 4) token.
Proof.
  unfold substring. apply firstn_all2. rewrite length_skipn. lia.
Qed.

(** *** Commands and requests *)

Lemma stage_all_not_names : staged_names <> stage_all.
Proof. vm_compute. discriminate. Qed.

Lemma stage_all_not_commit (message : js_string) :
  commit_command message <> stage_all.
Proof.
  unfold commit_command, stage_all. intros H.
  apply (f_equal (firstn 5)) in H. vm_compute in H. discriminate H.
Qed.

(** Every event of the list is one of the commands of a commit or a line on
    the console. *)
Ltac listed :=
  cbn [app];
  repeat (apply Forall_cons;
          [first [right; exact I | left; cbn [In]; auto 10] | ]);
  apply Forall_nil.

(** No event of the list is the command "git add .". *)
Ltac never_staged H :=
  cbn [In app] in H;
  repeat (destruct H as [H | H]);
  try contradiction; try discriminate H;
  apply (f_equal command_of) in H; cbn [command_of] in H;
  first [ exact (stage_all_not_names H)
        | exact (stage_all_not_commit _ H) ].

Lemma count_requests_app (a b : list event) :
  count_requests (a ++ b) = (count_requests a + count_requests b)%nat.
Proof. unfold count_requests. rewrite filter_app, length_app. reflexivity. Qed.

Lemma count_requests_local (evs : list event) :
  Forall stays_local evs -> count_requests evs = 0%nat.
Proof.
  unfold count_requests. induction 1 as [| ev evs Hev _ IH]; [reflexivity | ].
  cbn [filter]. destruct ev; cbn in Hev; try contradiction; exact IH.
Qed.

End MoreFacts.

(** ** More properties of the token store *)

Import EncryptedTokenManager AICommitGenerator.
Import RunRules ProgramRuns MoreFacts.

(** X1.  [ensureConfigDir] is idempotent: once it has returned, the
    configuration directory exists, the token file is as it was, and a
    second call returns without changing the world. *)
Theorem ensureConfigDir_idempotent (w w1 : world) :
  ensureConfigDir w = (w1, Returned tt) ->
  config_dir_exists (fs w1) = true /\
  token_file (fs w1) = token_file (fs w) /\
  ensureConfigDir w1 = (w1, Returned tt).
Proof.
  unfold ensureConfigDir, mbind, get_fs, put_fs, ret, throw.
  destruct w as [[dir file ro cap] tr].
  cbn [fs trace config_dir_exists read_only token_file capacity negb].
  destruct dir, ro; cbn [negb]; intros H; inversion H; subst; clear H;
    repeat split.
Qed.

Lemma ensureConfigDir_idempotent_witness :
  ensureConfigDir empty_world
  = (mk_world (mk_fs true Missing false None) [], Returned tt) /\
  ensureConfigDir (mk_world (mk_fs true Missing false None) [])
  = (mk_world (mk_fs true Missing false None) [], Returned tt).
Proof.
  split; [reflexivity | ].
  apply (ensureConfigDir_idempotent empty_world
           (mk_world (mk_fs true Missing false None) [])).
  reflexivity.
Defined.

(** X2.  [setToken] never ends the process.  When it returns, the
    directory exists, the token file holds the whole envelope that [encrypt]
    made, and the success line is the one line printed.  When it throws,
    the error thrown is the one printed after "Failed to save token:", and
    the token file is as it was, or, when the disk took only a part of the
    envelope, it holds that part: the first bytes of the envelope, fewer
    than all and possibly none, in the place of what was stored before. *)
Theorem setToken_whole_or_reported (this : t) (iv : AES.block)
  (token : js_string) (w w' : world) (r : ending unit) :
  setToken this iv token w = (w', r) ->
  match r with
  | Returned _ =>
      exists e, encrypt this iv token = Returns e /\
                config_dir_exists (fs w') = true /\
                token_file (fs w') = Regular (utf8_encode e) /\
                trace w' = trace w ++ [ConsoleLog saved]
  | Threw err =>
      trace w' = trace w ++ [ConsoleError save_failure (Some err)] /\
      (token_file (fs w') = token_file (fs w)
       \/ exists e n,
            encrypt this iv token = Returns e /\
            capacity (fs w) = Some n /\
            (n < length (utf8_encode e))%nat /\
            token_file (fs w') = Regular (firstn n (utf8_encode e)))
  | Exited _ => False
  end.
Proof.
  intros H. pose proof (setToken_ends _ _ _ _ _ _ H) as Hends.
  destruct r as [[] | err | n]; [ | exact Hends | exact Hends ].
  destruct Hends as [e [He [Hfs Htrace]]].
  exists e. rewrite Hfs. repeat split; assumption.
Qed.

(** On a disk that takes nothing more, [setToken] throws and the envelope
    that was stored is gone: the token file is empty. *)
Lemma setToken_whole_or_reported_witness :
  let w := mk_world (mk_fs true (Regular (utf8_encode (js "00:01"))) false
                           (Some 0%nat)) [] in
  setToken sample_manager sample_iv (js "sk-abc") w
  = (mk_world (mk_fs true (Regular []) false (Some 0%nat))
       [ConsoleError save_failure (Some (SystemError "ENOSPC"))],
     Threw (SystemError "ENOSPC")) /\
  exists e n,
    encrypt sample_manager sample_iv (js "sk-abc") = Returns e /\
    (n < length (utf8_encode e))%nat /\
    Regular [] = Regular (firstn n (utf8_encode e)).
Proof.
  cbv zeta.
  assert (H : setToken sample_manager sample_iv (js "sk-abc")
                (mk_world (mk_fs true (Regular (utf8_encode (js "00:01")))
                                 false (Some 0%nat)) [])
              = (mk_world (mk_fs true (Regular []) false (Some 0%nat))
                   [ConsoleError save_failure (Some (SystemError "ENOSPC"))],
                 Threw (SystemError "ENOSPC")))
    by (vm_compute; reflexivity).
  split; [exact H | ].
  destruct (setToken_whole_or_reported _ _ _ _ _ _ H)
    as [_ [Hsame | [e [n [He [_ [Hn Hfile]]]]]]].
  - discriminate Hsame.
  - exists e, n. split; [exact He | split; [exact Hn | exact Hfile] ].
Defined.

(** X3.  [getToken] only reads: it leaves the file system as it is, also
    when the envelope is corrupt, so that a second call gives the same
    answer; it always returns, and [hasToken] returns true exactly when it
    returns a token. *)
Theorem getToken_reads_only (this : t) (w w1 : world)
  (r : ending (option js_string)) :
  getToken this w = (w1, r) ->
  fs w1 = fs w /\
  snd (getToken this w1) = r /\
  exists found,
    r = Returned found /\
    snd (hasToken this w)
    = Returned (match found with Some _ => true | None => false end).
Proof.
  intros H. pose proof (getToken_keeps_files _ _ _ _ H) as Hfs.
  split; [exact Hfs | ].
  assert (Hhas : forall found, r = Returned found ->
            snd (hasToken this w)
            = Returned (match found with Some _ => true | None => false end)).
  { intros found ->. unfold hasToken, mbind. rewrite H. reflexivity. }
  rewrite (StoreRuns.getToken_cases this w1), Hfs.
  rewrite StoreRuns.getToken_cases in H.
  destruct (token_file (fs w)) as [| content | ].
  - inversion H; subst. split; [reflexivity | ].
    exists None. split; [reflexivity | exact (Hhas None eq_refl)].
  - destruct (decrypt this (utf8_decode content)) as [token | e];
      inversion H; subst; (split; [reflexivity | ]);
      eexists; (split; [reflexivity | exact (Hhas _ eq_refl)]).
  - inversion H; subst. split; [reflexivity | ].
    exists None. split; [reflexivity | exact (Hhas None eq_refl)].
Qed.

Lemma getToken_reads_only_witness :
  let w := world_with_token_file (js "00:01") in
  let w1 := logged w (ConsoleError read_failure
                        (Some ERR_CRYPTO_INVALID_IV)) in
  getToken sample_manager w = (w1, Returned None) /\
  fs w1 = fs w /\
  snd (getToken sample_manager w1) = Returned None.
Proof.
  cbv zeta.
  assert (H : getToken sample_manager (world_with_token_file (js "00:01"))
              = (logged (world_with_token_file (js "00:01"))
                   (ConsoleError read_failure (Some ERR_CRYPTO_INVALID_IV)),
                 Returned None))
    by (vm_compute; reflexivity).
  split; [exact H | ].
  destruct (getToken_reads_only _ _ _ _ H) as [Hfs [Hagain _]].
  split; [exact Hfs | exact Hagain].
Defined.

(** X4.  [clearToken] always returns, in every world: afterwards the token
    file is gone, or, on a disk that cannot be written, the file system is as
    it was and the failure was printed. *)
Theorem clearToken_always_returns (this : t) (w : world) :
  exists w',
    clearToken this w = (w', Returned tt) /\
    (fs w' = mk_fs (config_dir_exists (fs w)) Missing (read_only (fs w))
                   (capacity (fs w))
     \/ (fs w' = fs w /\ read_only (fs w) = true /\
         exists e,
           trace w' = trace w ++
             [ConsoleError clear_failure (Some e)])).
Proof.
  unfold clearToken, catch, mbind, unlinkSync_tokenFile, existsSync_tokenFile,
    mbind, get_fs, put_fs, lift, ret, throw, emit.
  destruct w as [[dir file ro cap] tr].
  cbn [fs trace config_dir_exists read_only token_file capacity negb].
  destruct ro, file;
    cbn [fs trace config_dir_exists read_only token_file capacity negb];
    eexists; (split; [reflexivity | ]);
    cbn [fs trace config_dir_exists read_only token_file capacity];
    first [ left; reflexivity
          | right; split; [reflexivity | split; [reflexivity | ] ];
            eexists; reflexivity ].
Qed.

(** X5.  On a disk that can be written, [clearToken] removes the token
    file, and a second [clearToken] changes nothing and prints nothing;
    [getToken] and [hasToken] then find no token. *)
Theorem clearToken_twice (this : t) (w w1 : world) (r : ending unit) :
  read_only (fs w) = false ->
  clearToken this w = (w1, r) ->
  r = Returned tt /\
  token_file (fs w1) = Missing /\
  clearToken this w1 = (w1, Returned tt) /\
  getToken this w1 = (w1, Returned None) /\
  hasToken this w1 = (w1, Returned false).
Proof.
  intros Hro.
  assert (Hnone : forall w1, token_file (fs w1) = Missing ->
                             getToken this w1 = (w1, Returned None)).
  { intros w2 H. rewrite StoreRuns.getToken_cases, H. reflexivity. }
  assert (Hlast : forall w1 r,
             r = Returned tt /\ token_file (fs w1) = Missing /\
             clearToken this w1 = (w1, Returned tt) ->
             r = Returned tt /\ token_file (fs w1) = Missing /\
             clearToken this w1 = (w1, Returned tt) /\
             getToken this w1 = (w1, Returned None) /\
             hasToken this w1 = (w1, Returned false)).
  { intros w2 r2 [H1 [H2 H3]]. repeat (split; try assumption).
    - apply Hnone, H2.
    - unfold hasToken, mbind. rewrite (Hnone _ H2). reflexivity. }
  intros H. apply Hlast. revert H. clear Hlast Hnone.
  unfold clearToken, catch, mbind, unlinkSync_tokenFile, existsSync_tokenFile,
    mbind, get_fs, put_fs, lift, ret, throw, emit.
  destruct w as [[dir file ro cap] tr].
  cbn [fs trace config_dir_exists read_only token_file capacity negb] in *. subst ro.
  destruct file;
    cbn [fs trace config_dir_exists read_only token_file capacity negb];
    intros H; inversion H; subst; clear H; repeat split.
Qed.

Lemma clearToken_twice_witness :
  let w1 := fst (clearToken sample_manager (world_with_token_file (js "00:01"))) in
  token_file (fs w1) = Missing /\
  clearToken sample_manager w1 = (w1, Returned tt) /\
  getToken sample_manager w1 = (w1, Returned None).
Proof.
  cbv zeta.
  destruct (clearToken_twice sample_manager
              (world_with_token_file (js "00:01"))
              (fst (clearToken sample_manager (world_with_token_file (js "00:01"))))
              (snd (clearToken sample_manager (world_with_token_file (js "00:01"))))
              eq_refl eq_refl) as [_ [H1 [H2 [H3 _]]]].
  split; [exact H1 | split; [exact H2 | exact H3]].
Defined.

(** X6.  The envelope determines what went into it: if [encrypt] returns
    the same envelope for two IVs and two well-formed texts, the IVs are
    equal and the texts are equal. *)
Theorem envelope_determines_iv_and_text (this : t) (iv1 iv2 : AES.block)
  (text1 text2 e : js_string) :
  well_formed text1 = true -> well_formed text2 = true ->
  encrypt this iv1 text1 = Returns e ->
  encrypt this iv2 text2 = Returns e ->
  iv1 = iv2 /\ text1 = text2.
Proof.
  intros Hwf1 Hwf2 H1 H2.
  destruct (encrypt_returns _ _ _ _ H1) as [ks [Hks He1]].
  destruct (encrypt_returns _ _ _ _ H2) as [ks' [Hks' He2]].
  rewrite Hks in Hks'. inversion Hks'; subst ks'. clear Hks'.
  split.
  - pose proof (envelope_fields ks iv1 text1) as F1.
    pose proof (envelope_fields ks iv2 text2) as F2.
    rewrite <- He1 in F1. rewrite <- He2, F1 in F2.
    apply (f_equal (fun l => nth 0 l [])) in F2. cbn [nth] in F2.
    apply bytes_of_block_inj, hex_encode_inj, F2.
  - pose proof (StoreFacts.decrypt_envelope this ks iv1 text1 Hks) as D1.
    pose proof (StoreFacts.decrypt_envelope this ks iv2 text2 Hks) as D2.
    rewrite <- He1 in D1. rewrite <- He2, D1 in D2.
    rewrite !Utf8Facts.utf8_decode_encode in D2 by assumption.
    inversion D2. reflexivity.
Qed.

Lemma envelope_determines_iv_and_text_witness :
  encrypt sample_manager sample_iv (js "sk-abc")
  = Returns (sample_envelope sample_iv (js "sk-abc")) /\
  sample_iv = sample_iv /\ js "sk-abc" = js "sk-abc".
Proof.
  assert (H : encrypt sample_manager sample_iv (js "sk-abc")
              = Returns (sample_envelope sample_iv (js "sk-abc")))
    by (vm_compute; reflexivity).
  split; [exact H | ].
  apply (envelope_determines_iv_and_text sample_manager sample_iv sample_iv
           (js "sk-abc") (js "sk-abc")
           (sample_envelope sample_iv (js "sk-abc")));
    [reflexivity | reflexivity | exact H | exact H].
Defined.

(** X7.  A fresh IV gives a fresh ciphertext: two encryptions of the same
    text under different IVs differ in the IV field of the envelope and in
    its ciphertext field. *)
Theorem fresh_iv_fresh_ciphertext (this : t) (iv1 iv2 : AES.block)
  (text e1 e2 : js_string) :
  iv1 <> iv2 ->
  encrypt this iv1 text = Returns e1 ->
  encrypt this iv2 text = Returns e2 ->
  nth 0 (split_on 58 e1) [] <> nth 0 (split_on 58 e2) [] /\
  nth 1 (split_on 58 e1) [] <> nth 1 (split_on 58 e2) [].
Proof.
  intros Hiv H1 H2.
  destruct (encrypt_returns _ _ _ _ H1) as [ks [Hks He1]].
  destruct (encrypt_returns _ _ _ _ H2) as [ks' [Hks' He2]].
  rewrite Hks in Hks'. inversion Hks'; subst ks'. clear Hks'.
  subst e1 e2. rewrite !envelope_fields. cbn [nth]. split; intros H; apply Hiv.
  - apply bytes_of_block_inj, hex_encode_inj, H.
  - apply hex_encode_inj in H. apply (cipher_output_iv _ _ _ _ H).
Qed.

Lemma fresh_iv_fresh_ciphertext_witness :
  sample_iv <> other_iv /\
  nth 1 (split_on 58 (sample_envelope sample_iv (js "sk-abc"))) []
  <> nth 1 (split_on 58 (sample_envelope other_iv (js "sk-abc"))) [].
Proof.
  assert (Hiv : sample_iv <> other_iv) by discriminate.
  split; [exact Hiv | ].
  apply (fresh_iv_fresh_ciphertext sample_manager sample_iv other_iv
           (js "sk-abc") _ _ Hiv).
  - vm_compute. reflexivity.
  - vm_compute. reflexivity.
Defined.

(** ** More properties of the token prompt and of the token display *)

(** X8.  The validator of the token prompt accepts exactly the inputs that
    start with "sk-": the test for an empty trimmed input never rejects an
    input that the second test would accept. *)
Theorem validate_apiToken_valid_iff (input : js_string) :
  validate_apiToken input = Valid <-> is_prefix (js "sk-") input = true.
Proof.
  split.
  - unfold validate_apiToken.
    destruct (negb (str_truthy (trim input))); [discriminate | ].
    destruct (is_prefix (js "sk-") input); [reflexivity | discriminate].
  - intros Hp. unfold validate_apiToken. rewrite Hp.
    apply starts_with_sk in Hp. destruct Hp as [body ->].
    rewrite trim_sk. reflexivity.
Qed.

(** X9.  What is kept of an accepted input: [trim] leaves the "sk-" at the
    front and only removes white space at the end, so the token that is
    stored and used is never the empty string. *)
Theorem accepted_token_keeps_prefix (input : js_string) :
  validate_apiToken input = Valid ->
  exists body,
    input = js "sk-" ++ body /\
    trim input = js "sk-" ++ rev (trim_start (rev body)) /\
    str_truthy (trim input) = true.
Proof.
  intros H. destruct (accepted_token_trimmed input H) as [body [H1 H2]].
  exists body. split; [exact H1 | split; [exact H2 | ] ].
  rewrite H2. reflexivity.
Qed.

Lemma accepted_token_keeps_prefix_witness :
  validate_apiToken (js "sk-abc  ") = Valid /\
  exists body,
    js "sk-abc  " = js "sk-" ++ body /\
    trim (js "sk-abc  ") = js "sk-" ++ rev (trim_start (rev body)) /\
    str_truthy (trim (js "sk-abc  ")) = true.
Proof.
  split; [reflexivity | ].
  apply (accepted_token_keeps_prefix (js "sk-abc  ")). reflexivity.
Defined.

(** X10.  The token is asked for once.  Suppose that [getToken] finds no
    token, that the token file is missing or a regular file that can be
    read, that the disk can be written and has room for the envelope, and
    that the user gives an accepted input and agrees to save it.  Then
    [getOrRequestToken] asks its two questions and returns the trimmed
    input; called again, it asks nothing, prints nothing, and returns from
    the store the trimmed input with U+FFFD in the place of every unpaired
    surrogate: the same token when the input has none. *)
Theorem token_is_requested_once (env : environment) (input : js_string)
  (w w0 : world) :
  answer_apiToken env = Returns input ->
  answer_saveToken env = Returns true ->
  validate_apiToken input = Valid -> forallb is_code_unit input = true ->
  read_only (fs w) = false -> token_file (fs w) <> Unreadable ->
  (forall e, encrypt (tokenManager env) (randomBytes16 env) (trim input)
             = Returns e -> has_room (fs w) e) ->
  getToken (tokenManager env) w = (w0, Returned None) ->
  exists w1 evs,
    getOrRequestToken env w = (w1, Returned (trim input)) /\
    trace w1 = trace w0 ++ evs /\ count_asks evs = 2%nat /\
    getOrRequestToken env w1 = (w1, Returned (toWellFormed (trim input))) /\
    (well_formed (trim input) = true ->
     getOrRequestToken env w1 = (w1, Returned (trim input))).
Proof.
  intros Hinput Hsave Hvalid Hunits Hro Hfile Hroom Hget.
  destruct (accepted_token_trimmed input Hvalid) as [body [_ Hne]].
  pose proof (getToken_keeps_files _ _ _ _ Hget) as Hfs.
  destruct (StoreFacts.manager_round_keys (platform env) (arch env) (homedir env))
    as [ks Hks].
  pose proof (StoreFacts.encrypt_envelope (tokenManager env) ks
                (randomBytes16 env) (trim input) Hks) as Henc.
  set (w0' := mk_world (fs w0)
                (trace w0 ++
                 [ConsoleLog (js "🔑 No API token found. Please provide your OpenAI API token.");
                  ConsoleLog (js "   You can get your token from: https://platform.openai.com/api-keys
");
                  Ask (js "apiToken"); Ask (js "saveToken")])).
  destruct (StoreRuns.setToken_returns (tokenManager env) (randomBytes16 env)
              (trim input) _ w0' Henc) as [w1 Hset].
  { cbn [w0' fs]. rewrite Hfs. exact Hro. }
  { cbn [w0' fs]. rewrite Hfs. exact Hfile. }
  { cbn [w0' fs]. rewrite Hfs. apply Hroom. exact Henc. }
  pose proof (setToken_ends _ _ _ _ _ _ Hset) as [e [_ [_ Htrace]]].
  exists w1. eexists.
  assert (Hfirst : getOrRequestToken env w = (w1, Returned (trim input))).
  { unfold getOrRequestToken. unfold mbind at 1. rewrite Hget.
    unfold requestToken, mbind, log, ask, mbind, emit, lift, ret.
    cbn [fs trace]. rewrite Hinput, Hsave.
    rewrite <- !app_assoc. cbn [app].
    fold w0'. rewrite Hset. reflexivity. }
  split; [exact Hfirst | ].
  split; [ rewrite Htrace; cbn [w0' trace]; rewrite <- app_assoc; reflexivity | ].
  split; [ reflexivity | ].
  assert (Hagain : getOrRequestToken env w1
                   = (w1, Returned (toWellFormed (trim input)))).
  { unfold getOrRequestToken. unfold mbind at 1.
    unfold tokenManager in *.
    rewrite (StoreRuns.getToken_after_setToken _ _ _ _ _ _ _ Hset).
    cbv zeta.
    rewrite Utf8Facts.utf8_decode_encode_any by (apply trim_units, Hunits).
    rewrite Hne. reflexivity. }
  split; [exact Hagain | ].
  intros Hwf. rewrite Hagain, (Utf8Facts.toWellFormed_well_formed _ Hwf).
  reflexivity.
Qed.

Lemma token_is_requested_once_witness :
  let env := saving_environment (js "sk-abc ") in
  exists w1 evs,
    getOrRequestToken env empty_world = (w1, Returned (js "sk-abc")) /\
    trace w1 = trace empty_world ++ evs /\ count_asks evs = 2%nat /\
    getOrRequestToken env w1 = (w1, Returned (js "sk-abc")).
Proof.
  cbv zeta.
  destruct (token_is_requested_once (saving_environment (js "sk-abc "))
              (js "sk-abc ") empty_world empty_world)
    as [w1 [evs [Hfirst [Htrace [Hasks [_ Hagain]]]]]].
  - reflexivity.
  - reflexivity.
  - reflexivity.
  - reflexivity.
  - reflexivity.
  - discriminate.
  - intros e _. exact I.
  - vm_compute. reflexivity.
  - exists w1, evs.
    split; [exact Hfirst | split; [exact Htrace | split; [exact Hasks | ] ] ].
    apply Hagain. reflexivity.
Defined.

(** X11.  Without the consent of the user nothing is saved: unless the
    answer to "Save this token" is yes, [getOrRequestToken] leaves the file
    system as it is, however it ends. *)
Theorem token_not_saved_without_consent (env : environment) (w w' : world)
  (r : ending js_string) :
  answer_saveToken env <> Returns true ->
  getOrRequestToken env w = (w', r) ->
  fs w' = fs w.
Proof.
  intros Hno. unfold getOrRequestToken. unfold mbind at 1.
  destruct (getToken (tokenManager env) w) as [w0 r0] eqn:Hget.
  pose proof (getToken_keeps_files _ _ _ _ Hget) as Hfs.
  assert (Hreq : forall w' r, requestToken env w0 = (w', r) -> fs w' = fs w).
  { clear w' r. intros w' r.
    unfold requestToken, mbind, log, ask, mbind, emit, lift, ret.
    cbn [fs trace].
    destruct (answer_apiToken env) as [apiToken | e];
      [ | intros H; inversion H; subst; exact Hfs ].
    destruct (answer_saveToken env) as [[ | ] | e];
      [ contradiction Hno; reflexivity | | ];
      intros H; inversion H; subst; exact Hfs. }
  destruct r0 as [[token | ] | e | n].
  - destruct (str_truthy token); [ | apply Hreq ].
    intros H; inversion H; subst; exact Hfs.
  - apply Hreq.
  - intros H; inversion H; subst; exact Hfs.
  - intros H; inversion H; subst; exact Hfs.
Qed.

Lemma token_not_saved_without_consent_witness :
  let env := sample_environment (fun _ => Throws (ServiceError 401))
                                (fun _ => Returns []) in
  snd (getOrRequestToken env empty_world) = Returned (js "sk-abc") /\
  fs (fst (getOrRequestToken env empty_world)) = fs empty_world.
Proof.
  cbv zeta. split; [vm_compute; reflexivity | ].
  apply (token_not_saved_without_consent
           (sample_environment (fun _ => Throws (ServiceError 401))
                               (fun _ => Returns []))
           empty_world _
           (snd (getOrRequestToken
                   (sample_environment (fun _ => Throws (ServiceError 401))
                                       (fun _ => Returns []))
                   empty_world))).
  - vm_compute. discriminate.
  - vm_compute. reflexivity.
Defined.

(** X12.  [showTokenStatus], when a token is stored, prints three lines:
    the status, the token in its display form, and an empty line; it
    changes no file. *)
Theorem showTokenStatus_prints_the_mask (env : environment) (w : world)
  (token : js_string) :
  getToken (tokenManager env) w = (w, Returned (Some token)) ->
  showTokenStatus env w
  = (mk_world (fs w)
       (trace w ++
        [ConsoleLog (js "
Token Status: " ++ js "✅ Token stored");
         ConsoleLog (js "Token: " ++ maskedToken token);
         ConsoleLog (js "")]),
     Returned tt).
Proof.
  intros Hget.
  unfold showTokenStatus, hasToken.
  unfold mbind at 1. unfold mbind at 1. rewrite Hget.
  unfold ret at 1. unfold mbind at 1. unfold log at 1. unfold emit at 1.
  unfold mbind at 1. unfold mbind at 1.
  assert (Hget' : forall tr,
             getToken (tokenManager env) (mk_world (fs w) tr)
             = (mk_world (fs w) tr, Returned (Some token))).
  { intros tr. rewrite StoreRuns.getToken_cases in Hget |- *. cbn [fs].
    destruct (token_file (fs w)) as [| content | ]; try discriminate.
    destruct (decrypt (tokenManager env) (utf8_decode content)) as [t' | e];
      [ | discriminate ].
    inversion Hget as [Hsome]. rewrite Hsome. reflexivity. }
  rewrite Hget'. unfold log, emit. cbn [fs trace].
  rewrite <- !app_assoc. reflexivity.
Qed.

Lemma showTokenStatus_prints_the_mask_witness :
  let env := saving_environment (js "sk-abc") in
  let w := fst (setToken (tokenManager env) sample_iv (js "sk-abc") empty_world) in
  snd (showTokenStatus env w) = Returned tt /\
  In (ConsoleLog (js "Token: sk-abc...-abc")) (trace (fst (showTokenStatus env w))).
Proof.
  cbv zeta.
  rewrite (showTokenStatus_prints_the_mask (saving_environment (js "sk-abc")) _
             (js "sk-abc")) by (vm_compute; reflexivity).
  split; [reflexivity | ].
  cbn [fst trace]. apply in_or_app. right. right. left. reflexivity.
Defined.

(** X13.  The display form of a token of eleven units or more is its first
    seven units, three dots and its last four units: fourteen units, with
    the units in between left out. *)
Theorem maskedToken_hides_the_middle (token : js_string) :
  (11 <= length token)%nat ->
  maskedToken token
  = firstn 7 token ++ js "..." ++ skipn (length token - 4) token /\
  length (maskedToken token) = 14%nat /\
  exists hidden,
    token = firstn 7 token ++ hidden ++ skipn (length token - 4) token /\
    length hidden = (length token - 11)%nat.
Proof.
  intros Hlen.
  assert (Hm : maskedToken token
               = firstn 7 token ++ js "..." ++ skipn (length token - 4) token).
  { unfold maskedToken. rewrite last_units. reflexivity. }
  split; [exact Hm | split].
  - rewrite Hm, !length_app, length_firstn, length_skipn.
    change (length (js "...")) with 3%nat. lia.
  - exists (firstn (length token - 11) (skipn 7 token)). split.
    + rewrite <- (firstn_skipn 7 token) at 1. f_equal.
      rewrite <- (firstn_skipn (length token - 11) (skipn 7 token)) at 1.
      f_equal. rewrite skipn_skipn. f_equal. lia.
    + rewrite length_firstn, length_skipn. lia.
Qed.

Lemma maskedToken_hides_the_middle_witness :
  maskedToken (js "sk-proj-0123456789") = js "sk-proj...6789" /\
  length (maskedToken (js "sk-proj-0123456789")) = 14%nat.
Proof.
  destruct (maskedToken_hides_the_middle (js "sk-proj-0123456789"))
    as [H1 [H2 _]].
  - vm_compute. lia.
  - split; [rewrite H1; reflexivity | exact H2].
Defined.

(** X14.  The display form hides nothing of a token of at most eleven
    units: the token can be read off it, as the units before the dots
    followed by the units that follow the overlap. *)
Theorem maskedToken_shows_short_tokens (token : js_string) :
  (length token <= 11)%nat ->
  token = firstn (Nat.min 7 (length token)) (maskedToken token)
          ++ skipn (21 - length token) (maskedToken token).
Proof.
  intros Hlen.
  do 12 (destruct token as [| ? token]; [reflexivity | ]).
  cbn [length] in Hlen. lia.
Qed.

Lemma maskedToken_shows_short_tokens_witness :
  maskedToken (js "sk-abc") = js "sk-abc...-abc" /\
  js "sk-abc" = firstn 6 (maskedToken (js "sk-abc"))
                ++ skipn 15 (maskedToken (js "sk-abc")).
Proof.
  split; [reflexivity | ].
  apply (maskedToken_shows_short_tokens (js "sk-abc")).
  vm_compute. lia.
Defined.

(** ** More properties of the pipeline and of the workflow *)

(** X15.  [generateCommitSuggestions] never ends the process and calls the
    client of the service once: a run that returns has made exactly one
    call of [chat.completions.create], with the prompt built from the diff;
    a run that throws has made none, and throws what [getOrRequestToken]
    threw.  What the client sends for one call, with the retries of its
    default settings, is not looked at here. *)
Theorem generateCommitSuggestions_calls_the_client_once (env : environment)
  (diff : js_string) (w w' : world) (r : ending suggestions) :
  generateCommitSuggestions env diff w = (w', r) ->
  exists evs,
    trace w' = trace w ++ evs /\
    match r with
    | Returned _ =>
        count_requests evs = 1%nat /\ In (Request (build_prompt diff)) evs
    | Threw e =>
        count_requests evs = 0%nat /\ getOrRequestToken env w = (w', Threw e)
    | Exited _ => False
    end.
Proof.
  destruct (getOrRequestToken env w) as [w1 r1] eqn:Htoken.
  destruct (runs_at _ _ _ _ _ _ _ _ (getOrRequestToken_runs env) Htoken)
    as [[evs1 [Htrace1 Hlocal]] Hr1].
  pose proof (count_requests_local _ Hlocal) as Hnone.
  destruct r1 as [token | e | n]; [ | | contradiction ].
  - rewrite (GeneratorRuns.generateCommitSuggestions_cases _ _ _ _ _ Htoken).
    cbv zeta. unfold logged. cbn [fs trace].
    assert (Hone : forall tail,
               count_requests tail = 0%nat ->
               count_requests (evs1 ++ [Request (build_prompt diff)] ++ tail)
               = 1%nat /\
               In (Request (build_prompt diff))
                  (evs1 ++ [Request (build_prompt diff)] ++ tail)).
    { intros tail Htail. split.
      - rewrite !count_requests_app, Hnone, Htail. reflexivity.
      - apply in_or_app. right. left. reflexivity. }
    assert (Hfailed : forall e s,
               (mk_world (fs w1)
                  ((trace w1 ++ [Request (build_prompt diff)])
                   ++ [ConsoleError suggestion_failure (Some e)]),
                Returned s) = (w', r) ->
               exists evs,
                 trace w' = trace w ++ evs /\
                 match r with
                 | Returned _ =>
                     count_requests evs = 1%nat /\
                     In (Request (build_prompt diff)) evs
                 | Threw e =>
                     count_requests evs = 0%nat /\
                     (w1, @Returned js_string token) = (w', Threw e)
                 | Exited _ => False
                 end).
    { intros e s H. inversion H; subst; clear H. cbn [trace].
      eexists. split; [rewrite Htrace1, <- !app_assoc; reflexivity | ].
      apply Hone. reflexivity. }
    assert (Hparsed : forall s,
               (mk_world (fs w1) (trace w1 ++ [Request (build_prompt diff)]),
                Returned s) = (w', r) ->
               exists evs,
                 trace w' = trace w ++ evs /\
                 match r with
                 | Returned _ =>
                     count_requests evs = 1%nat /\
                     In (Request (build_prompt diff)) evs
                 | Threw e =>
                     count_requests evs = 0%nat /\
                     (w1, @Returned js_string token) = (w', Threw e)
                 | Exited _ => False
                 end).
    { intros s H. inversion H; subst; clear H. cbn [trace].
      exists (evs1 ++ [Request (build_prompt diff)] ++ []).
      split; [rewrite Htrace1, <- !app_assoc; reflexivity | ].
      apply Hone. reflexivity. }
    destruct (create_completion env (build_prompt diff)) as [response | e];
      [ | apply Hfailed ].
    destruct (first_content response) as [[| c content] | ];
      try apply Hfailed.
    destruct (JSON.parse (c :: content)) as [parsed | e]; [ | apply Hfailed ].
    destruct parsed; first [apply Hfailed | apply Hparsed].
  - unfold generateCommitSuggestions. unfold mbind at 1. rewrite Htoken.
    intros H; inversion H; subst; clear H.
    exists evs1. split; [exact Htrace1 | split; [exact Hnone | reflexivity] ].
Qed.

Lemma generateCommitSuggestions_calls_the_client_once_witness :
  let env := sample_environment (fun _ => Throws (ServiceError 401))
                                (fun _ => Returns []) in
  snd (generateCommitSuggestions env sample_diff empty_world)
  = Returned fallback /\
  exists evs,
    trace (fst (generateCommitSuggestions env sample_diff empty_world))
    = trace empty_world ++ evs /\
    count_requests evs = 1%nat /\ In (Request (build_prompt sample_diff)) evs.
Proof.
  cbv zeta.
  assert (H : generateCommitSuggestions
                (sample_environment (fun _ => Throws (ServiceError 401))
                                    (fun _ => Returns []))
                sample_diff empty_world
              = (fst (generateCommitSuggestions
                        (sample_environment (fun _ => Throws (ServiceError 401))
                                            (fun _ => Returns []))
                        sample_diff empty_world),
                 Returned fallback))
    by (vm_compute; reflexivity).
  split; [rewrite H; reflexivity | ].
  exact (generateCommitSuggestions_calls_the_client_once _ _ _ _ _ H).
Defined.

(** X16.  [getGitDiff] never throws and never returns a blank diff.  It
    changes no file and runs nothing but the two diffs; what it returns is
    the staged diff, or the unstaged one when the staged one is blank; it
    ends the process with status 0 or 1 only. *)
Theorem getGitDiff_prefers_staged (env : environment) (w w' : world)
  (r : ending js_string) :
  getGitDiff env w = (w', r) ->
  fs w' = fs w /\
  (exists evs, trace w' = trace w ++ evs /\
               Forall (commands reads_repository) evs) /\
  match r with
  | Returned diff =>
      trim diff <> [] /\
      (execSync env staged_diff = Returns diff \/
       exists staged, execSync env staged_diff = Returns staged /\
                      trim staged = [] /\
                      execSync env unstaged_diff = Returns diff)
  | Threw _ => False
  | Exited status => status = 0 \/ status = 1
  end.
Proof.
  intros H.
  split; [ | split; [apply (runs_at _ _ _ _ _ _ _ _ (getGitDiff_runs env) H) | ] ];
    revert H;
    unfold getGitDiff, catch, mbind, exec, log, mbind, emit, lift, ret, exit,
      staged_diff, unstaged_diff;
    cbn [fs trace].
  - destruct (execSync env (js "git diff --cached")) as [staged | e];
      cbn [fs trace]; [ | intros H; inversion H; reflexivity ].
    destruct (trim staged) as [| ? ?] eqn:Hs; cbn [str_truthy negb fs trace];
      rewrite ?Hs; cbn [str_truthy negb fs trace];
      [ | intros H; inversion H; reflexivity ].
    destruct (execSync env (js "git diff")) as [unstaged | e];
      cbn [fs trace]; [ | intros H; inversion H; reflexivity ].
    destruct (trim unstaged) as [| ? ?] eqn:Hu; cbn [str_truthy negb fs trace];
      rewrite ?Hu; cbn [str_truthy negb fs trace];
      intros H; inversion H; reflexivity.
  - destruct (execSync env (js "git diff --cached")) as [staged | e];
      cbn [fs trace]; [ | intros H; inversion H; right; reflexivity ].
    destruct (trim staged) as [| ? ?] eqn:Hs; cbn [str_truthy negb fs trace];
      rewrite ?Hs; cbn [str_truthy negb fs trace].
    2: { intros H; inversion H; subst.
         split; [rewrite Hs; discriminate | left; reflexivity]. }
    destruct (execSync env (js "git diff")) as [unstaged | e];
      cbn [fs trace]; [ | intros H; inversion H; right; reflexivity ].
    destruct (trim unstaged) as [| ? ?] eqn:Hu; cbn [str_truthy negb fs trace];
      rewrite ?Hu; cbn [str_truthy negb fs trace];
      intros H; inversion H; subst; [left; reflexivity | ].
    split; [rewrite Hu; discriminate | ].
    right. exists staged. repeat split; assumption.
Qed.

Lemma getGitDiff_prefers_staged_witness :
  let env := sample_environment (fun _ => Throws (ServiceError 401))
                                (fun cmd => if str_eqb cmd unstaged_diff
                                            then Returns sample_diff
                                            else Returns []) in
  getGitDiff env empty_world
  = (mk_world (fs empty_world) [Exec staged_diff; Exec unstaged_diff],
     Returned sample_diff) /\
  trim sample_diff <> [] /\
  execSync env unstaged_diff = Returns sample_diff.
Proof.
  cbv zeta.
  assert (H : getGitDiff
                (sample_environment (fun _ => Throws (ServiceError 401))
                   (fun cmd => if str_eqb cmd unstaged_diff
                               then Returns sample_diff
                               else Returns []))
                empty_world
              = (mk_world (fs empty_world) [Exec staged_diff; Exec unstaged_diff],
                 Returned sample_diff))
    by (vm_compute; reflexivity).
  split; [exact H | ].
  destruct (getGitDiff_prefers_staged _ _ _ _ H) as [_ [_ [Hne _]]].
  split; [exact Hne | reflexivity].
Defined.

(** X17.  The menu of [selectCommitType].  On an array or a string of
    suggestions the choices are the suggested types, one separator, and the
    other types: together every type of the catalog, each once.  On any
    other value building the menu throws a TypeError. *)
Theorem commitTypeChoices_partition (suggested : value) :
  match suggested with
  | Array _ | String _ =>
      exists first others,
        commitTypeChoices suggested
        = Returns (map Item first ++ [Separator] ++ map Item others) /\
        Permutation (map choice_value (first ++ others))
                    (map CommitType.type COMMIT_TYPES) /\
        (forall c, In c first ->
                   includes suggested (choice_value c) = Returns true) /\
        (forall c, In c others ->
                   includes suggested (choice_value c) = Returns false)
  | _ => commitTypeChoices suggested = Throws TypeError
  end.
Proof.
  pose proof (includes_total suggested) as H.
  destruct suggested; try reflexivity;
    destruct H as [test Htest]; apply (commitTypeChoices_tested _ test Htest).
Qed.

(** X18.  The selectors do not check what they are given.  [selectScope]
    and [selectCommitMessage] throw a TypeError on everything but an array,
    [selectCommitType] on everything but an array or a string, and they
    throw before any question is asked; otherwise [selectCommitType] asks
    its one question and returns the answer. *)
Theorem selectors_need_arrays (env : environment) (suggested : value)
  (w : world) :
  let asked (name : js_string) (answer : result js_string) :=
    selectCommitType env suggested w
    = (logged w (Ask name),
       match answer with Returns a => Returned a | Throws e => Threw e end) in
  match suggested with
  | Array _ => asked (js "type") (answer_type env)
  | String _ =>
      asked (js "type") (answer_type env) /\
      selectScope env suggested w = (w, Threw TypeError) /\
      selectCommitMessage env suggested w = (w, Threw TypeError)
  | _ =>
      selectCommitType env suggested w = (w, Threw TypeError) /\
      selectScope env suggested w = (w, Threw TypeError) /\
      selectCommitMessage env suggested w = (w, Threw TypeError)
  end.
Proof.
  cbv zeta. destruct suggested; repeat split; reflexivity.
Qed.

(** X19.  [commitChanges] never throws and changes no file of the store.
    The lines it hands to [execSync] are the listing of the staged files,
    "git add ." and the line of the commit, in which the message stands
    between double quotes as it is: what the shell does with that line
    depends on the message and is not looked at here.  It hands over
    "git add ." exactly when the listing returned and is blank.  When it
    returns, the line of the commit was handed over and [execSync]
    returned; otherwise the process ends with status 1. *)
Theorem commitChanges_lines (env : environment)
  (message : js_string) (w w' : world) (r : ending unit) :
  commitChanges env message w = (w', r) ->
  fs w' = fs w /\
  exists evs,
    trace w' = trace w ++ evs /\
    Forall (commands (commits message)) evs /\
    (In (Exec stage_all) evs <->
     exists names, execSync env staged_names = Returns names /\
                   trim names = []) /\
    match r with
    | Returned _ =>
        In (Exec (commit_command message)) evs /\
        exists out, execSync env (commit_command message) = Returns out
    | Threw _ => False
    | Exited status => status = 1
    end.
Proof.
  unfold commitChanges, catch, mbind, exec, log, mbind, emit, lift, ret, exit.
  fold (commit_command message). fold staged_names. fold stage_all.
  cbn [fs trace].
  assert (Hcmds : forall evs,
             Forall (fun ev => In ev [Exec staged_names; Exec stage_all;
                                      Exec (commit_command message)]
                               \/ console ev) evs ->
             Forall (commands (commits message)) evs).
  { intros evs. apply Forall_impl. intros ev [Hin | Hc].
    - cbn [In] in Hin. unfold commits.
      destruct Hin as [<- | [<- | [<- | []]]]; cbn [commands]; auto.
    - destruct ev; cbn in Hc |- *; first [exact I | contradiction]. }
  destruct (execSync env staged_names) as [names | e] eqn:Hn; cbn [fs trace].
  2: { intros H; inversion H; subst; clear H. cbn [fs trace].
       split; [reflexivity | ]. eexists.
       split; [rewrite <- ?app_assoc; reflexivity | ].
       split; [apply Hcmds; listed | ].
       split; [ | reflexivity ].
       split; [intros H; never_staged H | intros [n' [H _]]; discriminate H]. }
  destruct (trim names) as [| u rest] eqn:Ht; cbn [str_truthy negb fs trace].
  - destruct (execSync env stage_all) as [out1 | e] eqn:Ha; cbn [fs trace].
    2: { intros H; inversion H; subst; clear H. cbn [fs trace].
         split; [reflexivity | ]. eexists.
         split; [rewrite <- ?app_assoc; reflexivity | ].
         split; [apply Hcmds; listed | ].
         split; [ | reflexivity ].
         split; [intros _; exists names; split; [reflexivity | exact Ht]
                | intros _; cbn [In app]; auto 10]. }
    destruct (execSync env (commit_command message)) as [out2 | e] eqn:Hc;
      cbn [fs trace];
      intros H; inversion H; subst; clear H; cbn [fs trace];
      (split; [reflexivity | ]); eexists;
      (split; [rewrite <- ?app_assoc; reflexivity | ]);
      (split; [apply Hcmds; listed | ]);
      (split; [ split; [intros _; exists names; split; [reflexivity | exact Ht]
                       | intros _; cbn [In app]; auto 10]
              | ]);
      [ split; [cbn [In app]; auto 10 | exists out2; reflexivity]
      | reflexivity ].
  - destruct (execSync env (commit_command message)) as [out2 | e] eqn:Hc;
      cbn [fs trace];
      intros H; inversion H; subst; clear H; cbn [fs trace];
      (split; [reflexivity | ]); eexists;
      (split; [rewrite <- ?app_assoc; reflexivity | ]);
      (split; [apply Hcmds; listed | ]);
      (split; [ split; [ intros H; never_staged H
                       | intros [n' [H1 H2]]; inversion H1; subst;
                         rewrite Ht in H2; discriminate H2 ]
              | ]);
      [ split; [cbn [In app]; auto 10 | exists out2; reflexivity]
      | reflexivity ].
Qed.

Lemma commitChanges_lines_witness :
  let env := sample_environment (fun _ => Throws (ServiceError 401))
                                (fun _ => Returns []) in
  let message := js "feat: ✨ update code" in
  snd (commitChanges env message empty_world) = Returned tt /\
  exists evs,
    trace (fst (commitChanges env message empty_world))
    = trace empty_world ++ evs /\
    In (Exec stage_all) evs /\ In (Exec (commit_command message)) evs.
Proof.
  cbv zeta.
  assert (H : commitChanges
                (sample_environment (fun _ => Throws (ServiceError 401))
                                    (fun _ => Returns []))
                (js "feat: ✨ update code") empty_world
              = (fst (commitChanges
                        (sample_environment (fun _ => Throws (ServiceError 401))
                                            (fun _ => Returns []))
                        (js "feat: ✨ update code") empty_world),
                 Returned tt))
    by (vm_compute; reflexivity).
  split; [rewrite H; reflexivity | ].
  destruct (commitChanges_lines _ _ _ _ _ H)
    as [_ [evs [Htrace [_ [Hstage [Hcommit _]]]]]].
  exists evs. split; [exact Htrace | split; [ | exact Hcommit ] ].
  apply Hstage. exists []. split; reflexivity.
Defined.

(** X20.  [generateCommit] never throws and ends the process with status
    0 or 1 only.  Besides the two diffs, it hands a line to [execSync] only
    after the user said yes, and the line is then the listing of the staged
    files, "git add .", or the line of the commit built from the message
    that [formatCommitMessage] makes of the answers of the user.  What the
    shell does with the line of the commit, whose message is not escaped,
    is not looked at here. *)
Theorem generateCommit_lines_need_confirmation (env : environment)
  (w w' : world) (r : ending unit) :
  generateCommit env w = (w', r) ->
  exists evs,
    trace w' = trace w ++ evs /\
    Forall (commands (allowed_command env)) evs /\
    (answer_confirm env <> Returns true ->
     Forall (commands reads_repository) evs) /\
    match r with
    | Returned _ => True
    | Threw _ => False
    | Exited status => status = 0 \/ status = 1
    end.
Proof.
  intros H.
  destruct (runs_at _ _ _ _ _ _ _ _ (generateCommit_runs env) H)
    as [[evs [Htrace Hevs]] Hr].
  exists evs. split; [exact Htrace | split; [exact Hevs | split] ].
  - intros Hno. eapply Forall_impl; [ | exact Hevs ].
    intros [ | | cmd | | ]; cbn [commands]; try (intros; exact I).
    intros [Hreads | [Hyes _]]; [exact Hreads | contradiction].
  - destruct r; [exact I | exact Hr | exact Hr].
Qed.

Lemma generateCommit_lines_need_confirmation_witness :
  let env := sample_environment (fun _ => Throws (ServiceError 401))
                                (fun _ => Returns sample_diff) in
  snd (generateCommit env empty_world) = Returned tt /\
  final_message env = Some (js "feat: ✨ update code") /\
  exists evs,
    trace (fst (generateCommit env empty_world)) = trace empty_world ++ evs /\
    Forall (commands (allowed_command env)) evs.
Proof.
  cbv zeta.
  assert (H : generateCommit
                (sample_environment (fun _ => Throws (ServiceError 401))
                                    (fun _ => Returns sample_diff))
                empty_world
              = (fst (generateCommit
                        (sample_environment (fun _ => Throws (ServiceError 401))
                                            (fun _ => Returns sample_diff))
                        empty_world),
                 Returned tt))
    by (vm_compute; reflexivity).
  split; [rewrite H; reflexivity | ].
  split; [vm_compute; reflexivity | ].
  destruct (generateCommit_lines_need_confirmation _ _ _ _ H)
    as [evs [Htrace [Hevs _]]].
  exists evs. split; [exact Htrace | exact Hevs].
Defined.

(** X21.  Suggestions that are not lists end the workflow.  When the
    suggestions that [generateCommitSuggestions] returned hold something
    else than an array under scopes or messages, or something else than an
    array or a string under types, [generateCommit] runs no further command
    and sends no further request: it prints "An error occurred:" with the
    error and ends the process with status 1. *)
Theorem unusable_suggestions_end_the_workflow (env : environment)
  (w w1 w2 : world) (diff : js_string) (s : suggestions) :
  getGitDiff env (logged w (ConsoleLog analyzing)) = (w1, Returned diff) ->
  generateCommitSuggestions env diff (logged w1 (ConsoleLog generating))
  = (w2, Returned s) ->
  selectable s = false ->
  exists w3 e evs,
    generateCommit env w
    = (logged w3 (ConsoleError workflow_failure (Some e)), Exited 1) /\
    trace w3 = trace w2 ++ evs /\ Forall stays_local evs.
Proof.
  intros Hdiff Hsuggestions Hs.
  unfold generateCommit, catch.
  rewrite (mbind_returned _ _ w (logged w (ConsoleLog analyzing)) tt)
    by reflexivity.
  rewrite (mbind_returned _ _ _ _ _ Hdiff).
  rewrite (mbind_returned _ _ w1 (logged w1 (ConsoleLog generating)) tt)
    by reflexivity.
  rewrite (mbind_returned _ _ _ _ _ Hsuggestions).
  match goal with
  | |- context [match ?tail w2 with _ => _ end] =>
      assert (Htail : runs tail stays_local nothing anything nothing)
  end.
  { call log_runs; [below | intros _ _ | never | never].
    apply (selectors_never_return env s
             (fun selectedType selectedScope selectedMessage => _) Hs). }
  match goal with
  | |- context [match ?tail w2 with _ => _ end] =>
      destruct (tail w2) as [w3 r3] eqn:Hrun
  end.
  destruct (runs_at _ _ _ _ _ _ _ _ Htail Hrun) as [[evs [Htrace Hevs]] Hr3].
  destruct r3 as [a | e | n]; [contradiction | | contradiction].
  exists w3, e, evs. split; [reflexivity | split; assumption].
Qed.

Lemma unusable_suggestions_end_the_workflow_witness :
  let text := json_text "{'types':['fix'],'scopes':'api'}" in
  let env := sample_environment (fun _ => Returns (one_choice text))
                                (fun _ => Returns sample_diff) in
  snd (generateCommitSuggestions env sample_diff empty_world)
  = Returned (mk_suggestions (Array [String (js "fix")]) (String (js "api"))
                             (Array [])) /\
  snd (generateCommit env empty_world) = Exited 1.
Proof.
  cbv zeta. split; [vm_compute; reflexivity | ].
  destruct (unusable_suggestions_end_the_workflow
              (sample_environment
                 (fun _ => Returns
                             (one_choice
                                (json_text "{'types':['fix'],'scopes':'api'}")))
                 (fun _ => Returns sample_diff))
              empty_world
              (mk_world (fs empty_world)
                 [ConsoleLog analyzing; Exec staged_diff])
              (mk_world (fs empty_world)
                 [ConsoleLog analyzing; Exec staged_diff; ConsoleLog generating;
                  ConsoleLog (js "🔑 No API token found. Please provide your OpenAI API token.");
                  ConsoleLog (js "   You can get your token from: https://platform.openai.com/api-keys
");
                  Ask (js "apiToken"); Ask (js "saveToken");
                  Request (build_prompt sample_diff)])
              sample_diff
              (mk_suggestions (Array [String (js "fix")]) (String (js "api"))
                              (Array [])))
    as [w3 [e [evs [Hgen _]]]].
  - vm_compute. reflexivity.
  - vm_compute. reflexivity.
  - reflexivity.
  - rewrite Hgen. reflexivity.
Defined.

(** X22.  The help and the token menu stay on the machine: started with
    "--help", "-h" or "--token", or outside a repository, [run] runs no
    command and sends no request, and it ends the process only outside a
    repository, with status 1. *)
Theorem help_and_token_menu_stay_local (env : environment) (w w' : world)
  (r : ending unit) :
  without_commit env = true ->
  run env w = (w', r) ->
  exists evs,
    trace w' = trace w ++ evs /\ Forall stays_local evs /\
    match r with
    | Exited status =>
        status = 1 /\ in_git_repository env = false
    | _ => True
    end.
Proof.
  intros Hflags H.
  destruct (runs_at _ _ _ _ _ _ _ _ (run_local_runs env Hflags) H)
    as [[evs [Htrace Hevs]] Hr].
  exists evs. split; [exact Htrace | split; [exact Hevs | ] ].
  destruct r as [a | e | n]; [exact I | exact I | ].
  split; [symmetry; exact Hr | ].
  destruct (in_git_repository env) eqn:Hrepo; [ | reflexivity ].
  exfalso. revert H. unfold run.
  unfold without_commit in Hflags. rewrite Hrepo in Hflags.
  cbn [negb] in Hflags. rewrite orb_false_r in Hflags.
  destruct (args_include env (js "--help") || args_include env (js "-h")).
  - intros H. apply (runs_at _ _ _ _ _ _ _ _ showHelp_runs H).
  - cbn [orb] in Hflags. rewrite Hflags.
    intros H.
    assert (Hmenu : runs (log (js "🤖 AI Conventional Commit Generator - Token Management
") >> showTokenManagementMenu env)%prog
                      stays_local anything anything nothing).
    { apply runs_bind.
      eapply runs_weaken;
        [ apply log_runs | | intros _ _ | intros ? [] | intros ? [] ].
      - intros ev Hev. destruct ev; cbn in Hev |- *;
          first [exact I | contradiction].
      - apply showTokenManagementMenu_runs. }
    apply (runs_at _ _ _ _ _ _ _ _ Hmenu H).
Qed.

Lemma help_and_token_menu_stay_local_witness :
  let env := menu_environment (js "clear") in
  let w := world_with_token_file (js "00:01") in
  snd (run env w) = Returned tt /\
  token_file (fs (fst (run env w))) = Missing /\
  exists evs, trace (fst (run env w)) = trace w ++ evs /\
              Forall stays_local evs.
Proof.
  cbv zeta.
  assert (H : run (menu_environment (js "clear"))
                (world_with_token_file (js "00:01"))
              = (fst (run (menu_environment (js "clear"))
                        (world_with_token_file (js "00:01"))),
                 Returned tt))
    by (vm_compute; reflexivity).
  split; [rewrite H; reflexivity | ].
  split; [vm_compute; reflexivity | ].
  destruct (help_and_token_menu_stay_local (menu_environment (js "clear"))
              _ _ _ eq_refl H) as [evs [Htrace [Hevs _]]].
  exists evs. split; [exact Htrace | exact Hevs].
Defined.

(** X23.  The exit status of the process is 0 or 1, on every machine and
    from every world, and every line that the process hands to [execSync]
    from start to end is one that [generateCommit] may hand over: one of
    the two diffs, or, after the user said yes, a line of the commit. *)
Theorem main_exit_status (env : environment) (w : world) :
  (snd (main env w) = 0 \/ snd (main env w) = 1) /\
  exists evs,
    trace (fst (main env w)) = trace w ++ evs /\
    Forall (commands (allowed_command env)) evs.
Proof.
  unfold main. destruct (run env w) as [w' r] eqn:H.
  destruct (runs_at _ _ _ _ _ _ _ _ (run_runs env) H)
    as [[evs [Htrace Hevs]] Hr].
  destruct r as [a | e | n]; cbn [fst snd trace].
  - split; [left; reflexivity | exists evs; split; assumption].
  - split; [left; reflexivity | ].
    exists (evs ++ [ConsoleError [] (Some e)]).
    split; [rewrite Htrace, app_assoc; reflexivity | ].
    apply Forall_app. split; [exact Hevs | repeat constructor].
  - split; [exact Hr | exists evs; split; assumption].
Qed.
